(** * Graph mapping service: a shallow embedding of the expansion engine

    The development follows the Python sources of the graph service:
    - [app/config.py]                   ([Module Config]),
    - [app/services/classification.py]  ([Module Classification]),
    - [app/services/etherscan.py]       ([Module Etherscan], [Module Client]),
    - [app/services/graph.py]           ([Module DiGraph], [Module Engine]),
    - [app/jobs.py]                     ([Module Jobs]).

    Python [int] is [Z]; Python [float] is the kernel's binary64 [float], so
    that divisions, products and comparisons round as they do in the source;
    [str] is [string]; a [dict] whose order is irrelevant is a [gmap], a [set]
    a [gset]; the NetworkX graph, whose node and edge order decides which
    address becomes a consolidation master, is a pair of insertion-ordered
    association lists.  Exceptions are values of [exn]; a function that can
    raise returns a [result]. *)

From Stdlib Require Import ZArith Floats String Ascii List Bool Lia.
From Stdlib Require Import Sorted Permutation.
From stdpp Require Import gmap strings list pretty.

#[local] Set Warnings "-inexact-float".
#[local] Open Scope string_scope.
#[local] Open Scope Z_scope.

(** ** Python values *)

Module Py.

(** Exceptions the modelled code raises or lets through. *)
Inductive exn : Type :=
| EtherscanError (msg : string)
| EtherscanRateLimitError (msg : string)
| GraphProcessingError (msg : string)
| TimeoutError
| OverflowError
| ValueError
| IndexError
| OtherError (msg : string).

Inductive result (A : Type) : Type :=
| Ok (a : A)
| Raise (e : exn).
Arguments Ok {A} a.
Arguments Raise {A} e.

Definition bind {A B} (r : result A) (k : A -> result B) : result B :=
  match r with
  | Ok a => k a
  | Raise e => Raise e
  end.

(** [isinstance(e, EtherscanError)]: the rate-limit error is a subclass. *)
Definition is_etherscan_error (e : exn) : bool :=
  match e with
  | EtherscanError _ | EtherscanRateLimitError _ => true
  | _ => false
  end.

(** [str.lower] as it acts on ASCII text (addresses are ASCII hexadecimal):
    the letters A to Z become a to z and every other character is kept.  On
    text with other cased characters [str.lower] does more; [isascii] marks
    the text on which the two agree. *)
Definition lower_ascii (c : ascii) : ascii :=
  let n := nat_of_ascii c in
  if (Nat.leb 65 n && Nat.leb n 90)%bool then ascii_of_nat (n + 32) else c.

Fixpoint lower (s : string) : string :=
  match s with
  | EmptyString => EmptyString
  | String c s' => String (lower_ascii c) (lower s')
  end.

(** [str.isascii]: every character is below 128. *)
Fixpoint isascii (s : string) : bool :=
  match s with
  | EmptyString => true
  | String c s' => (Nat.ltb (nat_of_ascii c) 128 && isascii s')%bool
  end.

(** [float(s)] for the decimal text [s] of the integer [n]: the nearest
    binary64 value, ties to even, an infinity past the largest finite one. *)
Definition float_of_Z (n : Z) : float :=
  SF2Prim (binary_normalize prec emax n 0 false).

(** [int(x)] for a float [x]: truncation towards zero; it raises
    [OverflowError] on an infinity and [ValueError] on a NaN. *)
Definition int_of_float (x : float) : result Z :=
  match Prim2SF x with
  | S754_zero _ => Ok 0
  | S754_infinity _ => Raise OverflowError
  | S754_nan => Raise ValueError
  | S754_finite s m e =>
      let a := match e with
               | Zneg k => Z.shiftr (Zpos m) (Zpos k)
               | _ => Z.shiftl (Zpos m) e
               end in
      Ok (if s then - a else a)
  end.

(** [x == n] for a float [x] and an integer [n]: Python compares the two
    exactly, without rounding [n]. *)
Definition float_eqb_Z (x : float) (n : Z) : bool :=
  match Prim2SF x with
  | S754_zero _ => n =? 0
  | S754_finite s m e =>
      let sm := if s then Zneg m else Zpos m in
      match e with
      | Zneg k => sm =? Z.shiftl n (Zpos k)
      | _ => Z.shiftl sm e =? n
      end
  | _ => false
  end.

(** [x > y], [x < y], [x >= y] on floats (all false on a NaN). *)
Definition fgt (x y : float) : bool := PrimFloat.ltb y x.
Definition flt (x y : float) : bool := PrimFloat.ltb x y.

(** [l[:k]]: the first [k] items, or all but the last [-k] when [k < 0]. *)
Definition slice_to {A} (k : Z) (l : list A) : list A :=
  if 0 <=? k then firstn (Z.to_nat k) l
  else firstn (Z.to_nat (Z.of_nat (length l) + k)) l.

(** Truthiness of an optional string: [None] and the empty string are false. *)
Definition truthy (o : option string) : bool :=
  match o with
  | Some s => negb (String.eqb s "")
  | None => false
  end.

(** [x in l] for a list of strings. *)
Definition str_in (x : string) (l : list string) : bool :=
  existsb (String.eqb x) l.

End Py.
Export Py.

(** ** app/config.py *)

Module Config.

Definition min_transaction_value_eth : float := 0.05.
Definition min_percentage_small_hack : float := 1.0.
Definition min_percentage_medium_hack : float := 0.5.
Definition min_percentage_large_hack : float := 0.1.
Definition reuse_threshold : Z := 3.
Definition max_api_calls_per_incident : Z := 25.

(** The dictionary [get_processing_limits] returns. *)
Record Limits : Type := {
  max_nodes : Z;
  max_api_calls : Z;
  max_transactions_per_node : Z;
  timeout_seconds : Z;
  max_depth : Z
}.

Definition get_processing_limits : Limits :=
  {| max_nodes := 500;
     max_api_calls := max_api_calls_per_incident;
     max_transactions_per_node := 5;
     timeout_seconds := 30;
     max_depth := 8 |}.

End Config.

(** ** app/services/classification.py *)

Module Classification.

(** [(entity_type, confidence_score, details)] *)
Definition classification : Type := string * float * option string.

Record AddressClassifier : Type := {
  known_addresses : gmap string (string * float * string);
  high_frequency : Z;
  consolidation : Z
}.

Definition directory_table : list (string * (string * float * string)) :=
  [ ("0x3f5ce5fbfe3e9af3971dd833d26ba9b5c936f0be", ("CEX", 95%float, "Binance"));
    ("0xd551234ae421e3bcba99a0da6d736074f22192ff", ("CEX", 95%float, "Binance"));
    ("0x564286362092d8e7936f0549571a803b203aaced", ("CEX", 95%float, "Binance"));
    ("0x0681d8db095565fe8a346fa0277bffde9c0edbbf", ("CEX", 95%float, "Binance"));
    ("0x32be343b94f860124dc4fee278fdcbd38c102d88", ("CEX", 95%float, "Poloniex"));
    ("0xb794f5ea0ba39494ce839613fffba74279579268", ("CEX", 95%float, "Poloniex"));
    ("0x267be1c1d684f78cb4f6a176c4911b741e4ffdc0", ("CEX", 95%float, "Kraken"));
    ("0xfa52274dd61e1643d2205169732f29114bc240b3", ("CEX", 95%float, "Kraken"));
    ("0x1522900b6dafac587d499a862861c0869be6e428", ("CEX", 95%float, "KuCoin"));
    ("0x2b5634c42055806a59e9107ed44d43c426e58258", ("CEX", 95%float, "KuCoin"));
    ("0x7a250d5630b4cf539739df2c5dacb4c659f2488d", ("DEX", 90%float, "Uniswap V2 Router"));
    ("0xe592427a0aece92de3edee1f18e0157c05861564", ("DEX", 90%float, "Uniswap V3 Router"));
    ("0x68b3465833fb72a70ecdf485e0e4c7bd8665fc45", ("DEX", 90%float, "Uniswap Router"));
    ("0xd9e1ce17f2641f24ae83637ab66a2cca9c378b9f", ("DEX", 90%float, "SushiSwap Router"));
    ("0x1111111254fb6c44bac0bed2854e76f90643097d", ("DEX", 85%float, "1inch Router"));
    ("0x8ba1f109551bd432803012645hac136c0cd747ef", ("Mixer", 85%float, "Tornado Cash"));
    ("0x47ce0c6ed5b0ce3d3a51fdb1c52dc66a7c3c2936", ("Mixer", 85%float, "Tornado Cash"));
    ("0x3154cf16ccdb4c6d922629664174b904d80f2c35", ("Bridge", 80%float, "Base Bridge"));
    ("0xa0b86a33e6c68c93d8b48fc5b41bc1ee0ba9f41d", ("Bridge", 80%float, "Polygon Bridge")) ].

(** [AddressClassifier.__init__] *)
Definition new_classifier : AddressClassifier :=
  {| known_addresses := list_to_map directory_table;
     high_frequency := 100;
     consolidation := 3 |}.

(** [add_known_address]: keys are stored lowercased. *)
Definition add_known_address (c : AddressClassifier)
    (address entity_type : string) (confidence : float) (name : string)
    : AddressClassifier :=
  {| known_addresses :=
       <[lower address := (entity_type, confidence, name)]> (known_addresses c);
     high_frequency := high_frequency c;
     consolidation := consolidation c |}.

Definition _classify_by_heuristics (address : string)
    (transaction_count daily_tx_count : Z) : classification :=
  if 10000 <? transaction_count then
    if 500 <? daily_tx_count then
      ("CEX", 40%float,
       Some ("High volume: " ++ pretty transaction_count ++ " total, "
             ++ pretty daily_tx_count ++ "/day"))
    else
      ("potential_endpoint", 30%float,
       Some ("High historical volume: " ++ pretty transaction_count))
  else if 1000 <? transaction_count then
    ("potential_endpoint", 25%float,
     Some ("Moderate volume: " ++ pretty transaction_count))
  else if ((transaction_count <? 100) && (daily_tx_count <? 5))%bool then
    ("potential_endpoint", 20%float, Some "Low activity wallet")
  else ("Unknown", 0%float, None).

Definition classify_address (c : AddressClassifier) (address : string)
    (transaction_count daily_tx_count times_seen_in_graph : Z)
    : classification :=
  let address_lower := lower address in
  match known_addresses c !! address_lower with
  | Some (entity_type, confidence, name) =>
      (entity_type, confidence, Some name)
  | None =>
      if high_frequency c <? daily_tx_count then
        ("high_frequency_service", 60%float,
         Some ("High frequency: " ++ pretty daily_tx_count ++ " tx/day"))
      else if consolidation c <=? times_seen_in_graph then
        ("consolidation_point", 70%float,
         Some ("Seen " ++ pretty times_seen_in_graph ++ " times in graph"))
      else _classify_by_heuristics address transaction_count daily_tx_count
  end.

(** Defaults of the keyword arguments. *)
Definition default_daily_tx_count : Z := 0.
Definition default_cumulative_value_percentage : float := 0.0.

Definition should_terminate_exploration (address entity_type : string)
    (confidence_score : float) (transaction_count outgoing_tx_count : Z)
    (cumulative_value_percentage : float) : bool * string :=
  if (fgt confidence_score 70.0
      && str_in entity_type ["CEX"; "DEX"; "Mixer"])%bool then
    (true, "high_confidence_classification")
  else if 200 <? outgoing_tx_count then
    (true, "high_transaction_volume")
  else if flt cumulative_value_percentage 5.0 then
    (true, "insufficient_value_flow")
  else if String.eqb entity_type "high_frequency_service" then
    (true, "high_frequency_service_detected")
  else (false, "").

End Classification.

(** ** app/schemas.py and app/services/etherscan.py *)

Module Tx.

(** [TransactionData].  [value] is the integer whose decimal text the
    field holds; [priority_score] is what [getattr(t, 'priority_score', None)]
    reads.  The schema declares no field of that name, so it is [None] on
    every object [normalize_transaction] builds. *)
Record t : Type := {
  block_number : Z;
  timestamp : option Z;
  from_address : string;
  to_address : string;
  value : Z;
  gas : option Z;
  gas_used : option Z;
  gas_price : option Z;
  transaction_hash : string;
  priority_score : option Z
}.

(** [tx.priority_score = p].  [TransactionData] is a pydantic model that
    declares no field [priority_score] and does not allow extra ones
    (app/schemas.py), so the assignment raises [ValueError] and leaves the
    object as it was. *)
Definition set_priority_score (tx : t) (p : Z) : result t := Raise ValueError.

End Tx.

Module Etherscan.

(** One raw transaction of the source's answer.  The text fields are kept
    as the dictionary has them ([None]: the key is missing); each numeric
    field holds what [hex_to_int] (or [hex_to_decimal_string]) makes of its
    text, an exception when [int(text, 16)] raises; [raw_timeStamp] holds
    what the timestamp conversion yields. *)
Record RawTx : Type := {
  raw_blockNumber : result Z;
  raw_timeStamp : result (option Z);
  raw_from : option string;
  raw_to : option string;
  raw_value : result Z;
  raw_gas : result Z;
  raw_gasUsed : result Z;
  raw_gasPrice : result Z;
  raw_hash : option string
}.

Definition normalize_transaction (raw_tx : RawTx) : result Tx.t :=
  bind (raw_timeStamp raw_tx) (fun timestamp =>
  bind (raw_blockNumber raw_tx) (fun block_number =>
  bind (raw_value raw_tx) (fun value =>
  bind (raw_gas raw_tx) (fun gas =>
  bind (raw_gasUsed raw_tx) (fun gas_used =>
  bind (raw_gasPrice raw_tx) (fun gas_price =>
  Ok {| Tx.block_number := block_number;
        Tx.timestamp := timestamp;
        Tx.from_address := lower (default "" (raw_from raw_tx));
        Tx.to_address :=
          (if truthy (raw_to raw_tx) then lower (default "" (raw_to raw_tx))
           else "");
        Tx.value := value;
        Tx.gas := Some gas;
        Tx.gas_used := Some gas_used;
        Tx.gas_price := Some gas_price;
        Tx.transaction_hash := default "" (raw_hash raw_tx);
        Tx.priority_score := None |})))))).

(** What one call of [get_account_transactions] comes to at the engine:
    the transactions, or the exception that leaves the call, after
    [attempts] requests made inside [_make_request]. *)
Record FetchOutcome : Type := {
  attempts : nat;
  outcome : result (list RawTx)
}.

End Etherscan.

(** ** The NetworkX directed graph *)

(** Insertion-ordered dictionaries. *)
Module AList.
Section Ops.
Context {K V : Type} `{EqDecision K}.

Fixpoint get (k : K) (l : list (K * V)) : option V :=
  match l with
  | [] => None
  | (k', v) :: l' => if decide (k = k') then Some v else get k l'
  end.

Definition mem (k : K) (l : list (K * V)) : bool :=
  match get k l with Some _ => true | None => false end.

(** [d[k] = f(d.get(k))]: an existing key keeps its place, a new one is
    appended. *)
Fixpoint upsert (k : K) (f : option V -> V) (l : list (K * V))
    : list (K * V) :=
  match l with
  | [] => [(k, f None)]
  | (k', v) :: l' =>
      if decide (k = k') then (k', f (Some v)) :: l'
      else (k', v) :: upsert k f l'
  end.

(** [d[k] = f(d[k])] for a key that is there (no change otherwise). *)
Fixpoint alter (k : K) (f : V -> V) (l : list (K * V)) : list (K * V) :=
  match l with
  | [] => []
  | (k', v) :: l' =>
      if decide (k = k') then (k', f v) :: l'
      else (k', v) :: alter k f l'
  end.

Definition keys (l : list (K * V)) : list K := map fst l.
End Ops.
End AList.

Module Node.

(** A node's attribute dictionary; [None] is a missing key.
    [classification_details] can hold Python's [None]. *)
Record t : Type := {
  depth_from_hack : option Z;
  entity_type : option string;
  confidence_score : option float;
  transaction_count : option Z;
  classification_details : option (option string);
  termination_reason : option string;
  manual_exploration_ready : option bool;
  consolidated_addresses : option (list string);
  first_seen : option Z;
  processed : option bool
}.

Definition empty : t :=
  {| depth_from_hack := None; entity_type := None; confidence_score := None;
     transaction_count := None; classification_details := None;
     termination_reason := None; manual_exploration_ready := None;
     consolidated_addresses := None; first_seen := None; processed := None |}.

Definition or_else {A} (new old : option A) : option A :=
  match new with Some _ => new | None => old end.

(** [old.update(new)] *)
Definition update (new old : t) : t :=
  {| depth_from_hack := or_else (depth_from_hack new) (depth_from_hack old);
     entity_type := or_else (entity_type new) (entity_type old);
     confidence_score := or_else (confidence_score new) (confidence_score old);
     transaction_count := or_else (transaction_count new) (transaction_count old);
     classification_details :=
       or_else (classification_details new) (classification_details old);
     termination_reason := or_else (termination_reason new) (termination_reason old);
     manual_exploration_ready :=
       or_else (manual_exploration_ready new) (manual_exploration_ready old);
     consolidated_addresses :=
       or_else (consolidated_addresses new) (consolidated_addresses old);
     first_seen := or_else (first_seen new) (first_seen old);
     processed := or_else (processed new) (processed old) |}.

End Node.

Module Edge.

(** An edge's attribute dictionary; [None] is a missing key.  [value_eth]
    is the number its stored text denotes; [timestamp], [gas_used] and
    [gas_price] can hold Python's [None]. *)
Record t : Type := {
  transaction_hash : option string;
  value_eth : option float;
  priority_score : option Z;
  block_number : option Z;
  timestamp : option (option Z);
  gas_used : option (option Z);
  gas_price : option (option Z);
  filter_reason : option string;
  flow_percentage : option float;
  importance : option string
}.

Definition empty : t :=
  {| transaction_hash := None; value_eth := None; priority_score := None;
     block_number := None; timestamp := None; gas_used := None;
     gas_price := None; filter_reason := None; flow_percentage := None;
     importance := None |}.

(** [old.update(new)] *)
Definition update (new old : t) : t :=
  {| transaction_hash :=
       Node.or_else (transaction_hash new) (transaction_hash old);
     value_eth := Node.or_else (value_eth new) (value_eth old);
     priority_score := Node.or_else (priority_score new) (priority_score old);
     block_number := Node.or_else (block_number new) (block_number old);
     timestamp := Node.or_else (timestamp new) (timestamp old);
     gas_used := Node.or_else (gas_used new) (gas_used old);
     gas_price := Node.or_else (gas_price new) (gas_price old);
     filter_reason := Node.or_else (filter_reason new) (filter_reason old);
     flow_percentage := Node.or_else (flow_percentage new) (flow_percentage old);
     importance := Node.or_else (importance new) (importance old) |}.

End Edge.

Module DiGraph.

(** [nx.DiGraph]: attributed nodes, and at most one attributed edge per
    ordered pair of nodes, both in insertion order. *)
Record t : Type := {
  nodes : list (string * Node.t);
  edges : list ((string * string) * Edge.t)
}.

Definition empty : t := {| nodes := []; edges := [] |}.

Definition has_node (g : t) (n : string) : bool := AList.mem n (nodes g).
Definition node_data (g : t) (n : string) : option Node.t :=
  AList.get n (nodes g).
Definition edge_data (g : t) (u v : string) : option Edge.t :=
  AList.get (u, v) (edges g).
Definition number_of_nodes (g : t) : Z := Z.of_nat (length (nodes g)).

(** [add_node(n, **attr)] *)
Definition add_node (g : t) (n : string) (attr : Node.t) : t :=
  {| nodes :=
       AList.upsert n (fun o => Node.update attr (default Node.empty o))
         (nodes g);
     edges := edges g |}.

(** [add_edge(u, v, **attr)]: missing endpoints are created without
    attributes; an existing edge has its attributes updated. *)
Definition add_edge (g : t) (u v : string) (attr : Edge.t) : t :=
  let ns := AList.upsert u (default Node.empty) (nodes g) in
  let ns := AList.upsert v (default Node.empty) ns in
  {| nodes := ns;
     edges :=
       AList.upsert (u, v) (fun o => Edge.update attr (default Edge.empty o))
         (edges g) |}.

(** [remove_node(n)]: the node goes with every edge that touches it.  (The
    engine removes only nodes it has just read from the graph; for a node
    that is not there NetworkX raises, and nothing is removed.) *)
Definition remove_node (g : t) (n : string) : t :=
  {| nodes := List.filter (fun kv => negb (bool_decide (kv.1 = n))) (nodes g);
     edges :=
       List.filter
         (fun kv => negb (bool_decide (kv.1.1 = n) || bool_decide (kv.1.2 = n)))
         (edges g) |}.

(** [graph.nodes[n].update(attr)] for a node of the graph (the engine
    guards each use by [n in graph.nodes]). *)
Definition update_node (g : t) (n : string) (attr : Node.t) : t :=
  {| nodes := AList.alter n (Node.update attr) (nodes g);
     edges := edges g |}.

Definition out_degree (g : t) (n : string) : Z :=
  Z.of_nat (length (List.filter (fun kv => bool_decide (kv.1.1 = n)) (edges g))).

Definition predecessors (g : t) (n : string) : list string :=
  map (fun kv => kv.1.1)
    (List.filter (fun kv => bool_decide (kv.1.2 = n)) (edges g)).

Definition successors (g : t) (n : string) : list string :=
  map (fun kv => kv.1.2)
    (List.filter (fun kv => bool_decide (kv.1.1 = n)) (edges g)).

End DiGraph.

(** ** Repository rows the engine reads (app/db.py) *)

Module Repo.

Record Incident : Type := { wallet_address : string }.

(** A row of the incident's transaction details; [value] is the number
    the stored amount denotes. *)
Record HackTx : Type := {
  to_address : string;
  transaction_hash : option string;
  value : option float
}.

End Repo.

(** ** app/services/graph.py *)

Module Engine.
Import Config Classification Etherscan.

(** The processing state of one [GraphMappingService]. *)
Record State : Type := {
  graph : DiGraph.t;
  api_calls_used : Z;
  nodes_processed : Z;
  edges_created : Z;
  address_visit_count : gmap string Z;
  processed_nodes : gset string;
  pending_nodes : list (string * Z)
}.

(** [GraphMappingService.__init__] *)
Definition new_service : State :=
  {| graph := DiGraph.empty; api_calls_used := 0; nodes_processed := 0;
     edges_created := 0; address_visit_count := ∅; processed_nodes := ∅;
     pending_nodes := [] |}.

Definition set_graph (st : State) (g : DiGraph.t) : State :=
  {| graph := g; api_calls_used := api_calls_used st;
     nodes_processed := nodes_processed st; edges_created := edges_created st;
     address_visit_count := address_visit_count st;
     processed_nodes := processed_nodes st; pending_nodes := pending_nodes st |}.

Definition set_pending_nodes (st : State) (p : list (string * Z)) : State :=
  {| graph := graph st; api_calls_used := api_calls_used st;
     nodes_processed := nodes_processed st; edges_created := edges_created st;
     address_visit_count := address_visit_count st;
     processed_nodes := processed_nodes st; pending_nodes := p |}.

Definition set_api_calls_used (st : State) (n : Z) : State :=
  {| graph := graph st; api_calls_used := n;
     nodes_processed := nodes_processed st; edges_created := edges_created st;
     address_visit_count := address_visit_count st;
     processed_nodes := processed_nodes st; pending_nodes := pending_nodes st |}.

Definition set_edges_created (st : State) (n : Z) : State :=
  {| graph := graph st; api_calls_used := api_calls_used st;
     nodes_processed := nodes_processed st; edges_created := n;
     address_visit_count := address_visit_count st;
     processed_nodes := processed_nodes st; pending_nodes := pending_nodes st |}.

Definition set_address_visit_count (st : State) (m : gmap string Z) : State :=
  {| graph := graph st; api_calls_used := api_calls_used st;
     nodes_processed := nodes_processed st; edges_created := edges_created st;
     address_visit_count := m;
     processed_nodes := processed_nodes st; pending_nodes := pending_nodes st |}.

(** [self.processed_nodes.add(a); self.nodes_processed += 1] *)
Definition mark_processed (st : State) (a : string) : State :=
  {| graph := graph st; api_calls_used := api_calls_used st;
     nodes_processed := nodes_processed st + 1;
     edges_created := edges_created st;
     address_visit_count := address_visit_count st;
     processed_nodes := {[a]} ∪ processed_nodes st;
     pending_nodes := pending_nodes st |}.

(** [_add_graph_node(address, depth, **kwargs)] *)
Definition _add_graph_node (g : DiGraph.t) (address : string) (depth : Z)
    (kwargs : Node.t) : DiGraph.t :=
  DiGraph.add_node g address
    (Node.update
       {| Node.depth_from_hack := Some depth; Node.entity_type := None;
          Node.confidence_score := None; Node.transaction_count := None;
          Node.classification_details := None; Node.termination_reason := None;
          Node.manual_exploration_ready := None;
          Node.consolidated_addresses := None; Node.first_seen := None;
          Node.processed := None |}
       kwargs).

(** [_add_graph_edge(from_addr, to_addr, tx_hash, value, **kwargs)] *)
Definition _add_graph_edge (g : DiGraph.t) (from_addr to_addr tx_hash : string)
    (value : float) (kwargs : Edge.t) : DiGraph.t :=
  DiGraph.add_edge g from_addr to_addr
    (Edge.update
       {| Edge.transaction_hash := Some tx_hash; Edge.value_eth := Some value;
          Edge.priority_score := None; Edge.block_number := None;
          Edge.timestamp := None; Edge.gas_used := None; Edge.gas_price := None;
          Edge.filter_reason := None; Edge.flow_percentage := None;
          Edge.importance := None |}
       kwargs).

(** [_get_total_stolen_amount]: the placeholder the source returns. *)
Definition _get_total_stolen_amount (st : State) : float := 100.0.

(** [_initialize_graph], given what the repository returned. *)
Definition _initialize_graph (st : State) (incident : option Repo.Incident)
    (tx_details : list Repo.HackTx) : result State :=
  match incident with
  | None => Raise (GraphProcessingError "Incident not found")
  | Some incident =>
      match tx_details with
      | [] => Raise (GraphProcessingError "No transaction details found")
      | hack_tx :: _ =>
          let victim_address := lower (Repo.wallet_address incident) in
          let hacker_address := lower (Repo.to_address hack_tx) in
          let g := DiGraph.empty in
          let g := _add_graph_node g victim_address 0
                     {| Node.depth_from_hack := None;
                        Node.entity_type := Some "victim_wallet";
                        Node.confidence_score := Some 100.0%float;
                        Node.transaction_count := None;
                        Node.classification_details := None;
                        Node.termination_reason := None;
                        Node.manual_exploration_ready := None;
                        Node.consolidated_addresses := None;
                        Node.first_seen := None; Node.processed := None |} in
          let g := _add_graph_node g hacker_address 1
                     {| Node.depth_from_hack := None;
                        Node.entity_type := Some "hacker_wallet";
                        Node.confidence_score := Some 95.0%float;
                        Node.transaction_count := None;
                        Node.classification_details := None;
                        Node.termination_reason := None;
                        Node.manual_exploration_ready := None;
                        Node.consolidated_addresses := None;
                        Node.first_seen := None; Node.processed := None |} in
          let hack_value := default 0%float (Repo.value hack_tx) in
          let g := _add_graph_edge g victim_address hacker_address
                     (default "" (Repo.transaction_hash hack_tx)) hack_value
                     {| Edge.transaction_hash := None; Edge.value_eth := None;
                        Edge.priority_score := Some 100;
                        Edge.block_number := None; Edge.timestamp := None;
                        Edge.gas_used := None; Edge.gas_price := None;
                        Edge.filter_reason := Some "initial_hack_transaction";
                        Edge.flow_percentage := None;
                        Edge.importance := None |} in
          Ok (set_pending_nodes (set_graph st g)
                (pending_nodes st ++ [(hacker_address, 1)]))
      end
  end.

Definition _get_min_percentage_threshold (hack_value_eth : float) : float :=
  if fgt hack_value_eth 100 then min_percentage_large_hack
  else if fgt hack_value_eth 10 then min_percentage_medium_hack
  else min_percentage_small_hack.

(** [float(tx.value) / 1e18] *)
Definition value_eth_of (tx : Tx.t) : float :=
  PrimFloat.div (float_of_Z (Tx.value tx)) 1e18.

(** [x == int(x)], raising what [int] raises. *)
Definition is_whole (x : float) : result bool :=
  bind (int_of_float x) (fun n => Ok (float_eqb_Z x n)).

Definition _calculate_priority_score (tx : Tx.t) (value_eth : float)
    : result Z :=
  let score := 0 in
  let score :=
    if fgt value_eth 10 then score + 50
    else if fgt value_eth 1 then score + 30
    else if fgt value_eth 0.1 then score + 20
    else score + 10 in
  bind (is_whole value_eth) (fun whole =>
  bind (if whole then Ok true else is_whole (PrimFloat.mul value_eth 1000))
    (fun round =>
  let score := if round then score + 10 else score in
  let score :=
    match Tx.gas_price tx with
    | Some gas_price =>
        if (negb (gas_price =? 0) && (20000000000 <? gas_price))%bool
        then score + 15 else score
    | None => score
    end in
  Ok (Z.min score 100))).

(** [getattr(t, 'priority_score', 0)] *)
Definition sort_key (tx : Tx.t) : Z := default 0 (Tx.priority_score tx).

(** [list.sort(key=sort_key, reverse=True)]: a stable sort, so equal keys
    keep the order they came in. *)
Fixpoint insert_by_priority (x : Tx.t) (l : list Tx.t) : list Tx.t :=
  match l with
  | [] => [x]
  | y :: l' =>
      if sort_key y <=? sort_key x then x :: y :: l'
      else y :: insert_by_priority x l'
  end.

Definition sort_by_priority (l : list Tx.t) : list Tx.t :=
  fold_right insert_by_priority [] l.

(** The loop over the raw transactions: one that fails to normalize is
    logged and skipped. *)
Definition normalize_all (transactions : list RawTx) : list Tx.t :=
  flat_map
    (fun tx => match normalize_transaction tx with
               | Ok n => [n]
               | Raise _ => []
               end)
    transactions.

(** The test one transaction has to pass in the primary tier. *)
Definition primary_keep (hack_value : float) (current_address : string)
    (tx : Tx.t) : bool :=
  if negb (String.eqb (lower (Tx.from_address tx)) (lower current_address))
  then false
  else
    let value_eth := value_eth_of tx in
    if flt value_eth min_transaction_value_eth then false
    else if fgt hack_value 0 then
      let percentage := PrimFloat.mul (PrimFloat.div value_eth hack_value) 100 in
      let min_percentage := _get_min_percentage_threshold hack_value in
      if flt percentage min_percentage then false else true
    else true.

(** The score the secondary tier computes for one transaction: what
    [_calculate_priority_score] returns, raised by 20 for a destination
    visited [reuse_threshold] times or more. *)
Definition secondary_priority (st : State) (tx : Tx.t) : result Z :=
  let value_eth := value_eth_of tx in
  bind (_calculate_priority_score tx value_eth) (fun priority_score =>
  let times_seen :=
    default 0 (address_visit_count st !! lower (Tx.to_address tx)) in
  Ok (if reuse_threshold <=? times_seen then priority_score + 20
      else priority_score)).

(** The secondary tier's treatment of one transaction: the score is
    computed, then assigned to [tx.priority_score], which raises. *)
Definition secondary_score (st : State) (tx : Tx.t) : result Tx.t :=
  bind (secondary_priority st tx) (fun priority_score =>
  Tx.set_priority_score tx priority_score).

Fixpoint secondary_tier (st : State) (l : list Tx.t) : result (list Tx.t) :=
  match l with
  | [] => Ok []
  | tx :: l' =>
      bind (secondary_score st tx) (fun tx' =>
      bind (secondary_tier st l') (fun rest => Ok (tx' :: rest)))
  end.

Definition _apply_filtering_pipeline (st : State) (transactions : list RawTx)
    (current_address : string) (depth : Z) : result (list Tx.t) :=
  match transactions with
  | [] => Ok []
  | _ =>
      let hack_value := _get_total_stolen_amount st in
      let normalized_transactions := normalize_all transactions in
      let primary_filtered :=
        List.filter (primary_keep hack_value current_address)
          normalized_transactions in
      bind (secondary_tier st primary_filtered) (fun secondary_filtered =>
      Ok (sort_by_priority secondary_filtered))
  end.

Section Service.
Variable limits : Limits.
Variable classifier : AddressClassifier.

Definition _process_transaction (st : State) (tx : Tx.t)
    (from_address : string) (depth : Z) : State :=
  let to_address := lower (Tx.to_address tx) in
  if (DiGraph.has_node (graph st) to_address
      && match DiGraph.node_data (graph st) to_address with
         | Some d => default false (Node.processed d)
         | None => false
         end)%bool
  then st
  else
    let st :=
      if negb (DiGraph.has_node (graph st) to_address) then
        let st :=
          set_graph st
            (_add_graph_node (graph st) to_address (depth + 1) Node.empty) in
        if depth + 1 <? max_depth limits then
          set_pending_nodes st (pending_nodes st ++ [(to_address, depth + 1)])
        else st
      else st in
    let value_eth := value_eth_of tx in
    let st :=
      set_graph st
        (_add_graph_edge (graph st) from_address to_address
           (Tx.transaction_hash tx) value_eth
           {| Edge.transaction_hash := None; Edge.value_eth := None;
              Edge.priority_score := Some (sort_key tx);
              Edge.block_number := Some (Tx.block_number tx);
              Edge.timestamp := Some (Tx.timestamp tx);
              Edge.gas_used := Some (Tx.gas_used tx);
              Edge.gas_price := Some (Tx.gas_price tx);
              Edge.filter_reason := Some "filtered_transaction";
              Edge.flow_percentage := None; Edge.importance := None |}) in
    set_edges_created st (edges_created st + 1).

(** [self.address_visit_count[address]]: reading a [defaultdict(int)]
    creates the entry when it is missing. *)
Definition visit_count_read (st : State) (address : string) : Z * State :=
  match address_visit_count st !! address with
  | Some n => (n, st)
  | None =>
      (0, set_address_visit_count st (<[address := 0]> (address_visit_count st)))
  end.

Definition _check_termination_conditions (st : State) (address : string)
    (total_tx_count filtered_tx_count : Z) : State :=
  let '(times_seen, st) := visit_count_read st address in
  let '(entity_type, confidence, details) :=
    classify_address classifier address total_tx_count
      default_daily_tx_count times_seen in
  let st :=
    if DiGraph.has_node (graph st) address then
      set_graph st
        (DiGraph.update_node (graph st) address
           {| Node.depth_from_hack := None;
              Node.entity_type := Some entity_type;
              Node.confidence_score := Some confidence;
              Node.transaction_count := Some total_tx_count;
              Node.classification_details := Some details;
              Node.termination_reason := None;
              Node.manual_exploration_ready := None;
              Node.consolidated_addresses := None;
              Node.first_seen := None; Node.processed := None |})
    else st in
  let '(should_terminate, reason) :=
    should_terminate_exploration address entity_type confidence
      total_tx_count filtered_tx_count default_cumulative_value_percentage in
  if should_terminate then
    let st :=
      if DiGraph.has_node (graph st) address then
        set_graph st
          (DiGraph.update_node (graph st) address
             {| Node.depth_from_hack := None; Node.entity_type := None;
                Node.confidence_score := None;
                Node.transaction_count := None;
                Node.classification_details := None;
                Node.termination_reason := Some reason;
                Node.manual_exploration_ready := Some (flt confidence 80);
                Node.consolidated_addresses := None;
                Node.first_seen := None; Node.processed := None |})
      else st in
    set_pending_nodes st
      (List.filter (fun p => negb (bool_decide (p.1 = address)))
         (pending_nodes st))
  else st.

(** How a piece of the traversal ends: normally, or with an exception
    that leaves it, in both cases with the state as mutated so far. *)
Inductive completion : Type :=
| Done (st : State)
| Raised (e : exn) (st : State).

Definition state_of (o : completion) : State :=
  match o with Done st | Raised _ st => st end.

(** [except (EtherscanError, EtherscanRateLimitError)]: such an error is
    logged and the node is left; anything else propagates. *)
Definition except_etherscan (e : exn) (st : State) : completion :=
  if is_etherscan_error e then Done st else Raised e st.

(** The block the fetch starts from: the node's [first_seen], if any. *)
Definition start_block (g : DiGraph.t) (address : string) : Z :=
  match DiGraph.node_data g address with
  | Some d => default 0 (Node.first_seen d)
  | None => 0
  end.

(** [_process_node]; [fetch] is what the call of
    [get_account_transactions(address, start_block, 50, "asc")] comes to. *)
Definition _process_node (fetch : string -> Z -> FetchOutcome) (st : State)
    (address : string) (depth : Z) : completion :=
  let st :=
    set_address_visit_count st
      (<[address := default 0 (address_visit_count st !! address) + 1]>
         (address_visit_count st)) in
  match Etherscan.outcome (fetch address (start_block (graph st) address)) with
  | Raise e => except_etherscan e st
  | Ok transactions =>
      let st := set_api_calls_used st (api_calls_used st + 1) in
      match _apply_filtering_pipeline st transactions address depth with
      | Raise e => except_etherscan e st
      | Ok filtered_transactions =>
          let st :=
            fold_left
              (fun st tx_data => _process_transaction st tx_data address depth)
              (slice_to (max_transactions_per_node limits) filtered_transactions)
              st in
          Done
            (_check_termination_conditions st address
               (Z.of_nat (length transactions))
               (Z.of_nat (length filtered_transactions)))
      end
  end.

(** What the surroundings supply to one iteration of the main loop:
    whether the wall clock has passed the deadline when the iteration
    starts, the transaction source as it answers then, and how the awaited
    [graph_repo.update_graph_status] that ends the iteration goes: [None]
    when the write returns, the exception that leaves it otherwise (a
    database error, or the cancellation of the task at that point). *)
Record Env : Type := {
  clock_expired : bool;
  get_account_transactions : string -> Z -> FetchOutcome;
  update_graph_status : option exn
}.

(** [await self.graph_repo.update_graph_status(...)] at the end of an
    iteration. *)
Definition write_progress (env : Env) (st : State) : completion :=
  match update_graph_status env with
  | None => Done st
  | Some e => Raised e st
  end.

(** The [while] condition of [_recursive_traversal]. *)
Definition loop_condition (st : State) : bool :=
  (negb (bool_decide (pending_nodes st = []))
   && (api_calls_used st <? max_api_calls limits)
   && (DiGraph.number_of_nodes (graph st) <? max_nodes limits))%bool.

(** The body of the [while] loop.  After a node is expanded the progress
    is written to the repository; the row written (a percentage between 0
    and 95 and the step name) is outside the state modelled here, but an
    exception of the write leaves the loop like any other. *)
Definition loop_body (env : Env) (st : State) : completion :=
  if clock_expired env then Raised TimeoutError st
  else
    match pending_nodes st with
    | [] => Raised IndexError st
    | (current_address, current_depth) :: rest =>
        let st := set_pending_nodes st rest in
        if (bool_decide (current_address ∈ processed_nodes st)
            || (max_depth limits <=? current_depth))%bool
        then Done st
        else
          match _process_node (get_account_transactions env) st
                  current_address current_depth with
          | Done st => write_progress env (mark_processed st current_address)
          | Raised e st => Raised e st
          end
    end.

(** How far the traversal has come when the environment has answered
    for the iterations listed. *)
Inductive progress : Type :=
| Running (st : State)
| Completed (st : State)
| Aborted (e : exn) (st : State).

Definition progress_state (p : progress) : State :=
  match p with Running st | Completed st | Aborted _ st => st end.

(** [_recursive_traversal], one [Env] per iteration. *)
Fixpoint _recursive_traversal (envs : list Env) (st : State) : progress :=
  if loop_condition st then
    match envs with
    | [] => Running st
    | env :: envs' =>
        match loop_body env st with
        | Done st' => _recursive_traversal envs' st'
        | Raised e st' => Aborted e st'
        end
    end
  else Completed st.

(** *** Post-processing *)

(** The test of [_remove_dead_ends] on one node. *)
Definition is_dead_end (g : DiGraph.t) (node : string) (node_data : Node.t)
    : bool :=
  ((DiGraph.out_degree g node =? 0)
   && negb (truthy (Node.termination_reason node_data))
   && negb (match Node.entity_type node_data with
            | Some e => str_in e ["CEX"; "DEX"; "Mixer"]
            | None => false
            end))%bool.

Definition nodes_to_remove (g : DiGraph.t) : list string :=
  map fst (List.filter (fun kv => is_dead_end g kv.1 kv.2) (DiGraph.nodes g)).

Definition _remove_dead_ends (st : State) : State :=
  set_graph st (fold_left DiGraph.remove_node (nodes_to_remove (graph st)) (graph st)).

(** [node_data.get("classification_details")] *)
Definition entity_key_of (node_data : Node.t) : option string :=
  match Node.classification_details node_data with
  | Some k => k
  | None => None
  end.

(** The [entity_groups] dictionary of [_consolidate_entities], in the
    order its keys were first met. *)
Definition entity_groups (g : DiGraph.t) : list (string * list string) :=
  fold_left
    (fun groups kv =>
       match entity_key_of kv.2 with
       | Some entity_key =>
           if (truthy (Some entity_key)
               && negb (String.eqb entity_key "Unknown"))%bool
           then AList.upsert entity_key (fun o => (default [] o ++ [kv.1])%list) groups
           else groups
       | None => groups
       end)
    (DiGraph.nodes g) [].

(** The two loops that move the edges of [addr] onto the master. *)
Definition redirect_incoming (master_address addr : string) (g : DiGraph.t)
    : DiGraph.t :=
  fold_left
    (fun g pred =>
       if negb (String.eqb pred master_address) then
         match DiGraph.edge_data g pred addr with
         | Some edge_data => DiGraph.add_edge g pred master_address edge_data
         | None => g
         end
       else g)
    (DiGraph.predecessors g addr) g.

Definition redirect_outgoing (master_address addr : string) (g : DiGraph.t)
    : DiGraph.t :=
  fold_left
    (fun g succ =>
       if negb (String.eqb succ master_address) then
         match DiGraph.edge_data g addr succ with
         | Some edge_data => DiGraph.add_edge g master_address succ edge_data
         | None => g
         end
       else g)
    (DiGraph.successors g addr) g.

(** [_consolidate_address_group]; the master is a node of the graph, the
    group having just been read from it. *)
Definition _consolidate_address_group (g : DiGraph.t)
    (addresses : list string) (entity_name : string) : DiGraph.t :=
  match addresses with
  | master_address :: ((_ :: _) as other_addresses) =>
      let g :=
        {| DiGraph.nodes :=
             AList.alter master_address
               (fun master_data =>
                  Node.update
                    {| Node.depth_from_hack := None;
                       Node.entity_type :=
                         Some (default "Unknown" (Node.entity_type master_data));
                       Node.confidence_score := None;
                       Node.transaction_count := None;
                       Node.classification_details := None;
                       Node.termination_reason := None;
                       Node.manual_exploration_ready := None;
                       Node.consolidated_addresses := Some other_addresses;
                       Node.first_seen := None; Node.processed := None |}
                    master_data)
               (DiGraph.nodes g);
           DiGraph.edges := DiGraph.edges g |} in
      fold_left
        (fun g addr =>
           let g := redirect_incoming master_address addr g in
           let g := redirect_outgoing master_address addr g in
           DiGraph.remove_node g addr)
        other_addresses g
  | _ => g
  end.

Definition _consolidate_entities (st : State) : State :=
  set_graph st
    (fold_left
       (fun g group =>
          if (1 <? length group.2)%nat
          then _consolidate_address_group g group.2 group.1
          else g)
       (entity_groups (graph st)) (graph st)).

(** What [_analyze_flows] writes on one edge. *)
Definition annotate_flow (total_stolen : float) (edge_data : Edge.t) : Edge.t :=
  let value_eth := default 0%float (Edge.value_eth edge_data) in
  let flow_percentage :=
    PrimFloat.mul (PrimFloat.div value_eth total_stolen) 100 in
  Edge.update
    {| Edge.transaction_hash := None; Edge.value_eth := None;
       Edge.priority_score := None; Edge.block_number := None;
       Edge.timestamp := None; Edge.gas_used := None; Edge.gas_price := None;
       Edge.filter_reason := None;
       Edge.flow_percentage := Some flow_percentage;
       Edge.importance :=
         Some (if fgt flow_percentage 10 then "critical"
               else if fgt flow_percentage 2 then "significant"
               else "minor") |}
    edge_data.

Definition _analyze_flows (st : State) : State :=
  let total_stolen := _get_total_stolen_amount st in
  if PrimFloat.leb total_stolen 0 then st
  else
    set_graph st
      {| DiGraph.nodes := DiGraph.nodes (graph st);
         DiGraph.edges :=
           map (fun kv => (kv.1, annotate_flow total_stolen kv.2))
             (DiGraph.edges (graph st)) |}.

Definition _optimize_graph (st : State) : State :=
  _analyze_flows (_consolidate_entities (_remove_dead_ends st)).

End Service.

End Engine.

(** ** app/jobs.py *)

Module Jobs.

(** A row of [incident_graphs], as [get_graph_status] returns it. *)
Record GraphRow : Type := {
  status : string;
  progress_percentage : option Z;
  current_step : option string;
  error_message : option string;
  error_code : option string
}.

(** What the two repositories hold. *)
Record Repository : Type := {
  incident_graphs : gmap string GraphRow;
  incidents : gmap string Repo.Incident
}.

Definition get_graph_status (r : Repository) (incident_id : string)
    : option GraphRow :=
  incident_graphs r !! incident_id.

Definition get_incident_by_id (r : Repository) (incident_id : string)
    : option Repo.Incident :=
  incidents r !! incident_id.

(** [create_incident_graph]: insert, or reset the row that is there. *)
Definition create_incident_graph (r : Repository) (incident_id : string)
    : Repository :=
  {| incident_graphs :=
       <[incident_id :=
           {| status := "pending"; progress_percentage := Some 0;
              current_step := None; error_message := None;
              error_code := None |}]> (incident_graphs r);
     incidents := incidents r |}.

Record JobInfo : Type := {
  job_id : string;
  incident_id : string;
  job_status : string;
  created_at : Z;
  estimated_completion : Z;
  options : gmap string Z
}.

(** The task [asyncio.create_task(self._process_job(job_id, graph_service))]
    creates. *)
Record Task : Type := {
  task_job_id : string;
  task_service : Engine.State
}.

Record JobManager : Type := {
  active_jobs : gmap string JobInfo;
  job_tasks : gmap string Task;
  last_job_start : option float;
  min_job_interval : float
}.

(** [JobManager.__init__] *)
Definition new_manager : JobManager :=
  {| active_jobs := ∅; job_tasks := ∅; last_job_start := None;
     min_job_interval := 1.0 |}.

(** Everything [start_job] reads or writes: the manager, the repository,
    the sleeps it has awaited and the tasks it has created. *)
Record World : Type := {
  manager : JobManager;
  repository : Repository;
  slept : list float;
  created_tasks : list Task
}.

(** The clock readings of one call: [time.time()] at the rate check,
    [datetime.now()], and [time.time()] once the task is created. *)
Record Clock : Type := {
  time_at_check : float;
  datetime_now : Z;
  time_at_start : float
}.

(** The dictionary [start_job] returns, by its ["status"]. *)
Inductive Response : Type :=
| Conflict (error_code message existing_job_id : string)
| Error (error_code message : string)
| Accepted (job_id incident_id message : string)
           (created_at estimated_completion : Z).

Definition response_status (r : Response) : string :=
  match r with
  | Conflict _ _ _ => "conflict"
  | Error _ _ => "error"
  | Accepted _ _ _ _ _ => "accepted"
  end.

(** Truthiness of [self.last_job_start]: [None] and [0.0] are false. *)
Definition last_start_set (o : option float) : bool :=
  match o with
  | Some t => negb (PrimFloat.eqb t 0)
  | None => false
  end.

Definition start_job (clock : Clock) (w : World) (incident_id : string)
    (options : option (gmap string Z)) : Response * World :=
  let existing_status := get_graph_status (repository w) incident_id in
  if match existing_status with
     | Some row => str_in (status row) ["pending"; "running"]
     | None => false
     end
  then
    (Conflict "ALREADY_PROCESSING"
       "Graph processing already in progress for this incident" incident_id,
     w)
  else
    let slept' :=
      if last_start_set (last_job_start (manager w)) then
        let time_since_last :=
          PrimFloat.sub (time_at_check clock)
            (default 0%float (last_job_start (manager w))) in
        if flt time_since_last (min_job_interval (manager w)) then
          (slept w ++ [PrimFloat.sub (min_job_interval (manager w)) time_since_last])%list
        else slept w
      else slept w in
    match get_incident_by_id (repository w) incident_id with
    | None =>
        (Error "INCIDENT_NOT_FOUND"
           ("Incident with ID " ++ incident_id ++ " not found"),
         {| manager := manager w; repository := repository w;
            slept := slept'; created_tasks := created_tasks w |})
    | Some incident =>
        let job_id := incident_id in
        let created_at := datetime_now clock in
        let estimated_completion := created_at + 30 in
        let info :=
          {| job_id := job_id; incident_id := incident_id;
             job_status := "pending"; created_at := created_at;
             estimated_completion := estimated_completion;
             options := default ∅ options |} in
        let task := {| task_job_id := job_id;
                       task_service := Engine.new_service |} in
        (Accepted job_id incident_id "Graph processing started"
           created_at estimated_completion,
         {| manager :=
              {| active_jobs := <[job_id := info]> (active_jobs (manager w));
                 job_tasks := <[job_id := task]> (job_tasks (manager w));
                 last_job_start := Some (time_at_start clock);
                 min_job_interval := min_job_interval (manager w) |};
            repository := create_incident_graph (repository w) incident_id;
            slept := slept';
            created_tasks := (created_tasks w ++ [task])%list |})
    end.

End Jobs.

(** * Notions the statements use, and a small incident to run them on *)

Import Config Classification Etherscan Engine.

(** ** The classifier's directories *)

(** The directories the service can hold: the startup table, extended by
    [add_known_address]. *)
Inductive directory_built : AddressClassifier -> Prop :=
| built_new : directory_built new_classifier
| built_add c address entity_type confidence name :
    directory_built c ->
    directory_built (add_known_address c address entity_type confidence name).

(** ** The terms of a priority score *)

(** The terms of the score, as the secondary tier is described: the base of
    the value bucket and the three bonuses. *)
Definition value_base (value_eth : float) : Z :=
  if fgt value_eth 10 then 50
  else if fgt value_eth 1 then 30
  else if fgt value_eth 0.1 then 20
  else 10.

(** The bonus for a round amount. *)
Definition round_bonus (round : bool) : Z := if round then 10 else 0.

(** The bonus for a gas price above 20 gwei. *)
Definition gas_bonus (tx : Tx.t) : Z :=
  match Tx.gas_price tx with
  | Some gas_price => if 20000000000 <? gas_price then 15 else 0
  | None => 0
  end.

(** The bonus for a destination seen three times or more. *)
Definition reuse_bonus (st : State) (tx : Tx.t) : Z :=
  if 3 <=? default 0 (address_visit_count st !! lower (Tx.to_address tx))
  then 20 else 0.

(** Whether the amount is a whole number of units or of thousandths. *)
Definition round_amount (value_eth : float) : result bool :=
  bind (is_whole value_eth) (fun whole =>
  if whole then Ok true else is_whole (PrimFloat.mul value_eth 1000)).

(** A float that is neither an infinity nor a NaN. *)
Definition finiteb (x : float) : bool :=
  match Prim2SF x with
  | S754_zero _ | S754_finite _ _ _ => true
  | _ => false
  end.

(** The amount of a transaction, and a thousand times it, are finite. *)
Definition amount_is_finite (tx : Tx.t) : bool :=
  (finiteb (value_eth_of tx) && finiteb (PrimFloat.mul (value_eth_of tx) 1000))%bool.

(** The transactions of a fetched list that pass the primary tier at
    [address], normalized, in the order fetched.  The basis of the
    percentage test is what [_get_total_stolen_amount] returns, which is the
    same in every state. *)
Definition survivors (transactions : list RawTx) (address : string)
    : list Tx.t :=
  List.filter (primary_keep (_get_total_stolen_amount new_service) address)
    (normalize_all transactions).

(** ** States of the traversal *)

(** Every frontier entry names a node of the graph, and the graph holds at
    most one edge per ordered pair of addresses. *)
Definition engine_inv (st : State) : Prop :=
  (forall a d, In (a, d) (pending_nodes st) ->
     DiGraph.has_node (graph st) a = true)
  /\ List.NoDup (AList.keys (DiGraph.edges (graph st))).

(** From [st] to [st'] no node is lost and [api_calls_used] moves by [k]. *)
Definition advances (k : Z) (st st' : State) : Prop :=
  (forall n, DiGraph.has_node (graph st) n = true ->
     DiGraph.has_node (graph st') n = true)
  /\ api_calls_used st' = api_calls_used st + k.

(** The state [_process_node] works on once the visit is counted. *)
Definition visited (st : State) (address : string) : State :=
  set_address_visit_count st
    (<[address := default 0 (address_visit_count st !! address) + 1]>
       (address_visit_count st)).

(** The termination reason recorded for an address, if any. *)
Definition termination_reason_of (st : State) (address : string) : option string :=
  match DiGraph.node_data (graph st) address with
  | Some node_data => Node.termination_reason node_data
  | None => None
  end.

(** ** Edges and entity groups *)


(** The name under which consolidation files a node, if it files it. *)
Definition group_key (node_data : Node.t) : option string :=
  match entity_key_of node_data with
  | Some entity_key =>
      if (truthy (Some entity_key) && negb (String.eqb entity_key "Unknown"))%bool
      then Some entity_key else None
  | None => None
  end.

(** The filed nodes, in node order, each with its name. *)
Definition filed (ns : list (string * Node.t)) : list (string * string) :=
  flat_map
    (fun kv => match group_key kv.2 with Some k => [(kv.1, k)] | None => [] end)
    ns.

Arguments filed : simpl never.

(** The nodes filed under [k], in node order. *)
Definition members (k : string) (fs : list (string * string)) : list string :=
  map fst (List.filter (fun p => String.eqb p.2 k) fs).

(** One step of the grouping loop of [_consolidate_entities]. *)
Definition group_step (groups : list (string * list string))
    (kv : string * Node.t) : list (string * list string) :=
  match group_key kv.2 with
  | Some k => AList.upsert k (fun o => (default [] o ++ [kv.1])%list) groups
  | None => groups
  end.

(** The addresses a group loses: all but its first, when it has two or more. *)
Definition absorbed (addresses : list string) : list string :=
  match addresses with
  | _ :: ((_ :: _) as other_addresses) => other_addresses
  | _ => []
  end.

(** All the addresses the groups lose. *)
Definition all_absorbed (groups : list (string * list string)) : list string :=
  flat_map (fun group => absorbed group.2) groups.

(** ** A small incident *)

(** An outgoing transfer of the hacker's address as the source reports it. *)
Definition raw_transfer (to hash : string) (wei gas_price : Z) : RawTx :=
  {| raw_blockNumber := Ok 1; raw_timeStamp := Ok None;
     raw_from := Some "0xHACKER"; raw_to := Some to; raw_value := Ok wei;
     raw_gas := Ok 21000; raw_gasUsed := Ok 21000;
     raw_gasPrice := Ok gas_price; raw_hash := Some hash |}.

(** The state [_initialize_graph] leaves for an incident whose seed
    transaction moved 5 units from [0xvictim] to [0xhacker]. *)
Definition seed_state : State :=
  match
    _initialize_graph new_service
      (Some {| Repo.wallet_address := "0xVictim" |})
      [ {| Repo.to_address := "0xHacker";
           Repo.transaction_hash := Some "0xseed";
           Repo.value := Some 5%float |} ]
  with
  | Ok st => st
  | Raise _ => new_service
  end.

(** 0.10, 0.06 and 0.04 units, sent by the hacker's address. *)
Definition small_transfers : list RawTx :=
  [ raw_transfer "0xa" "h1" (10 ^ 17) 1;
    raw_transfer "0xb" "h2" (6 * 10 ^ 16) 1;
    raw_transfer "0xc" "h3" (4 * 10 ^ 16) 1 ].

(** 1 unit and 60 units to the same address, 0.04 units to another. *)
Definition large_transfers : list RawTx :=
  [ raw_transfer "0xa" "h1" (10 ^ 18) 1;
    raw_transfer "0xa" "h2" (60 * 10 ^ 18) 30000000000;
    raw_transfer "0xc" "h3" (4 * 10 ^ 16) 1 ].

(** The hacker pays two addresses of the same exchange, 2 and 3 units. *)
Definition exchange_transfers : list RawTx :=
  [ raw_transfer "0x3f5ce5fbfe3e9af3971dd833d26ba9b5c936f0be" "h1" (2 * 10 ^ 18) 1;
    raw_transfer "0xd551234ae421e3bcba99a0da6d736074f22192ff" "h2" (3 * 10 ^ 18) 1 ].

(** The second of the large transfers once normalized: 60 units, paid with
    a gas price of 30 gwei. *)
Definition sixty_units : Tx.t :=
  {| Tx.block_number := 1; Tx.timestamp := None;
     Tx.from_address := "0xhacker"; Tx.to_address := "0xa";
     Tx.value := 60 * 10 ^ 18; Tx.gas := Some 21000;
     Tx.gas_used := Some 21000; Tx.gas_price := Some 30000000000;
     Tx.transaction_hash := "h2"; Tx.priority_score := None |}.


(** A source that answers every request with [txs], first time; the
    progress is written. *)
Definition answering (txs : list RawTx) : Env :=
  {| clock_expired := false;
     get_account_transactions :=
       fun _ _ => {| attempts := 1; Etherscan.outcome := Ok txs |};
     update_graph_status := None |}.

(** A source that gives up with [e] after three attempts. *)
Definition failing (e : exn) : Env :=
  {| clock_expired := false;
     get_account_transactions :=
       fun _ _ => {| attempts := 3; Etherscan.outcome := Raise e |};
     update_graph_status := None |}.


(** The state in which the traversal ends when the only fetch, the
    hacker's, fails with an upstream error. *)
Definition stranded_state : State :=
  progress_state
    (_recursive_traversal get_processing_limits new_classifier
       [failing (EtherscanError "HTTP 502")] seed_state).

(** The state of that incident once the hacker's two transfers are
    followed and the hacker and the two exchange addresses, which have no
    outgoing transaction, are checked for termination: what the calls of
    [_process_transaction] and [_check_termination_conditions] leave. *)
Definition exchange_state : State :=
  let st :=
    fold_left
      (fun st tx => _process_transaction get_processing_limits st tx "0xhacker" 1)
      (normalize_all exchange_transfers) seed_state in
  let st := _check_termination_conditions new_classifier st "0xhacker" 2 2 in
  let st :=
    _check_termination_conditions new_classifier st
      "0x3f5ce5fbfe3e9af3971dd833d26ba9b5c936f0be" 0 0 in
  _check_termination_conditions new_classifier st
    "0xd551234ae421e3bcba99a0da6d736074f22192ff" 0 0.

(** A controller whose repository holds a running job for [incident-1]. *)
Definition running_world : Jobs.World :=
  {| Jobs.manager := Jobs.new_manager;
     Jobs.repository :=
       {| Jobs.incident_graphs :=
            {[ "incident-1" :=
                 {| Jobs.status := "running";
                    Jobs.progress_percentage := Some 5;
                    Jobs.current_step := Some "initialization";
                    Jobs.error_message := None; Jobs.error_code := None |} ]};
          Jobs.incidents :=
            {[ "incident-1" := {| Repo.wallet_address := "0xVictim" |} ]} |};
     Jobs.slept := [];
     Jobs.created_tasks := [] |}.

(** * Further notions *)

(** The node [_process_transaction] creates for a destination met at
    [depth]: only its depth is set. *)
Definition discovered (depth : Z) : Node.t :=
  {| Node.depth_from_hack := Some (depth + 1); Node.entity_type := None;
     Node.confidence_score := None; Node.transaction_count := None;
     Node.classification_details := None; Node.termination_reason := None;
     Node.manual_exploration_ready := None;
     Node.consolidated_addresses := None; Node.first_seen := None;
     Node.processed := None |}.

(** The frontier entry that goes with it, when it is not too deep. *)
Definition enqueued (limits : Limits) (to_address : string) (depth : Z)
    : list (string * Z) :=
  if depth + 1 <? max_depth limits then [(to_address, depth + 1)] else [].

(** Every node carries a depth, between 0 and [max_depth]. *)
Definition depths_within (limits : Limits) (st : State) : Prop :=
  forall n data,
    DiGraph.node_data (graph st) n = Some data ->
    exists d, Node.depth_from_hack data = Some d /\ 0 <= d <= max_depth limits.

(** No frontier entry has a negative depth. *)
Definition frontier_depths (st : State) : Prop :=
  forall a d, In (a, d) (pending_nodes st) -> 0 <= d.

(** How often [_process_node] has been entered for an address. *)
Definition visits (st : State) (address : string) : Z :=
  default 0 (address_visit_count st !! address).


(** The visit counts are those of the addresses in [seen], once each. *)
Definition counted_once (seen : gset string) (st : State) : Prop :=
  (forall b, b ∈ seen -> address_visit_count st !! b = Some 1)
  /\ (forall b, b ∉ seen -> address_visit_count st !! b = None)
  /\ nodes_processed st = Z.of_nat (size (processed_nodes st)).

(** What can make an iteration raise: the clock has run out; the source
    raises [e], which is not an error of its own kind; the source returns a
    transaction that passes the primary tier, and [e] is what the secondary
    tier raises; or the write of the progress raises [e]. *)
Definition breaks (env : Env) (e : exn) : Prop :=
  (clock_expired env = true /\ e = TimeoutError)
  \/ (exists address start,
        Etherscan.outcome (get_account_transactions env address start) = Raise e
        /\ is_etherscan_error e = false)
  \/ (exists address start txs,
        Etherscan.outcome (get_account_transactions env address start) = Ok txs
        /\ survivors txs address <> []
        /\ (e = ValueError \/ e = OverflowError))
  \/ update_graph_status env = Some e.

(** A source whose clock has run out. *)
Definition expired : Env :=
  {| clock_expired := true;
     get_account_transactions :=
       fun _ _ => {| attempts := 1; Etherscan.outcome := Ok [] |};
     update_graph_status := None |}.

(** A clock that has not run out, a progress write that returns, and a
    source that either answers with transactions none of which passes the
    primary tier or fails with an error of its own kind. *)
Definition well_behaved (env : Env) : Prop :=
  clock_expired env = false
  /\ update_graph_status env = None
  /\ forall address start,
       match Etherscan.outcome (get_account_transactions env address start) with
       | Ok txs => survivors txs address = []
       | Raise e => is_etherscan_error e = true
       end.

(** The traversal of the seed incident when the hacker's address has sent
    the small transfers only: none passes the primary tier, the hacker's is
    the one expansion, and the traversal completes. *)
Definition quiet_state : State :=
  progress_state
    (_recursive_traversal get_processing_limits new_classifier
       [answering small_transfers] seed_state).

(** The hacker's node once that incident is traversed. *)
Definition hacker_node : Node.t :=
  default Node.empty (DiGraph.node_data (graph quiet_state) "0xhacker").


(** A controller that has run no job, with one incident and no graph record. *)
Definition idle_world : Jobs.World :=
  {| Jobs.manager := Jobs.new_manager;
     Jobs.repository :=
       {| Jobs.incident_graphs := ∅;
          Jobs.incidents :=
            {[ "incident-1" := {| Repo.wallet_address := "0xVictim" |} ]} |};
     Jobs.slept := [];
     Jobs.created_tasks := [] |}.

(** The clock readings of a call made at second 10. *)
Definition at_ten : Jobs.Clock :=
  {| Jobs.time_at_check := 10; Jobs.datetime_now := 10; Jobs.time_at_start := 10 |}.

(** Both endpoints of every edge are nodes. *)
Definition closed (g : DiGraph.t) : Prop :=
  forall u v,
    In (u, v) (AList.keys (DiGraph.edges g)) ->
    In u (AList.keys (DiGraph.nodes g)) /\ In v (AList.keys (DiGraph.nodes g)).

(** A graph as NetworkX keeps it: no node is there twice, and the endpoints
    of every edge are nodes. *)
Definition well_formed (g : DiGraph.t) : Prop :=
  List.NoDup (AList.keys (DiGraph.nodes g)) /\ closed g.

(** The same, as a test that can be run. *)
Fixpoint distinct (l : list string) : bool :=
  match l with
  | [] => true
  | x :: l' => (negb (str_in x l') && distinct l')%bool
  end.

Definition well_formedb (g : DiGraph.t) : bool :=
  (distinct (AList.keys (DiGraph.nodes g))
   && forallb
        (fun kv : string * string * Edge.t =>
           (str_in kv.1.1 (AList.keys (DiGraph.nodes g))
            && str_in kv.1.2 (AList.keys (DiGraph.nodes g)))%bool)
        (DiGraph.edges g))%bool.

(** ** [_generate_top_paths] (app/services/graph.py) *)

Module TopPath.

(** One entry of the list [_generate_top_paths] returns; [value_eth] is the
    number its text denotes. *)
Record t : Type := {
  path_id : Z;
  value_eth : float;
  value_percentage : float;
  hop_count : Z;
  final_endpoint_type : string;
  final_endpoint_confidence : float
}.

End TopPath.

(** [self.graph.nodes[n]]: a [KeyError] for an address that is no node. *)
Definition node_of (g : DiGraph.t) (n : string) : result Node.t :=
  match DiGraph.node_data g n with
  | Some node_data => Ok node_data
  | None => Raise (OtherError "KeyError")
  end.

(** The body of the loop over the edges. *)
Definition collect_path (g : DiGraph.t) (paths : list TopPath.t)
    (edge : string * string * Edge.t) : result (list TopPath.t) :=
  let '(from_addr, to_addr, edge_data) := edge in
  let value_eth := default 0%float (Edge.value_eth edge_data) in
  if fgt value_eth 0.1 then
    bind (node_of g from_addr) (fun from_data =>
    let from_type := default "Unknown" (Node.entity_type from_data) in
    bind (node_of g to_addr) (fun to_data =>
    let to_type := default "Unknown" (Node.entity_type to_data) in
    let path :=
      {| TopPath.path_id := Z.of_nat (length paths) + 1;
         TopPath.value_eth := value_eth;
         TopPath.value_percentage :=
           default 0%float (Edge.flow_percentage edge_data);
         TopPath.hop_count := 1;
         TopPath.final_endpoint_type := to_type;
         TopPath.final_endpoint_confidence :=
           default 0%float (Node.confidence_score to_data) |} in
    Ok (paths ++ [path])%list))
  else Ok paths.

Fixpoint collect_paths (g : DiGraph.t) (edges : list (string * string * Edge.t))
    (paths : list TopPath.t) : result (list TopPath.t) :=
  match edges with
  | [] => Ok paths
  | edge :: edges' =>
      bind (collect_path g paths edge) (fun paths => collect_paths g edges' paths)
  end.

(** [paths.sort(key=lambda p: float(p["value_eth"]), reverse=True)]: a
    stable sort, from the highest value to the lowest. *)
Fixpoint insert_by_value (x : TopPath.t) (l : list TopPath.t) : list TopPath.t :=
  match l with
  | [] => [x]
  | y :: l' =>
      if PrimFloat.leb (TopPath.value_eth y) (TopPath.value_eth x)
      then x :: y :: l'
      else y :: insert_by_value x l'
  end.

Definition sort_by_value (l : list TopPath.t) : list TopPath.t :=
  fold_right insert_by_value [] l.

(** [self.graph.edges(data=True)]: NetworkX goes through the nodes in their
    order and, for each node, through its outgoing edges in theirs. *)
Definition edges_view (g : DiGraph.t) : list (string * string * Edge.t) :=
  flat_map
    (fun kv : string * Node.t =>
       List.filter (fun e : string * string * Edge.t => bool_decide (e.1.1 = kv.1))
         (DiGraph.edges g))
    (DiGraph.nodes g).

Definition _generate_top_paths (g : DiGraph.t) : result (list TopPath.t) :=
  bind (collect_paths g (edges_view g) []) (fun paths =>
  Ok (firstn 10 (sort_by_value paths))).

(** The value of [q] is not above that of [p]. *)
Definition outranks (p q : TopPath.t) : Prop :=
  PrimFloat.leb (TopPath.value_eth q) (TopPath.value_eth p) = true.

(** The values of the edges that are above 0.1, in the order the edges
    are gone through. *)
Definition significant_values (g : DiGraph.t) : list float :=
  List.filter (fun v => fgt v 0.1)
    (map (fun kv : string * string * Edge.t =>
            default 0%float (Edge.value_eth kv.2))
       (edges_view g)).

(** The top paths of the exchange incident once it is post-processed. *)
Definition exchange_paths : list TopPath.t :=
  match _generate_top_paths (graph (_optimize_graph exchange_state)) with
  | Ok paths => paths
  | Raise _ => []
  end.

(** The edge from the hacker to the second exchange address in that
    incident: the transfer of 3 units. *)
Definition exchange_edge : Edge.t :=
  default Edge.empty
    (DiGraph.edge_data (graph exchange_state) "0xhacker"
       "0xd551234ae421e3bcba99a0da6d736074f22192ff").

(** ** The Etherscan client (app/services/etherscan.py) *)

Module Client.
Import Etherscan.

(** A JSON object as the source answers: the keys the client reads ([None]:
    the key is missing; [error] holds the [message] of the error object) and
    whether there are other keys. *)
Record Data : Type := {
  status : option string;
  message : option string;
  result : option (list RawTx);
  error : option (option string);
  other_keys : bool
}.

(** What [response.json()] yields: an object, or another JSON value, of
    which the client can only test the truth. *)
Inductive Json : Type :=
| Object (data : Data)
| Value (truthy : bool).

(** How one HTTP exchange goes. *)
Inductive Http : Type :=
| RequestError (msg : string)
| HTTPStatusError (status_code : Z) (text : string)
| Malformed
| Answer (data : Json).

(** [needle in s] *)
Definition contains (needle s : string) : bool :=
  match String.index 0 needle s with
  | Some _ => true
  | None => false
  end.

(** The body of [_make_request]: one attempt.  [client] tells whether the
    HTTP client has been initialized. *)
Definition attempt (client : bool) (http : Http) : Py.result Json :=
  if negb client then Raise (OtherError "RuntimeError")
  else
    match http with
    | RequestError msg => Raise (EtherscanError ("Network error: " ++ msg))
    | HTTPStatusError status_code text =>
        if status_code =? 429
        then Raise (EtherscanRateLimitError "Rate limit exceeded")
        else Raise (EtherscanError
                      ("HTTP " ++ pretty status_code ++ ": " ++ text))
    | Malformed => Raise ValueError
    | Answer (Object data) =>
        if (bool_decide (status data = Some "0")
            && negb (bool_decide (message data = Some "No transactions found")))%bool
        then
          let error_msg := default "Unknown API error" (message data) in
          if contains "rate limit" (lower error_msg)
          then Raise (EtherscanRateLimitError error_msg)
          else Raise (EtherscanError error_msg)
        else
          match error data with
          | Some error_message =>
              Raise (EtherscanError (default "Unknown RPC error" error_message))
          | None => Ok (Object data)
          end
    | Answer (Value truthy) => Ok (Value truthy)
    end.

(** The [@retry] decorator: a failed attempt is repeated when its exception
    is an [EtherscanError], up to three attempts in all; when the third
    fails so, the decorator raises its own [RetryError] (it is not asked to
    re-raise).  [http n] is how the exchange of attempt [n] goes (from 0);
    the attempts made are counted. *)
Fixpoint retry (left : nat) (client : bool) (http : nat -> Http) (n : nat)
    : nat * Py.result Json :=
  match attempt client (http n) with
  | Ok data => (S n, Ok data)
  | Raise e =>
      if is_etherscan_error e then
        match left with
        | O => (S n, Raise (OtherError "RetryError"))
        | S left' => retry left' client http (S n)
        end
      else (S n, Raise e)
  end.

Definition _make_request (client : bool) (http : nat -> Http)
    : nat * Py.result Json :=
  retry 2 client http 0.

(** A cache entry; times are in microseconds. *)
Record Entry : Type := {
  data : Json;
  timestamp : option Z
}.

Record EtherscanService : Type := {
  client : bool;
  cache : gmap string Entry;
  cache_ttl : Z
}.

Definition set_cache (s : EtherscanService) (c : gmap string Entry)
    : EtherscanService :=
  {| client := client s; cache := c; cache_ttl := cache_ttl s |}.

(** [sorted(params.items())]: the keys of a dictionary are distinct, so the
    items are ordered by key. *)
Fixpoint insert_param (p : string * string) (l : list (string * string))
    : list (string * string) :=
  match l with
  | [] => [p]
  | q :: l' =>
      if String.leb p.1 q.1 then p :: q :: l' else q :: insert_param p l'
  end.

Definition sorted_params (params : list (string * string))
    : list (string * string) :=
  fold_right insert_param [] params.

Definition _get_cache_key (endpoint : string) (params : list (string * string))
    : string :=
  let param_str :=
    String.concat "&"
      (map (fun kv : string * string => kv.1 ++ "=" ++ kv.2)
         (List.filter (fun kv : string * string => negb (String.eqb kv.1 "apikey"))
            (sorted_params params))) in
  endpoint ++ ":" ++ param_str.

(** [now] is what [datetime.now()] reads. *)
Definition _is_cache_valid (s : EtherscanService) (now : Z) (cache_entry : Entry)
    : bool :=
  match timestamp cache_entry with
  | None => false
  | Some cache_time => now - cache_time <? cache_ttl s * 1000000
  end.

Definition _cache_response (s : EtherscanService) (now : Z) (cache_key : string)
    (response : Json) : EtherscanService :=
  set_cache s
    (<[cache_key := {| data := response; timestamp := Some now |}]> (cache s)).

Definition _get_cached_response (s : EtherscanService) (now : Z)
    (cache_key : string) : option Json * EtherscanService :=
  match cache s !! cache_key with
  | Some entry =>
      if _is_cache_valid s now entry then (Some (data entry), s)
      else (None, set_cache s (delete cache_key (cache s)))
  | None => (None, s)
  end.

(** Truth of a JSON value: an object is true when it has a key. *)
Definition json_truthy (j : Json) : bool :=
  match j with
  | Object d =>
      (bool_decide (status d <> None) || bool_decide (message d <> None)
       || bool_decide (result d <> None) || bool_decide (error d <> None)
       || other_keys d)%bool
  | Value truthy => truthy
  end.

(** [response.get("result", [])]; only an object has a [get]. *)
Definition get_result (j : Json) : Py.result (list RawTx) :=
  match j with
  | Object d => Ok (default [] (result d))
  | Value _ => Raise (OtherError "AttributeError")
  end.

(** The parameters of a [txlist] request, in the order the dictionary is
    written. *)
Definition txlist_params (address : string) (start_block end_block page offset : Z)
    (sort : string) : list (string * string) :=
  [ ("module", "account"); ("action", "txlist"); ("address", address);
    ("startblock", pretty start_block); ("endblock", pretty end_block);
    ("page", pretty page); ("offset", pretty offset); ("sort", sort) ].

(** [get_account_transactions]; [now_lookup] and [now_store] are the clock
    readings of the cache lookup and of the store. *)
Definition get_account_transactions (s : EtherscanService)
    (now_lookup now_store : Z) (http : nat -> Http)
    (address : string) (start_block end_block page offset : Z) (sort : string)
    : FetchOutcome * EtherscanService :=
  let params := txlist_params address start_block end_block page offset sort in
  let cache_key := _get_cache_key "account_txlist" params in
  let '(cached_response, s) := _get_cached_response s now_lookup cache_key in
  match cached_response with
  | Some cached =>
      if json_truthy cached
      then ({| attempts := 0; outcome := get_result cached |}, s)
      else
        let '(n, r) := _make_request (client s) http in
        match r with
        | Ok response =>
            ({| attempts := n; outcome := get_result response |},
             _cache_response s now_store cache_key response)
        | Raise e => ({| attempts := n; outcome := Raise e |}, s)
        end
  | None =>
      let '(n, r) := _make_request (client s) http in
      match r with
      | Ok response =>
          ({| attempts := n; outcome := get_result response |},
           _cache_response s now_store cache_key response)
      | Raise e => ({| attempts := n; outcome := Raise e |}, s)
      end
  end.

(** The call [_process_node] makes: [end_block] and [page] at their
    defaults, 50 transactions, oldest first. *)
Definition fetch_for_node (s : EtherscanService) (now_lookup now_store : Z)
    (http : nat -> Http) (address : string) (start_block : Z)
    : FetchOutcome * EtherscanService :=
  get_account_transactions s now_lookup now_store http address start_block
    99999999 1 50 "asc".

End Client.

(** A service with an initialized client, an empty cache and the
    configured lifetime of 600 seconds. *)
Definition fresh_client : Client.EtherscanService :=
  {| Client.client := true; Client.cache := ∅; Client.cache_ttl := 600 |}.

(** A source that is unreachable at every attempt. *)
Definition unreachable : nat -> Client.Http :=
  fun _ => Client.HTTPStatusError 502 "Bad Gateway".

(** The surroundings of an iteration whose fetch is served by the client
    [s] over the exchanges [http]: the clock has not run out and the
    progress is written. *)
Definition served_by (s : Client.EtherscanService) (now_lookup now_store : Z)
    (http : nat -> Client.Http) : Env :=
  {| clock_expired := false;
     get_account_transactions :=
       fun address start =>
         (Client.fetch_for_node s now_lookup now_store http address start).1;
     update_graph_status := None |}.

(** The cache key of the request [_process_node] makes for an address. *)
Definition node_request_key (address : string) (start : Z) : string :=
  Client._get_cache_key "account_txlist"
    (Client.txlist_params address start 99999999 1 50 "asc").

(** A source that answers the exchange transfers at once. *)
Definition reachable : nat -> Client.Http :=
  fun _ =>
    Client.Answer
      (Client.Object
         {| Client.status := Some "1"; Client.message := Some "OK";
            Client.result := Some exchange_transfers; Client.error := None;
            Client.other_keys := false |}).

(** Every edge leaves the victim or an address whose expansion was started,
    and a node whose expansion was not started carries no termination
    reason and no kind among CEX, DEX and Mixer. *)
Definition unexpanded_are_bare (victim : string) (st : State) : Prop :=
  (forall u v,
     In (u, v) (AList.keys (DiGraph.edges (graph st))) ->
     u = victim \/ is_Some (address_visit_count st !! u))
  /\ (forall n node_data,
        DiGraph.node_data (graph st) n = Some node_data ->
        address_visit_count st !! n = None ->
        Node.termination_reason node_data = None
        /\ (Node.entity_type node_data = None
            \/ Node.entity_type node_data = Some "victim_wallet"
            \/ Node.entity_type node_data = Some "hacker_wallet")).



(** * Properties *)

(** ** The classifier *)

Lemma lower_ascii_idempotent (c : ascii) : lower_ascii (lower_ascii c) = lower_ascii c.
Proof.
  destruct c as [[] [] [] [] [] [] [] []]; reflexivity.
Qed.

Lemma lower_idempotent (s : string) : lower (lower s) = lower s.
Proof.
  induction s as [|c s IH]; simpl; [reflexivity|].
  now rewrite lower_ascii_idempotent, IH.
Qed.

Lemma directory_table_lowercase k e :
  In (k, e) directory_table -> lower k = k.
Proof.
  unfold directory_table. simpl.
  intros H.
  repeat (destruct H as [H|H]; [inversion H; subst; reflexivity|]).
  destruct H.
Qed.

Lemma directory_keys_lowercase c :
  directory_built c ->
  forall k e, known_addresses c !! k = Some e -> lower k = k.
Proof.
  induction 1 as [|c a et cf nm Hc IH]; intros k e Hk.
  - change ((list_to_map directory_table : gmap string _) !! k = Some e) in Hk.
    apply elem_of_list_to_map_2 in Hk.
    apply list_elem_of_In in Hk. eapply directory_table_lowercase; eauto.
  - simpl in Hk. destruct (decide (lower a = k)) as [<-|Hne].
    + apply lower_idempotent.
    + rewrite lookup_insert_ne in Hk by assumption. eauto.
Qed.

Lemma classify_address_lookup c address tc d t entity_type confidence name :
  known_addresses c !! lower address = Some (entity_type, confidence, name) ->
  classify_address c address tc d t = (entity_type, confidence, Some name).
Proof.
  intros H. unfold classify_address. now rewrite H.
Qed.

(** C9.  For every address present in the known-address directory (the
    startup table, possibly extended by [add_known_address]),
    [classify_address] returns exactly the directory's entity kind,
    confidence and friendly name, whatever the supplied [transaction_count],
    [daily_tx_count] and [times_seen_in_graph]: the directory lookup is the
    first rule and the first match wins. *)
Theorem classify_directory_precedence
    (c : AddressClassifier) (address entity_type name : string)
    (confidence : float) (transaction_count daily_tx_count times_seen : Z) :
  directory_built c ->
  known_addresses c !! address = Some (entity_type, confidence, name) ->
  classify_address c address transaction_count daily_tx_count times_seen
  = (entity_type, confidence, Some name).
Proof.
  intros Hc Hk.
  apply classify_address_lookup.
  now rewrite (directory_keys_lowercase c Hc _ _ Hk).
Qed.

Lemma classify_directory_precedence_witness :
  classify_address new_classifier "0x3f5ce5fbfe3e9af3971dd833d26ba9b5c936f0be"
    20000 900 7
  = ("CEX", 95%float, Some "Binance").
Proof.
  apply (classify_directory_precedence new_classifier
           "0x3f5ce5fbfe3e9af3971dd833d26ba9b5c936f0be" "CEX" "Binance"
           95%float 20000 900 7).
  - exact built_new.
  - vm_compute. reflexivity.
Defined.

(** ** The job controller *)

(** C10.  If the persisted status of the incident's graph record is
    [pending] or [running], [start_job] returns the conflict response with
    error code [ALREADY_PROCESSING] naming the existing job (job ids are
    incident ids), and changes nothing: no task is created, no job
    registered, no record written. *)
Theorem start_job_single_flight
    (clock : Jobs.Clock) (w : Jobs.World) (incident_id : string)
    (options : option (gmap string Z)) (row : Jobs.GraphRow) :
  Jobs.get_graph_status (Jobs.repository w) incident_id = Some row ->
  Jobs.status row = "pending" \/ Jobs.status row = "running" ->
  let '(response, w') := Jobs.start_job clock w incident_id options in
  response
  = Jobs.Conflict "ALREADY_PROCESSING"
      "Graph processing already in progress for this incident" incident_id
  /\ Jobs.response_status response = "conflict"
  /\ Jobs.created_tasks w' = Jobs.created_tasks w
  /\ Jobs.job_tasks (Jobs.manager w') = Jobs.job_tasks (Jobs.manager w)
  /\ w' = w.
Proof.
  intros Hrow Hst. unfold Jobs.start_job. rewrite Hrow.
  assert (str_in (Jobs.status row) ["pending"; "running"] = true) as ->.
  { destruct Hst as [-> | ->]; reflexivity. }
  repeat split; reflexivity.
Qed.

Lemma start_job_single_flight_witness :
  let '(response, w') :=
    Jobs.start_job
      {| Jobs.time_at_check := 10; Jobs.datetime_now := 10;
         Jobs.time_at_start := 10 |}
      running_world "incident-1" None in
  response
  = Jobs.Conflict "ALREADY_PROCESSING"
      "Graph processing already in progress for this incident" "incident-1"
  /\ Jobs.response_status response = "conflict"
  /\ Jobs.created_tasks w' = Jobs.created_tasks running_world
  /\ Jobs.job_tasks (Jobs.manager w') = Jobs.job_tasks (Jobs.manager running_world)
  /\ w' = running_world.
Proof.
  apply (start_job_single_flight
           {| Jobs.time_at_check := 10; Jobs.datetime_now := 10;
              Jobs.time_at_start := 10 |}
           running_world "incident-1" None
           {| Jobs.status := "running";
              Jobs.progress_percentage := Some 5;
              Jobs.current_step := Some "initialization";
              Jobs.error_message := None; Jobs.error_code := None |}).
  - vm_compute. reflexivity.
  - right. reflexivity.
Defined.

(** ** The filter pipeline: scoring *)

Lemma value_base_cases v :
  value_base v = 50 \/ value_base v = 30 \/ value_base v = 20 \/ value_base v = 10.
Proof.
  unfold value_base.
  destruct (fgt v 10); [tauto|].
  destruct (fgt v 1); [tauto|].
  destruct (fgt v 0.1); tauto.
Qed.

Lemma _calculate_priority_score_sum tx v s :
  _calculate_priority_score tx v = Ok s ->
  exists round,
    round_amount v = Ok round
    /\ s = value_base v + round_bonus round + gas_bonus tx.
Proof.
  unfold _calculate_priority_score, round_amount.
  destruct (is_whole v) as [whole|e]; simpl; [|discriminate].
  destruct (if whole then Ok true else is_whole (PrimFloat.mul v 1000))
    as [round|e] eqn:Hr; simpl; [|discriminate].
  intros [= <-]. exists round. split; [reflexivity|].
  assert (Hgas :
    match Tx.gas_price tx with
    | Some g => if (negb (g =? 0) && (20000000000 <? g))%bool then 15 else 0
    | None => 0
    end = gas_bonus tx).
  { unfold gas_bonus. destruct (Tx.gas_price tx) as [g|]; [|reflexivity].
    destruct (Z.eqb_spec g 0) as [->|]; simpl; reflexivity. }
  pose proof (value_base_cases v) as Hb.
  unfold value_base in *. unfold round_bonus. rewrite <- Hgas.
  destruct (fgt v 10); [|destruct (fgt v 1); [|destruct (fgt v 0.1)]];
    destruct round; destruct (Tx.gas_price tx) as [g|];
    try destruct (negb (g =? 0) && (20000000000 <? g))%bool; simpl; lia.
Qed.

Lemma secondary_priority_sum st tx p :
  secondary_priority st tx = Ok p ->
  exists round,
    round_amount (value_eth_of tx) = Ok round
    /\ p = value_base (value_eth_of tx) + round_bonus round
           + gas_bonus tx + reuse_bonus st tx.
Proof.
  unfold secondary_priority.
  destruct (_calculate_priority_score tx (value_eth_of tx)) as [s|e] eqn:Hs;
    simpl; [|discriminate].
  apply _calculate_priority_score_sum in Hs as (round & Hround & ->).
  intros [= <-]. exists round. split; [exact Hround|].
  unfold reuse_bonus, reuse_threshold.
  destruct (3 <=? _); lia.
Qed.

Lemma priority_sum_bounds v round tx st :
  10 <= value_base v + round_bonus round + gas_bonus tx + reuse_bonus st tx <= 95.
Proof.
  pose proof (value_base_cases v).
  unfold round_bonus, gas_bonus, reuse_bonus.
  destruct round; destruct (Tx.gas_price tx) as [g|];
    try destruct (20000000000 <? g); destruct (3 <=? _); lia.
Qed.

(** C4.  The score the secondary tier computes for a transaction lies in
    [0, 100]: it is the sum of the value-bucket base (50/30/20/10), the +10
    round-amount bonus, the +15 bonus for a gas price above 20 gwei and the
    +20 bonus for a destination visited at least 3 times, capped at 100 (the
    sum never exceeds 95, so the cap never cuts). *)
Theorem priority_score_in_range (st : State) (tx : Tx.t) (p : Z) :
  secondary_priority st tx = Ok p ->
  exists round,
    round_amount (value_eth_of tx) = Ok round
    /\ p = Z.min 100 (value_base (value_eth_of tx) + round_bonus round
                      + gas_bonus tx + reuse_bonus st tx)
    /\ 0 <= p <= 100.
Proof.
  intros Hp. apply secondary_priority_sum in Hp as (round & Hround & ->).
  exists round. split; [exact Hround|].
  pose proof (priority_sum_bounds (value_eth_of tx) round tx st) as Hb.
  split; lia.
Qed.

Lemma priority_score_in_range_witness :
  exists round,
    round_amount (value_eth_of sixty_units) = Ok round
    /\ 75 = Z.min 100 (value_base (value_eth_of sixty_units) + round_bonus round
                       + gas_bonus sixty_units + reuse_bonus seed_state sixty_units)
    /\ 0 <= 75 <= 100.
Proof.
  apply (priority_score_in_range seed_state sixty_units 75).
  vm_compute. reflexivity.
Defined.

(** ** Insertion-ordered dictionaries *)

Section AListFacts.
Context {K V : Type} `{EqDecision K}.
Implicit Types (k : K) (l : list (K * V)).

Lemma get_None_keys k l : AList.get k l = None <-> ~ In k (AList.keys l).
Proof.
  induction l as [|[k' v] l IH]; simpl; [tauto|].
  destruct (decide (k = k')) as [->|Hne].
  - split; [discriminate|]. intros Hn. exfalso. apply Hn. now left.
  - rewrite IH. split.
    + intros Hn [Heq|Hin]; [congruence|tauto].
    + tauto.
Qed.

Lemma get_Some_In k v l : AList.get k l = Some v -> In (k, v) l.
Proof.
  induction l as [|[k' v'] l IH]; simpl; [discriminate|].
  destruct (decide (k = k')) as [->|Hne].
  - intros [= ->]. now left.
  - auto.
Qed.

Lemma In_get_NoDup k v l :
  List.NoDup (AList.keys l) -> In (k, v) l -> AList.get k l = Some v.
Proof.
  induction l as [|[k' v'] l IH]; simpl; [tauto|].
  intros Hnd [Heq|Hin].
  - injection Heq as -> ->. now rewrite decide_True.
  - apply List.NoDup_cons_iff in Hnd as [Hk Hnd].
    destruct (decide (k = k')) as [->|Hne]; [|auto].
    exfalso. apply Hk. apply (in_map fst) in Hin. exact Hin.
Qed.

Lemma mem_true_iff k l : AList.mem k l = true <-> In k (AList.keys l).
Proof.
  unfold AList.mem. pose proof (get_None_keys k l) as Hn.
  destruct (AList.get k l) as [v|] eqn:Hg.
  - split; [|reflexivity]. intros _.
    apply get_Some_In in Hg. apply (in_map fst) in Hg. exact Hg.
  - split; [discriminate|]. intros Hin. now apply Hn in Hin.
Qed.

Lemma get_upsert_eq k f l : AList.get k (AList.upsert k f l) = Some (f (AList.get k l)).
Proof.
  induction l as [|[k' v] l IH]; simpl.
  - now rewrite decide_True.
  - destruct (decide (k = k')) as [->|Hne]; simpl.
    + now rewrite decide_True.
    + now rewrite decide_False.
Qed.

Lemma get_upsert_ne k k' f l :
  k <> k' -> AList.get k' (AList.upsert k f l) = AList.get k' l.
Proof.
  intros Hne. induction l as [|[k0 v] l IH]; simpl.
  - rewrite decide_False; congruence.
  - destruct (decide (k = k0)) as [->|Hne0]; simpl.
    + rewrite !decide_False by congruence. reflexivity.
    + now rewrite IH.
Qed.

Lemma keys_upsert k f l :
  AList.keys (AList.upsert k f l)
  = if AList.mem k l then AList.keys l else (AList.keys l ++ [k])%list.
Proof.
  unfold AList.mem. induction l as [|[k' v] l IH]; simpl; [reflexivity|].
  destruct (decide (k = k')) as [->|Hne]; simpl; [reflexivity|].
  rewrite IH. now destruct (AList.get k l).
Qed.

Lemma upsert_unchanged k f l v :
  AList.get k l = Some v -> f (Some v) = v -> AList.upsert k f l = l.
Proof.
  intros Hg Hf. induction l as [|[k' v'] l IH]; simpl in *; [discriminate|].
  destruct (decide (k = k')) as [->|Hne].
  - injection Hg as ->. now rewrite Hf.
  - now rewrite IH.
Qed.

Lemma NoDup_keys_upsert k f l :
  List.NoDup (AList.keys l) -> List.NoDup (AList.keys (AList.upsert k f l)).
Proof.
  intros Hnd. rewrite keys_upsert.
  destruct (AList.mem k l) eqn:Hm; [assumption|].
  apply List.NoDup_app; [assumption| |].
  - apply List.NoDup_cons; [intros []|apply List.NoDup_nil].
  - intros x Hx [<-|[]]. apply mem_true_iff in Hx. congruence.
Qed.

Lemma keys_alter k (f : V -> V) l : AList.keys (AList.alter k f l) = AList.keys l.
Proof.
  induction l as [|[k' v] l IH]; simpl; [reflexivity|].
  destruct (decide (k = k')); simpl; [reflexivity|now rewrite IH].
Qed.

Lemma get_alter k k' (f : V -> V) l :
  AList.get k' (AList.alter k f l)
  = if decide (k = k') then f <$> AList.get k' l else AList.get k' l.
Proof.
  induction l as [|[k0 v] l IH]; simpl.
  - now destruct (decide (k = k')).
  - destruct (decide (k = k0)) as [->|Hne]; simpl.
    + destruct (decide (k' = k0)) as [->|Hne'].
      * now rewrite decide_True.
      * rewrite decide_False by congruence. reflexivity.
    + destruct (decide (k' = k0)) as [->|Hne'].
      * rewrite decide_False by congruence. reflexivity.
      * exact IH.
Qed.

Lemma mem_upsert k k' f l :
  AList.mem k' (AList.upsert k f l) = (bool_decide (k = k') || AList.mem k' l)%bool.
Proof.
  unfold AList.mem. destruct (decide (k = k')) as [->|Hne].
  - rewrite get_upsert_eq. now rewrite bool_decide_true.
  - rewrite get_upsert_ne by assumption. now rewrite bool_decide_false.
Qed.

Lemma mem_alter k k' (f : V -> V) l :
  AList.mem k' (AList.alter k f l) = AList.mem k' l.
Proof.
  unfold AList.mem. rewrite get_alter.
  destruct (decide (k = k')); [|reflexivity].
  now destruct (AList.get k' l).
Qed.

End AListFacts.

(** ** The graph *)

Lemma has_node_add_node g n attr n' :
  DiGraph.has_node (DiGraph.add_node g n attr) n'
  = (bool_decide (n = n') || DiGraph.has_node g n')%bool.
Proof. unfold DiGraph.has_node, DiGraph.add_node. simpl. apply mem_upsert. Qed.

Lemma has_node_add_edge g u v attr n' :
  DiGraph.has_node (DiGraph.add_edge g u v attr) n'
  = (bool_decide (v = n') || (bool_decide (u = n') || DiGraph.has_node g n'))%bool.
Proof.
  unfold DiGraph.has_node, DiGraph.add_edge. simpl.
  now rewrite !mem_upsert.
Qed.

Lemma has_node_update_node g n attr n' :
  DiGraph.has_node (DiGraph.update_node g n attr) n' = DiGraph.has_node g n'.
Proof. unfold DiGraph.has_node, DiGraph.update_node. simpl. apply mem_alter. Qed.

Lemma node_data_update_node g n attr :
  DiGraph.node_data (DiGraph.update_node g n attr) n
  = Node.update attr <$> DiGraph.node_data g n.
Proof.
  unfold DiGraph.node_data, DiGraph.update_node. simpl.
  rewrite get_alter. now rewrite decide_True.
Qed.

Lemma has_node_node_data g n :
  DiGraph.has_node g n = true -> exists d, DiGraph.node_data g n = Some d.
Proof.
  unfold DiGraph.has_node, DiGraph.node_data, AList.mem.
  destruct (AList.get n (DiGraph.nodes g)) as [d|]; [eauto|discriminate].
Qed.

Lemma NoDup_edges_add_edge g u v attr :
  List.NoDup (AList.keys (DiGraph.edges g)) ->
  List.NoDup (AList.keys (DiGraph.edges (DiGraph.add_edge g u v attr))).
Proof. intros H. unfold DiGraph.add_edge. simpl. now apply NoDup_keys_upsert. Qed.

(** ** The traversal: what every step keeps *)

Lemma advances_refl st : advances 0 st st.
Proof. split; [auto|lia]. Qed.

Lemma advances_trans j k st1 st2 st3 :
  advances j st1 st2 -> advances k st2 st3 -> advances (j + k) st1 st3.
Proof. intros [H1 A1] [H2 A2]. split; [auto|lia]. Qed.

Lemma _process_transaction_keeps limits st tx from_address depth :
  engine_inv st ->
  engine_inv (_process_transaction limits st tx from_address depth)
  /\ advances 0 st (_process_transaction limits st tx from_address depth).
Proof.
  intros [Hp Hn]. unfold _process_transaction.
  destruct (DiGraph.has_node (graph st) (lower (Tx.to_address tx))
            && _)%bool eqn:Hskip.
  { split; [split; assumption|apply advances_refl]. }
  clear Hskip.
  destruct (negb (DiGraph.has_node (graph st) (lower (Tx.to_address tx)))) eqn:Hnew;
    [destruct (depth + 1 <? max_depth limits)|]; simpl;
    unfold engine_inv, advances, _add_graph_edge, _add_graph_node; simpl;
    (split; [split|split; [|lia]]);
    try (apply NoDup_edges_add_edge; simpl; assumption);
    intros; rewrite ?has_node_add_edge, ?has_node_add_node;
    repeat match goal with
      | H : In _ (_ ++ _)%list |- _ => apply in_app_or in H as [H|H]
      | H : In _ [_] |- _ => destruct H as [H|[]]; injection H as <- <-
      end;
    rewrite ?bool_decide_true by reflexivity;
    rewrite ?orb_true_r; try reflexivity;
    try (erewrite Hp by eassumption; rewrite ?orb_true_r; reflexivity);
    try (match goal with H : DiGraph.has_node _ _ = true |- _ => rewrite H end;
         rewrite ?orb_true_r; reflexivity).
Qed.

Lemma process_transactions_keep limits from_address depth txs st :
  engine_inv st ->
  let st' :=
    fold_left (fun st tx => _process_transaction limits st tx from_address depth)
      txs st in
  engine_inv st' /\ advances 0 st st'.
Proof.
  revert st. induction txs as [|tx txs IH]; simpl; intros st Hinv.
  - split; [assumption|apply advances_refl].
  - destruct (_process_transaction_keeps limits st tx from_address depth Hinv)
      as [Hinv1 Hadv1].
    destruct (IH _ Hinv1) as [Hinv2 Hadv2].
    split; [assumption|]. exact (advances_trans 0 0 _ _ _ Hadv1 Hadv2).
Qed.

(** With the cumulative value percentage at its default, the termination
    test always says yes, for one of its first three reasons. *)
Lemma should_terminate_by_default address entity_type confidence tc out :
  exists reason,
    should_terminate_exploration address entity_type confidence tc out
      default_cumulative_value_percentage = (true, reason)
    /\ In reason ["high_confidence_classification"; "high_transaction_volume";
                  "insufficient_value_flow"].
Proof.
  unfold should_terminate_exploration.
  destruct (fgt confidence 70.0 && str_in entity_type ["CEX"; "DEX"; "Mixer"])%bool.
  { eexists. split; [reflexivity|]. simpl. tauto. }
  destruct (200 <? out).
  { eexists. split; [reflexivity|]. simpl. tauto. }
  assert (flt default_cumulative_value_percentage 5.0 = true) as -> by reflexivity.
  eexists. split; [reflexivity|]. simpl. tauto.
Qed.

Lemma filter_pending_In address (a : string) (d : Z) l :
  In (a, d) (List.filter (fun p : string * Z => negb (bool_decide (p.1 = address))) l) ->
  In (a, d) l /\ a <> address.
Proof.
  rewrite filter_In. simpl. intros [Hin Hne]. split; [assumption|].
  intros ->. now rewrite bool_decide_true in Hne.
Qed.

Lemma _check_termination_conditions_keeps classifier st address total filtered :
  engine_inv st ->
  let st' := _check_termination_conditions classifier st address total filtered in
  engine_inv st' /\ advances 0 st st'
  /\ ~ In address (map fst (pending_nodes st'))
  /\ (DiGraph.has_node (graph st) address = true ->
      exists node_data reason,
        DiGraph.node_data (graph st') address = Some node_data
        /\ Node.termination_reason node_data = Some reason
        /\ In reason ["high_confidence_classification"; "high_transaction_volume";
                      "insufficient_value_flow"]).
Proof.
  intros [Hp Hn]. unfold _check_termination_conditions, visit_count_read.
  set (seen := address_visit_count st !! address).
  destruct seen as [n|];
    (destruct (classify_address classifier address total default_daily_tx_count _)
       as [[entity_type confidence] details];
     destruct (should_terminate_by_default address entity_type confidence total filtered)
       as (reason & -> & Hreason);
     simpl;
     destruct (DiGraph.has_node (graph st) address) eqn:Hnode; simpl;
     rewrite ?has_node_update_node, ?Hnode; simpl;
     (split; [split|split; [split|split]]); simpl;
     try assumption; try lia;
     try (intros a d Hin; apply filter_pending_In in Hin as [Hin _];
          rewrite ?has_node_update_node; eauto);
     try (intros a Ha; rewrite ?has_node_update_node; exact Ha);
     try (intros Hin; apply in_map_iff in Hin as ([a d] & Ha & Hin);
          simpl in Ha; subst a; apply filter_pending_In in Hin as [_ Hne];
          now apply Hne);
     try discriminate).
  all: intros _; rewrite !node_data_update_node;
    destruct (has_node_node_data _ _ Hnode) as (d0 & ->); simpl;
    eexists; exists reason; split; [reflexivity|]; split; [reflexivity|assumption].
Qed.

Lemma is_whole_raises_cases x e :
  is_whole x = Raise e -> e = ValueError \/ e = OverflowError.
Proof.
  unfold is_whole, int_of_float.
  destruct (Prim2SF x); simpl; try discriminate; intros [= <-]; auto.
Qed.

Lemma _calculate_priority_score_raises_cases tx v e :
  _calculate_priority_score tx v = Raise e -> e = ValueError \/ e = OverflowError.
Proof.
  unfold _calculate_priority_score.
  destruct (is_whole v) as [whole|e0] eqn:Hw; simpl.
  - destruct whole; simpl; [discriminate|].
    destruct (is_whole (PrimFloat.mul v 1000)) as [round|e1] eqn:Hr; simpl;
      [discriminate|].
    intros [= <-]. eapply is_whole_raises_cases; eauto.
  - intros [= <-]. eapply is_whole_raises_cases; eauto.
Qed.

Lemma is_whole_returns x : finiteb x = true -> exists b, is_whole x = Ok b.
Proof.
  unfold finiteb, is_whole, int_of_float.
  destruct (Prim2SF x); try discriminate; intros _; simpl; eauto.
Qed.

Lemma _calculate_priority_score_returns tx :
  amount_is_finite tx = true ->
  exists s, _calculate_priority_score tx (value_eth_of tx) = Ok s.
Proof.
  unfold amount_is_finite. intros H. apply andb_true_iff in H as [H1 H2].
  destruct (is_whole_returns _ H1) as [b1 Hb1].
  destruct (is_whole_returns _ H2) as [b2 Hb2].
  unfold _calculate_priority_score. rewrite Hb1. simpl.
  destruct b1; simpl; [eauto|]. rewrite Hb2. simpl. eauto.
Qed.

Lemma secondary_priority_returns st tx :
  amount_is_finite tx = true -> exists p, secondary_priority st tx = Ok p.
Proof.
  intros H. destruct (_calculate_priority_score_returns tx H) as [s Hs].
  unfold secondary_priority. rewrite Hs. simpl. eauto.
Qed.

(** The secondary tier never gets past its first transaction: the score is
    computed, unless [int] raises on the amount, and the assignment that
    would store it raises. *)
Lemma secondary_score_raises st tx :
  exists e,
    secondary_score st tx = Raise e
    /\ (e = ValueError \/ e = OverflowError)
    /\ (amount_is_finite tx = true -> e = ValueError).
Proof.
  unfold secondary_score, secondary_priority.
  destruct (_calculate_priority_score tx (value_eth_of tx)) as [s|e] eqn:Hs; simpl.
  - exists ValueError. auto.
  - exists e. split; [reflexivity|]. split.
    + eapply _calculate_priority_score_raises_cases; eauto.
    + intros H. destruct (_calculate_priority_score_returns tx H) as [s Hs'].
      congruence.
Qed.

Lemma secondary_tier_cases st l :
  match l with
  | [] => secondary_tier st l = Ok []
  | tx :: _ =>
      exists e,
        secondary_tier st l = Raise e
        /\ (e = ValueError \/ e = OverflowError)
        /\ (amount_is_finite tx = true -> e = ValueError)
  end.
Proof.
  destruct l as [|tx l]; simpl; [reflexivity|].
  destruct (secondary_score_raises st tx) as (e & -> & He). exists e. now split.
Qed.

(** The filter pipeline returns only the empty list: a transaction that
    passes the primary tier makes the secondary tier raise. *)
Lemma _apply_filtering_pipeline_cases st txs address depth :
  match survivors txs address with
  | [] => _apply_filtering_pipeline st txs address depth = Ok []
  | tx :: _ =>
      exists e,
        _apply_filtering_pipeline st txs address depth = Raise e
        /\ (e = ValueError \/ e = OverflowError)
        /\ (amount_is_finite tx = true -> e = ValueError)
  end.
Proof.
  unfold _apply_filtering_pipeline, survivors.
  destruct txs as [|raw1 raws]; [reflexivity|].
  pose proof (secondary_tier_cases st
                (List.filter (primary_keep (_get_total_stolen_amount st) address)
                   (normalize_all (raw1 :: raws)))) as H.
  destruct (List.filter _ _) as [|tx l].
  - now rewrite H.
  - destruct H as (e & -> & He). exists e. now split.
Qed.

Lemma _apply_filtering_pipeline_returns_nil st txs address depth filtered :
  _apply_filtering_pipeline st txs address depth = Ok filtered ->
  filtered = [] /\ survivors txs address = [].
Proof.
  intros H. pose proof (_apply_filtering_pipeline_cases st txs address depth) as Hc.
  destruct (survivors txs address) as [|tx l].
  - split; [congruence|reflexivity].
  - destruct Hc as (e & He & _). congruence.
Qed.

Lemma _apply_filtering_pipeline_raises st txs address depth e :
  _apply_filtering_pipeline st txs address depth = Raise e ->
  is_etherscan_error e = false.
Proof.
  intros H. pose proof (_apply_filtering_pipeline_cases st txs address depth) as Hc.
  destruct (survivors txs address) as [|tx l]; [congruence|].
  destruct Hc as (e' & He & [->| ->] & _); rewrite H in He;
    injection He as ->; reflexivity.
Qed.

Lemma _process_node_failed limits classifier fetch st address depth e :
  Etherscan.outcome (fetch address (start_block (graph st) address)) = Raise e ->
  _process_node limits classifier fetch st address depth
  = except_etherscan e (visited st address).
Proof. intros H. unfold _process_node. simpl. now rewrite H. Qed.

Lemma _process_node_fetched limits classifier fetch st address depth txs :
  Etherscan.outcome (fetch address (start_block (graph st) address)) = Ok txs ->
  _process_node limits classifier fetch st address depth
  = let st1 := set_api_calls_used (visited st address) (api_calls_used st + 1) in
    match _apply_filtering_pipeline st1 txs address depth with
    | Raise e => Raised e st1
    | Ok filtered =>
        Done
          (_check_termination_conditions classifier
             (fold_left
                (fun st tx => _process_transaction limits st tx address depth)
                (slice_to (max_transactions_per_node limits) filtered) st1)
             address (Z.of_nat (length txs)) (Z.of_nat (length filtered)))
    end.
Proof.
  intros H. unfold _process_node. simpl. rewrite H. simpl.
  destruct (_apply_filtering_pipeline _ txs address depth) as [filtered|e] eqn:Hp;
    [reflexivity|].
  unfold except_etherscan.
  now rewrite (_apply_filtering_pipeline_raises _ _ _ _ _ Hp).
Qed.

Lemma _process_node_keeps limits classifier fetch st address depth :
  engine_inv st ->
  let st' := state_of (_process_node limits classifier fetch st address depth) in
  engine_inv st' /\ (advances 0 st st' \/ advances 1 st st').
Proof.
  intros Hinv.
  destruct (Etherscan.outcome (fetch address (start_block (graph st) address)))
    as [txs|e] eqn:Hf.
  - rewrite (_process_node_fetched _ _ _ _ _ _ _ Hf). simpl.
    set (st1 := set_api_calls_used (visited st address) (api_calls_used st + 1)).
    assert (Hinv1 : engine_inv st1) by exact Hinv.
    assert (Hadv1 : advances 1 st st1) by (split; [auto|reflexivity]).
    destruct (_apply_filtering_pipeline st1 txs address depth) as [filtered|e]; simpl.
    + destruct (process_transactions_keep limits address depth
                  (slice_to (max_transactions_per_node limits) filtered) st1 Hinv1)
        as [Hinv2 Hadv2].
      destruct (_check_termination_conditions_keeps classifier _ address
                  (Z.of_nat (length txs)) (Z.of_nat (length filtered)) Hinv2)
        as (Hinv3 & Hadv3 & _).
      split; [assumption|]. right.
      exact (advances_trans 1 0 _ _ _ Hadv1 (advances_trans 0 0 _ _ _ Hadv2 Hadv3)).
    + split; [assumption|]. now right.
  - rewrite (_process_node_failed _ _ _ _ _ _ _ Hf). unfold except_etherscan.
    destruct (is_etherscan_error e); simpl;
      (split; [exact Hinv|left; split; [auto|simpl; lia]]).
Qed.

Lemma state_of_write_progress env st : state_of (write_progress env st) = st.
Proof. unfold write_progress. now destruct (update_graph_status env). Qed.

Lemma loop_body_keeps limits classifier env st :
  engine_inv st ->
  let st' := state_of (loop_body limits classifier env st) in
  engine_inv st' /\ (advances 0 st st' \/ advances 1 st st').
Proof.
  intros Hinv. unfold loop_body.
  destruct (clock_expired env); simpl.
  { split; [assumption|left; apply advances_refl]. }
  destruct (pending_nodes st) as [|[a d] rest] eqn:Hpend; simpl.
  { split; [assumption|left; apply advances_refl]. }
  assert (Hinv1 : engine_inv (set_pending_nodes st rest)).
  { destruct Hinv as [Hp Hn]. split; [|exact Hn].
    intros a' d' Hin. simpl in *. apply (Hp a' d'). rewrite Hpend. now right. }
  destruct (bool_decide (a ∈ processed_nodes st) || (max_depth limits <=? d))%bool.
  { simpl. split; [assumption|left; split; [auto|simpl; lia]]. }
  pose proof (_process_node_keeps limits classifier (get_account_transactions env)
                (set_pending_nodes st rest) a d Hinv1) as [Hinv2 Hadv].
  destruct (_process_node limits classifier (get_account_transactions env)
              (set_pending_nodes st rest) a d) as [st2|e st2]; simpl in *.
  - rewrite state_of_write_progress. split; [exact Hinv2|exact Hadv].
  - split; [exact Hinv2|exact Hadv].
Qed.

Lemma _recursive_traversal_keeps limits classifier envs st :
  engine_inv st ->
  api_calls_used st <= max_api_calls limits ->
  let st' := progress_state (_recursive_traversal limits classifier envs st) in
  engine_inv st'
  /\ api_calls_used st <= api_calls_used st' <= max_api_calls limits.
Proof.
  revert st. induction envs as [|env envs IH]; intros st Hinv Hle; simpl.
  - destruct (loop_condition limits st); simpl; (split; [assumption|lia]).
  - destruct (loop_condition limits st) eqn:Hc; simpl; [|split; [assumption|lia]].
    unfold loop_condition in Hc.
    apply andb_true_iff in Hc as [Hc _]. apply andb_true_iff in Hc as [_ Hc].
    apply Z.ltb_lt in Hc.
    pose proof (loop_body_keeps limits classifier env st Hinv) as [Hinv1 Hadv].
    destruct (loop_body limits classifier env st) as [st1|e st1]; simpl in *.
    + assert (Hle1 : api_calls_used st <= api_calls_used st1 <= max_api_calls limits).
      { destruct Hadv as [[_ ->]|[_ ->]]; lia. }
      destruct (IH st1 Hinv1 ltac:(lia)) as [Hinv2 Hle2].
      split; [assumption|lia].
    + split; [assumption|]. destruct Hadv as [[_ ->]|[_ ->]]; lia.
Qed.

Lemma running_state_keeps limits classifier envs st0 st :
  engine_inv st0 ->
  _recursive_traversal limits classifier envs st0 = Running st ->
  engine_inv st.
Proof.
  revert st0. induction envs as [|env envs IH]; intros st0 Hinv Hrun; simpl in Hrun;
    (destruct (loop_condition limits st0); [|discriminate]).
  - now injection Hrun as <-.
  - pose proof (loop_body_keeps limits classifier env st0 Hinv) as [Hinv1 _].
    destruct (loop_body limits classifier env st0) as [st1|e st1]; [|discriminate].
    eapply IH; eauto.
Qed.

Lemma _initialize_graph_establishes incident tx_details st0 :
  _initialize_graph new_service incident tx_details = Ok st0 ->
  engine_inv st0 /\ api_calls_used st0 = 0.
Proof.
  unfold _initialize_graph.
  destruct incident as [incident|]; [|discriminate].
  destruct tx_details as [|hack_tx rest]; [discriminate|].
  intros [= <-]. split; [split|reflexivity].
  - intros a d [Heq|[]]. injection Heq as <- <-. simpl.
    unfold _add_graph_edge. rewrite has_node_add_edge.
    now rewrite bool_decide_true.
  - simpl. apply List.NoDup_cons; [intros []|apply List.NoDup_nil].
Qed.

(** ** The traversal: budget, failed fetches, termination *)

(** C8.  While an incident is processed [api_calls_used] never exceeds
    [max_api_calls] (25 by default; a budget is taken to be non-negative):
    this holds of every state the traversal passes through, whatever the
    clock and the transaction source answer, also when an exception ends it.
    The loop goes round only while [api_calls_used] is strictly below the
    budget, and one round adds at most one call. *)
Theorem api_budget_respected
    (limits : Limits) (classifier : AddressClassifier)
    (incident : option Repo.Incident) (tx_details : list Repo.HackTx)
    (st0 : State) (envs : list Env) :
  0 <= max_api_calls limits ->
  _initialize_graph new_service incident tx_details = Ok st0 ->
  let st := progress_state (_recursive_traversal limits classifier envs st0) in
  0 <= api_calls_used st <= max_api_calls limits
  /\ (loop_condition limits st = true ->
      api_calls_used st < max_api_calls limits
      /\ forall env,
           let st' := state_of (loop_body limits classifier env st) in
           api_calls_used st <= api_calls_used st' <= api_calls_used st + 1)
  /\ max_api_calls get_processing_limits = 25.
Proof.
  intros Hmax Hinit.
  destruct (_initialize_graph_establishes _ _ _ Hinit) as [Hinv0 Hzero].
  destruct (_recursive_traversal_keeps limits classifier envs st0 Hinv0 ltac:(lia))
    as [Hinv Hle].
  simpl. split; [lia|]. split; [|reflexivity].
  intros Hc. split.
  - unfold loop_condition in Hc.
    apply andb_true_iff in Hc as [Hc _]. apply andb_true_iff in Hc as [_ Hc].
    now apply Z.ltb_lt in Hc.
  - intros env.
    destruct (loop_body_keeps limits classifier env _ Hinv) as [_ [[_ ->]|[_ ->]]];
      lia.
Qed.

Lemma api_budget_respected_witness :
  let st :=
    progress_state
      (_recursive_traversal get_processing_limits new_classifier
         [answering large_transfers; failing (EtherscanError "down")] seed_state) in
  0 <= api_calls_used st <= 25
  /\ (loop_condition get_processing_limits st = true ->
      api_calls_used st < 25
      /\ forall env,
           let st' :=
             state_of (loop_body get_processing_limits new_classifier env st) in
           api_calls_used st <= api_calls_used st' <= api_calls_used st + 1)
  /\ max_api_calls get_processing_limits = 25.
Proof.
  apply (api_budget_respected get_processing_limits new_classifier
           (Some {| Repo.wallet_address := "0xVictim" |})
           [ {| Repo.to_address := "0xHacker";
                Repo.transaction_hash := Some "0xseed";
                Repo.value := Some 5%float |} ]
           seed_state
           [answering large_transfers; failing (EtherscanError "down")]).
  - vm_compute. discriminate.
  - reflexivity.
Defined.

Lemma loop_body_expands limits classifier env st address depth rest :
  clock_expired env = false ->
  pending_nodes st = (address, depth) :: rest ->
  bool_decide (address ∈ processed_nodes st) = false ->
  (max_depth limits <=? depth) = false ->
  loop_body limits classifier env st
  = match _process_node limits classifier (get_account_transactions env)
            (set_pending_nodes st rest) address depth with
    | Done st2 => write_progress env (mark_processed st2 address)
    | Raised e st2 => Raised e st2
    end.
Proof.
  intros Hclock Hpend Hproc Hdepth.
  unfold loop_body. rewrite Hclock, Hpend. simpl. now rewrite Hproc, Hdepth.
Qed.

(** C3, as the code has it.  Take any state the traversal reaches from an
    initialized graph and an address it expands there, with a fetch that
    succeeds.  The termination test is called with the cumulative value
    percentage at its default 0.0, which is below 5, so it answers [true]
    with a non-empty reason whatever the classification.  When no fetched
    transaction passes the primary tier, the check is reached: the node ends
    with a non-empty [termination_reason] and no frontier entry for the
    address is left.  When one does, the assignment of its score raises
    inside the filter before the check is reached: the exception leaves the
    loop, and the node is left with the termination reason it had. *)
Theorem expansion_ends_before_termination_check
    (limits : Limits) (classifier : AddressClassifier)
    (incident : option Repo.Incident) (tx_details : list Repo.HackTx)
    (st0 st : State) (envs : list Env) (env : Env)
    (address : string) (depth : Z) (rest : list (string * Z))
    (txs : list RawTx) :
  _initialize_graph new_service incident tx_details = Ok st0 ->
  _recursive_traversal limits classifier envs st0 = Running st ->
  clock_expired env = false ->
  pending_nodes st = (address, depth) :: rest ->
  Etherscan.outcome
    (get_account_transactions env address (start_block (graph st) address))
  = Ok txs ->
  bool_decide (address ∈ processed_nodes st) = false ->
  (max_depth limits <=? depth) = false ->
  let terminated st' :=
    (exists reason,
       termination_reason_of st' address = Some reason
       /\ reason <> ""
       /\ In reason ["high_confidence_classification"; "high_transaction_volume";
                     "insufficient_value_flow"])
    /\ ~ In address (map fst (pending_nodes st')) in
  (forall entity_type confidence total filtered,
     exists reason,
       should_terminate_exploration address entity_type confidence total filtered
         default_cumulative_value_percentage = (true, reason)
       /\ reason <> "")
  /\ (survivors txs address = [] ->
      exists st',
        loop_body limits classifier env st = write_progress env st'
        /\ terminated st')
  /\ (survivors txs address <> [] ->
      exists e st',
        loop_body limits classifier env st = Raised e st'
        /\ (e = ValueError \/ e = OverflowError)
        /\ graph st' = graph st
        /\ termination_reason_of st' address = termination_reason_of st address
        /\ address ∉ processed_nodes st').
Proof.
  intros Hinit Hrun Hclock Hpend Hfetch Hproc Hdepth terminated.
  assert (Hne : forall reason,
            In reason ["high_confidence_classification"; "high_transaction_volume";
                       "insufficient_value_flow"] -> reason <> "").
  { intros reason [<-|[<-|[<-|[]]]]; discriminate. }
  split.
  { intros entity_type confidence total filtered.
    destruct (should_terminate_by_default address entity_type confidence total filtered)
      as (reason & Hr & Hin).
    exists reason. split; [exact Hr|now apply Hne]. }
  destruct (_initialize_graph_establishes _ _ _ Hinit) as [Hinv0 Hzero].
  assert (Hinv : engine_inv st) by (eapply running_state_keeps; eauto).
  pose proof (loop_body_expands limits classifier env st address depth rest
                Hclock Hpend Hproc Hdepth) as Hbody.
  rewrite (_process_node_fetched limits classifier _ _ _ _ txs) in Hbody
    by exact Hfetch.
  simpl in Hbody.
  set (st1 := set_api_calls_used _ _) in Hbody.
  assert (Hinv1 : engine_inv st1).
  { destruct Hinv as [Hp Hn]. split; [|exact Hn].
    intros a d Hin. apply (Hp a d). rewrite Hpend. now right. }
  assert (Hnode1 : DiGraph.has_node (graph st1) address = true).
  { destruct Hinv as [Hp _]. apply (Hp address depth). rewrite Hpend. now left. }
  pose proof (_apply_filtering_pipeline_cases st1 txs address depth) as Hcases.
  split.
  - intros Hnone. rewrite Hnone in Hcases. rewrite Hcases in Hbody.
    eexists. split; [exact Hbody|].
    destruct (_check_termination_conditions_keeps classifier
                (fold_left
                   (fun st tx => _process_transaction limits st tx address depth)
                   (slice_to (max_transactions_per_node limits) []) st1)
                address (Z.of_nat (length txs)) (Z.of_nat (length (@nil Tx.t))))
      as (_ & _ & Hgone & Hterm).
    { apply process_transactions_keep. exact Hinv1. }
    split; [|exact Hgone].
    destruct Hterm as (node_data & reason & Hd & Hr & Hin).
    { destruct (process_transactions_keep limits address depth
                  (slice_to (max_transactions_per_node limits) []) st1 Hinv1)
        as [_ [Hgrow _]].
      apply Hgrow. exact Hnode1. }
    exists reason. split; [|split; [now apply Hne|exact Hin]].
    unfold termination_reason_of, mark_processed. cbn [graph]. now rewrite Hd.
  - intros Hsome.
    destruct (survivors txs address) as [|tx l]; [contradiction|].
    destruct Hcases as (e & He & Hkind & _). rewrite He in Hbody.
    exists e, st1. split; [exact Hbody|]. split; [exact Hkind|].
    split; [reflexivity|]. split; [reflexivity|].
    simpl. now apply bool_decide_eq_false in Hproc.
Qed.

Lemma expansion_ends_before_termination_check_witness :
  let env := answering large_transfers in
  let terminated st' :=
    (exists reason,
       termination_reason_of st' "0xhacker" = Some reason
       /\ reason <> ""
       /\ In reason ["high_confidence_classification"; "high_transaction_volume";
                     "insufficient_value_flow"])
    /\ ~ In "0xhacker" (map fst (pending_nodes st')) in
  (forall entity_type confidence total filtered,
     exists reason,
       should_terminate_exploration "0xhacker" entity_type confidence total filtered
         default_cumulative_value_percentage = (true, reason)
       /\ reason <> "")
  /\ (survivors large_transfers "0xhacker" = [] ->
      exists st',
        loop_body get_processing_limits new_classifier env seed_state
        = write_progress env st'
        /\ terminated st')
  /\ (survivors large_transfers "0xhacker" <> [] ->
      exists e st',
        loop_body get_processing_limits new_classifier env seed_state
        = Raised e st'
        /\ (e = ValueError \/ e = OverflowError)
        /\ graph st' = graph seed_state
        /\ termination_reason_of st' "0xhacker"
           = termination_reason_of seed_state "0xhacker"
        /\ "0xhacker" ∉ processed_nodes st').
Proof.
  apply (expansion_ends_before_termination_check
           get_processing_limits new_classifier
           (Some {| Repo.wallet_address := "0xVictim" |})
           [ {| Repo.to_address := "0xHacker";
                Repo.transaction_hash := Some "0xseed";
                Repo.value := Some 5%float |} ]
           seed_state seed_state [] (answering large_transfers)
           "0xhacker" 1 [] large_transfers).
  - reflexivity.
  - vm_compute. reflexivity.
  - reflexivity.
  - reflexivity.
  - reflexivity.
  - vm_compute. reflexivity.
  - reflexivity.
Defined.

(** C3 at its failing input: the hacker's fetch returns the large
    transfers, two of which pass the primary tier.  The iteration ends with
    [ValueError]; the hacker's node has no termination reason, its expansion
    is not counted as processed, and the traversal is over. *)
Lemma survivor_leaves_node_unterminated :
  survivors large_transfers "0xhacker" <> []
  /\ (exists st',
        loop_body get_processing_limits new_classifier
          (answering large_transfers) seed_state = Raised ValueError st'
        /\ termination_reason_of st' "0xhacker" = None
        /\ graph st' = graph seed_state
        /\ nodes_processed st' = 0)
  /\ (exists st',
        _recursive_traversal get_processing_limits new_classifier
          [answering large_transfers; answering []] seed_state
        = Aborted ValueError st').
Proof.
  split; [vm_compute; discriminate|].
  split; eexists; vm_compute; repeat split; reflexivity.
Qed.

(** ** The filter pipeline: the stolen amount *)

(** C1, at its own scenario.  The incident's stolen amount is 5 and the
    hacker sent 0.10, 0.06 and 0.04.  Against a stolen amount of 5 the
    minimum is 1.0% and the primary tier keeps 0.10 and 0.06, in that order;
    but the pipeline takes its basis from [_get_total_stolen_amount], which
    returns 100.0 for every incident, so the minimum is 0.5% of 100 units
    and the pipeline returns nothing. *)
Theorem filter_thresholds_scenario :
  DiGraph.edge_data (graph seed_state) "0xvictim" "0xhacker"
    ≫= Edge.value_eth = Some 5%float
  /\ _get_min_percentage_threshold 5 = 1.0%float
  /\ map Tx.transaction_hash
       (List.filter (primary_keep 5 "0xhacker") (normalize_all small_transfers))
     = ["h1"; "h2"]
  /\ _get_total_stolen_amount seed_state = 100%float
  /\ _get_min_percentage_threshold (_get_total_stolen_amount seed_state) = 0.5%float
  /\ _apply_filtering_pipeline seed_state small_transfers "0xhacker" 1 = Ok [].
Proof.
  vm_compute. repeat split; reflexivity.
Qed.

(** ** Edges *)

Lemma or_else_twice {A} (n o : option A) :
  Node.or_else n (Node.or_else n o) = Node.or_else n o.
Proof. now destruct n. Qed.

Lemma Edge_update_twice a d : Edge.update a (Edge.update a d) = Edge.update a d.
Proof. unfold Edge.update. simpl. now rewrite !or_else_twice. Qed.



Lemma upsert_present {K V} `{EqDecision K} (k : K) (dflt : V) l :
  AList.mem k l = true -> AList.upsert k (default dflt) l = l.
Proof.
  unfold AList.mem. destruct (AList.get k l) as [v|] eqn:Hg; [|discriminate].
  intros _. eapply upsert_unchanged; [exact Hg|reflexivity].
Qed.






(** ** Post-processing: dead ends *)

Lemma filter_filter_andb {A} (f g : A -> bool) l :
  List.filter f (List.filter g l) = List.filter (fun x => g x && f x)%bool l.
Proof.
  induction l as [|x l IH]; simpl; [reflexivity|].
  destruct (g x); simpl; [destruct (f x)|]; now rewrite IH.
Qed.

Lemma bool_decide_string (x y : string) : bool_decide (x = y) = String.eqb x y.
Proof.
  destruct (String.eqb_spec x y) as [->|Hne].
  - now apply bool_decide_true.
  - now apply bool_decide_false.
Qed.

Lemma remove_nodes_nodes l g :
  DiGraph.nodes (fold_left DiGraph.remove_node l g)
  = List.filter (fun kv => negb (str_in kv.1 l)) (DiGraph.nodes g).
Proof.
  revert g. induction l as [|n l IH]; intros g; simpl.
  - symmetry. apply filter_true.
  - rewrite IH. unfold DiGraph.remove_node at 1. simpl.
    rewrite filter_filter_andb. apply filter_ext. intros [k d]. simpl.
    unfold str_in. simpl. rewrite bool_decide_string.
    now destruct (String.eqb k n).
Qed.

Lemma remove_nodes_edges l g :
  DiGraph.edges (fold_left DiGraph.remove_node l g)
  = List.filter (fun kv => negb (str_in kv.1.1 l || str_in kv.1.2 l))
      (DiGraph.edges g).
Proof.
  revert g. induction l as [|n l IH]; intros g; simpl.
  - symmetry. apply filter_true.
  - rewrite IH. unfold DiGraph.remove_node at 1. simpl.
    rewrite filter_filter_andb. apply filter_ext. intros [[a b] d]. simpl.
    unfold str_in. simpl. rewrite !bool_decide_string.
    destruct (String.eqb a n), (String.eqb b n),
      (existsb (String.eqb a) l), (existsb (String.eqb b) l); reflexivity.
Qed.

(** C5, as the code has it.  Dead-end pruning is one pass over the graph as
    it stands when the pass starts.  The nodes it removes are exactly those
    with out-degree zero, no (or an empty) termination reason and an entity
    kind outside CEX, DEX and Mixer; they go with the edges that touch them,
    and every other node and edge stays as it is.  The pass is not repeated,
    and a seed is judged like any other node. *)
Theorem dead_end_pruning_is_one_pass (st : State) :
  let g := graph st in
  let g' := graph (_remove_dead_ends st) in
  (forall node,
     In node (nodes_to_remove g) <->
     exists node_data,
       In (node, node_data) (DiGraph.nodes g)
       /\ DiGraph.out_degree g node = 0
       /\ truthy (Node.termination_reason node_data) = false
       /\ (forall kind, Node.entity_type node_data = Some kind ->
             ~ In kind ["CEX"; "DEX"; "Mixer"]))
  /\ DiGraph.nodes g'
     = List.filter (fun kv => negb (str_in kv.1 (nodes_to_remove g))) (DiGraph.nodes g)
  /\ DiGraph.edges g'
     = List.filter
         (fun kv => negb (str_in kv.1.1 (nodes_to_remove g)
                          || str_in kv.1.2 (nodes_to_remove g)))
         (DiGraph.edges g).
Proof.
  simpl. split; [|split; [apply remove_nodes_nodes|apply remove_nodes_edges]].
  intros node. unfold nodes_to_remove. rewrite in_map_iff. split.
  - intros ([k d] & Hk & Hin). simpl in Hk. subst k.
    apply filter_In in Hin as [Hin Hdead]. simpl in Hdead.
    unfold is_dead_end in Hdead.
    apply andb_true_iff in Hdead as [Hdead Hkind].
    apply andb_true_iff in Hdead as [Hdeg Hterm].
    exists d. split; [exact Hin|]. split; [now apply Z.eqb_eq|].
    split; [now apply negb_true_iff|].
    intros kind Hk Hin'. rewrite Hk in Hkind. apply negb_true_iff in Hkind.
    unfold str_in in Hkind. simpl in Hkind, Hin'.
    destruct Hin' as [<-|[<-|[<-|[]]]]; discriminate.
  - intros (d & Hin & Hdeg & Hterm & Hkind).
    exists (node, d). split; [reflexivity|]. apply filter_In. split; [exact Hin|].
    simpl. unfold is_dead_end. rewrite Hdeg, Hterm. simpl.
    destruct (Node.entity_type d) as [kind|] eqn:Hk; [|reflexivity].
    apply negb_true_iff. specialize (Hkind kind eq_refl).
    unfold str_in. simpl in *.
    destruct (String.eqb_spec kind "CEX") as [->|_]; [tauto|].
    destruct (String.eqb_spec kind "DEX") as [->|_]; [tauto|].
    destruct (String.eqb_spec kind "Mixer") as [->|_]; [tauto|].
    reflexivity.
Qed.

(** C5 fails as stated: the hacker seed, left without outgoing edge and
    without termination reason, is pruned; and the pass is not repeated, for
    it leaves the victim seed as a dead end that a further pass would remove. *)
Lemma pruning_removes_a_seed_and_stops :
  _recursive_traversal get_processing_limits new_classifier
    [failing (EtherscanError "HTTP 502")] seed_state
  = Completed stranded_state
  /\ DiGraph.has_node (graph stranded_state) "0xhacker" = true
  /\ DiGraph.has_node (graph (_remove_dead_ends stranded_state)) "0xhacker" = false
  /\ nodes_to_remove (graph (_remove_dead_ends stranded_state)) = ["0xvictim"]
  /\ DiGraph.has_node
       (graph (_remove_dead_ends (_remove_dead_ends stranded_state))) "0xvictim"
     = false.
Proof.
  vm_compute. repeat split; reflexivity.
Qed.

(** ** Post-processing: consolidation *)

Lemma fold_left_pointwise {A B} (f g : A -> B -> A) l a :
  (forall a b, f a b = g a b) -> fold_left f l a = fold_left g l a.
Proof.
  intros Hfg. revert a. induction l as [|b l IH]; intros a; simpl; [reflexivity|].
  now rewrite Hfg, IH.
Qed.

Lemma entity_groups_fold g :
  entity_groups g = fold_left group_step (DiGraph.nodes g) [].
Proof.
  unfold entity_groups. apply fold_left_pointwise.
  intros groups kv. unfold group_step, group_key.
  destruct (entity_key_of kv.2) as [k|]; [|reflexivity].
  now destruct (truthy (Some k) && negb (String.eqb k "Unknown"))%bool.
Qed.

Lemma group_step_keys groups kv :
  List.NoDup (AList.keys groups) -> List.NoDup (AList.keys (group_step groups kv)).
Proof.
  intros H. unfold group_step. destruct (group_key kv.2); [|assumption].
  now apply NoDup_keys_upsert.
Qed.

Lemma groups_keys ns acc :
  List.NoDup (AList.keys acc) ->
  List.NoDup (AList.keys (fold_left group_step ns acc)).
Proof.
  revert acc. induction ns as [|kv ns IH]; intros acc H; simpl; [assumption|].
  apply IH. now apply group_step_keys.
Qed.

Lemma filed_cons kv ns :
  filed (kv :: ns)
  = (match group_key kv.2 with Some k => [(kv.1, k)] | None => [] end ++ filed ns)%list.
Proof. reflexivity. Qed.

Lemma groups_get ns acc k :
  AList.get k (fold_left group_step ns acc)
  = match members k (filed ns) with
    | [] => AList.get k acc
    | ms => Some (default [] (AList.get k acc) ++ ms)%list
    end.
Proof.
  revert acc. induction ns as [|kv ns IH]; intros acc; simpl fold_left.
  - reflexivity.
  - rewrite IH, filed_cons. unfold group_step, members.
    destruct (group_key kv.2) as [k0|]; simpl; [|reflexivity].
    destruct (String.eqb_spec k0 k) as [->|Hne]; simpl.
    + rewrite get_upsert_eq.
      destruct (map fst (List.filter (fun p => String.eqb p.2 k) (filed ns)));
        simpl; [reflexivity|].
      now rewrite <- app_assoc.
    + now rewrite get_upsert_ne.
Qed.

(** A group lists the nodes filed under its name. *)
Lemma entity_groups_members g k addresses :
  In (k, addresses) (entity_groups g) ->
  addresses = members k (filed (DiGraph.nodes g)) /\ addresses <> [].
Proof.
  rewrite entity_groups_fold. intros Hin.
  apply In_get_NoDup in Hin; [|apply groups_keys; apply List.NoDup_nil].
  rewrite groups_get in Hin. simpl in Hin.
  destruct (members k (filed (DiGraph.nodes g))) as [|m ms]; [discriminate|].
  injection Hin as <-. split; [reflexivity|discriminate].
Qed.

Lemma members_entity_groups g k :
  members k (filed (DiGraph.nodes g)) <> [] ->
  In (k, members k (filed (DiGraph.nodes g))) (entity_groups g).
Proof.
  intros Hne. apply get_Some_In. rewrite entity_groups_fold, groups_get. simpl.
  destruct (members k (filed (DiGraph.nodes g))); [congruence|reflexivity].
Qed.

(** What consolidation does to the list of filed nodes. *)

Lemma filed_upsert_default u ns :
  filed (AList.upsert u (default Node.empty) ns) = filed ns.
Proof.
  induction ns as [|[k d] ns IH]; simpl; [reflexivity|].
  destruct (decide (u = k)); simpl; [reflexivity|].
  rewrite !filed_cons. simpl. now rewrite IH.
Qed.

Lemma filed_alter k (f : Node.t -> Node.t) ns :
  (forall d, group_key (f d) = group_key d) ->
  filed (AList.alter k f ns) = filed ns.
Proof.
  intros Hf. induction ns as [|[k' d] ns IH]; simpl; [reflexivity|].
  destruct (decide (k = k')); rewrite !filed_cons; simpl.
  - now rewrite Hf.
  - now rewrite IH.
Qed.

Lemma filed_remove n ns :
  filed (List.filter (fun kv => negb (bool_decide (kv.1 = n))) ns)
  = List.filter (fun p => negb (String.eqb p.1 n)) (filed ns).
Proof.
  induction ns as [|[k d] ns IH]; simpl; [reflexivity|].
  rewrite bool_decide_string, filed_cons. simpl.
  destruct (String.eqb k n) eqn:Hk; simpl.
  - rewrite IH. destruct (group_key d); simpl; [now rewrite Hk|reflexivity].
  - rewrite filed_cons, IH. simpl.
    destruct (group_key d); simpl; [now rewrite Hk|reflexivity].
Qed.

Lemma filed_add_edge g u v attr :
  filed (DiGraph.nodes (DiGraph.add_edge g u v attr)) = filed (DiGraph.nodes g).
Proof. unfold DiGraph.add_edge. simpl. now rewrite !filed_upsert_default. Qed.

Lemma fold_left_keeps {A B C} (f : A -> B -> A) (h : A -> C) l a :
  (forall a b, h (f a b) = h a) -> h (fold_left f l a) = h a.
Proof.
  intros Hf. revert a. induction l as [|b l IH]; intros a; simpl; [reflexivity|].
  now rewrite IH, Hf.
Qed.

Lemma filed_redirect_incoming master addr g :
  filed (DiGraph.nodes (redirect_incoming master addr g)) = filed (DiGraph.nodes g).
Proof.
  unfold redirect_incoming.
  apply (fold_left_keeps _ (fun g => filed (DiGraph.nodes g))).
  intros g0 pred. destruct (negb (String.eqb pred master)); [|reflexivity].
  destruct (DiGraph.edge_data g0 pred addr); [apply filed_add_edge|reflexivity].
Qed.

Lemma filed_redirect_outgoing master addr g :
  filed (DiGraph.nodes (redirect_outgoing master addr g)) = filed (DiGraph.nodes g).
Proof.
  unfold redirect_outgoing.
  apply (fold_left_keeps _ (fun g => filed (DiGraph.nodes g))).
  intros g0 succ. destruct (negb (String.eqb succ master)); [|reflexivity].
  destruct (DiGraph.edge_data g0 addr succ); [apply filed_add_edge|reflexivity].
Qed.

Lemma filed_absorb master others g :
  filed (DiGraph.nodes
           (fold_left
              (fun g addr =>
                 DiGraph.remove_node
                   (redirect_outgoing master addr (redirect_incoming master addr g))
                   addr)
              others g))
  = List.filter (fun p => negb (str_in p.1 others)) (filed (DiGraph.nodes g)).
Proof.
  revert g. induction others as [|addr others IH]; intros g; simpl.
  - symmetry. apply filter_true.
  - rewrite IH. unfold DiGraph.remove_node at 1. simpl.
    rewrite filed_remove, filed_redirect_outgoing, filed_redirect_incoming.
    rewrite filter_filter_andb. apply filter_ext. intros [n k]. simpl.
    unfold str_in. simpl. now destruct (String.eqb n addr).
Qed.

Lemma filed_consolidate_address_group g addresses name :
  filed (DiGraph.nodes (_consolidate_address_group g addresses name))
  = List.filter (fun p => negb (str_in p.1 (absorbed addresses)))
      (filed (DiGraph.nodes g)).
Proof.
  unfold _consolidate_address_group, absorbed.
  destruct addresses as [|master [|other others]];
    try (symmetry; apply filter_true).
  rewrite filed_absorb. simpl. now rewrite filed_alter.
Qed.

Lemma str_in_app x l1 l2 : str_in x (l1 ++ l2) = (str_in x l1 || str_in x l2)%bool.
Proof. unfold str_in. apply existsb_app. Qed.

Lemma filed_consolidate groups g :
  filed (DiGraph.nodes
           (fold_left
              (fun g group =>
                 if (1 <? length group.2)%nat
                 then _consolidate_address_group g group.2 group.1
                 else g)
              groups g))
  = List.filter (fun p => negb (str_in p.1 (all_absorbed groups)))
      (filed (DiGraph.nodes g)).
Proof.
  revert g. induction groups as [|[name addresses] groups IH]; intros g; simpl.
  - symmetry. apply filter_true.
  - rewrite IH.
    assert (Hstep :
      filed (DiGraph.nodes
               (if (1 <? length addresses)%nat
                then _consolidate_address_group g addresses name else g))
      = List.filter (fun p => negb (str_in p.1 (absorbed addresses)))
          (filed (DiGraph.nodes g))).
    { destruct (1 <? length addresses)%nat eqn:Hlen.
      - apply filed_consolidate_address_group.
      - destruct addresses as [|a [|b rest]]; simpl in *;
          try (symmetry; apply filter_true). discriminate. }
    rewrite Hstep, filter_filter_andb. apply filter_ext. intros [n k]. simpl.
    unfold all_absorbed. simpl. rewrite str_in_app.
    now destruct (str_in n (absorbed addresses)).
Qed.

Lemma str_in_In x l : str_in x l = true <-> In x l.
Proof.
  unfold str_in. rewrite existsb_exists. split.
  - intros (y & Hin & Heq). apply String.eqb_eq in Heq. now subst.
  - intros Hin. exists x. split; [assumption|apply String.eqb_refl].
Qed.

Lemma members_filter k (R : list string) fs :
  members k (List.filter (fun p => negb (str_in p.1 R)) fs)
  = List.filter (fun n => negb (str_in n R)) (members k fs).
Proof.
  unfold members. induction fs as [|[n k'] fs IH]; simpl; [reflexivity|].
  destruct (str_in n R) eqn:Hn; simpl; destruct (String.eqb k' k); simpl;
    rewrite ?Hn; simpl; now rewrite IH.
Qed.

Lemma filter_all_out (R : list string) l :
  (forall x, In x l -> str_in x R = true) ->
  List.filter (fun n => negb (str_in n R)) l = [].
Proof.
  induction l as [|x l IH]; intros H; simpl; [reflexivity|].
  rewrite (H x) by now left. simpl. apply IH. intros y Hy. apply H. now right.
Qed.

Lemma absorbed_in_all groups k addresses x :
  In (k, addresses) groups -> In x (absorbed addresses) ->
  str_in x (all_absorbed groups) = true.
Proof.
  intros Hg Hx. apply str_in_In. unfold all_absorbed. apply in_flat_map.
  exists (k, addresses). auto.
Qed.

(** After consolidation no name has two nodes filed under it. *)
Lemma consolidated_groups_are_single st k :
  (length (members k (filed (DiGraph.nodes (graph (_consolidate_entities st))))) <= 1)%nat.
Proof.
  unfold _consolidate_entities. cbn [graph set_graph].
  rewrite filed_consolidate, members_filter.
  destruct (members k (filed (DiGraph.nodes (graph st)))) as [|m [|o os]] eqn:Hms.
  - simpl. lia.
  - simpl. destruct (negb _); simpl; lia.
  - assert (Hin : In (k, m :: o :: os) (entity_groups (graph st))).
    { rewrite <- Hms. apply members_entity_groups. rewrite Hms. discriminate. }
    change (m :: o :: os) with ([m] ++ (o :: os))%list.
    rewrite List.filter_app.
    rewrite (filter_all_out _ (o :: os)).
    + rewrite app_nil_r. simpl. destruct (negb _); simpl; lia.
    + intros x Hx. eapply absorbed_in_all; [exact Hin|exact Hx].
Qed.

Lemma fold_left_fixed {A B} (f : A -> B -> A) l a :
  (forall b, In b l -> forall a, f a b = a) -> fold_left f l a = a.
Proof.
  revert a. induction l as [|b l IH]; intros a H; simpl; [reflexivity|].
  rewrite (H b) by now left. apply IH. intros b' Hb'. apply H. now right.
Qed.

Lemma set_graph_same st : set_graph st (graph st) = st.
Proof. now destruct st. Qed.

(** Consolidation changes nothing when no name has two nodes filed under it. *)
Lemma _consolidate_entities_fixed st :
  (forall k, (length (members k (filed (DiGraph.nodes (graph st)))) <= 1)%nat) ->
  _consolidate_entities st = st.
Proof.
  intros Hsingle. unfold _consolidate_entities.
  rewrite fold_left_fixed; [apply set_graph_same|].
  intros [k addresses] Hin g. simpl.
  apply entity_groups_members in Hin as [-> _].
  specialize (Hsingle k).
  destruct (Nat.ltb_spec 1 (length (members k (filed (DiGraph.nodes (graph st))))));
    [lia|reflexivity].
Qed.

(** ** Post-processing: flows *)

Lemma annotate_flow_twice total edge_data :
  annotate_flow total (annotate_flow total edge_data)
  = annotate_flow total edge_data.
Proof. unfold annotate_flow. simpl. apply Edge_update_twice. Qed.

Lemma _analyze_flows_twice st :
  _analyze_flows (_analyze_flows st) = _analyze_flows st.
Proof.
  unfold _analyze_flows.
  destruct (PrimFloat.leb (_get_total_stolen_amount st) 0) eqn:Hle.
  - now rewrite Hle.
  - change (_get_total_stolen_amount (set_graph st _))
      with (_get_total_stolen_amount st).
    rewrite Hle. unfold set_graph. simpl. f_equal. f_equal.
    rewrite map_map. apply map_ext. intros [key d]. simpl.
    now rewrite annotate_flow_twice.
Qed.

Lemma _analyze_flows_nodes st :
  DiGraph.nodes (graph (_analyze_flows st)) = DiGraph.nodes (graph st).
Proof.
  unfold _analyze_flows.
  now destruct (PrimFloat.leb (_get_total_stolen_amount st) 0).
Qed.

(** Consolidation reads the nodes only and keeps the other fields. *)
Lemma _consolidate_entities_after_flows st :
  (forall k, (length (members k (filed (DiGraph.nodes (graph st)))) <= 1)%nat) ->
  _consolidate_entities (_analyze_flows st) = _analyze_flows st.
Proof.
  intros Hsingle. apply _consolidate_entities_fixed.
  intros k. rewrite _analyze_flows_nodes. apply Hsingle.
Qed.

(** C6, as the code has it.  Running the post-processor (dead-end pruning,
    entity consolidation, flow annotation) a second time changes nothing
    provided the first run left no node for the pruning pass to remove:
    after one run no two nodes share an entity name, so consolidation has
    nothing to merge, and the flow annotations are recomputed to the same
    values. *)
Theorem post_processing_twice (st : State) :
  nodes_to_remove (graph (_optimize_graph st)) = [] ->
  _optimize_graph (_optimize_graph st) = _optimize_graph st.
Proof.
  intros Hnone.
  assert (Hprune : _remove_dead_ends (_optimize_graph st) = _optimize_graph st).
  { unfold _remove_dead_ends at 1. rewrite Hnone. simpl. apply set_graph_same. }
  unfold _optimize_graph at 1. rewrite Hprune.
  unfold _optimize_graph.
  rewrite _consolidate_entities_after_flows
    by (intros k; apply consolidated_groups_are_single).
  apply _analyze_flows_twice.
Qed.

Lemma post_processing_twice_witness :
  map fst (DiGraph.nodes (graph exchange_state))
  = ["0xvictim"; "0xhacker"; "0x3f5ce5fbfe3e9af3971dd833d26ba9b5c936f0be";
     "0xd551234ae421e3bcba99a0da6d736074f22192ff"]
  /\ map fst (DiGraph.nodes (graph (_optimize_graph exchange_state)))
     = ["0xvictim"; "0xhacker"; "0x3f5ce5fbfe3e9af3971dd833d26ba9b5c936f0be"]
  /\ _optimize_graph (_optimize_graph exchange_state) = _optimize_graph exchange_state.
Proof.
  split; [vm_compute; reflexivity|]. split; [vm_compute; reflexivity|].
  apply (post_processing_twice exchange_state).
  vm_compute. reflexivity.
Defined.

(** C6 fails as stated: on the graph left by a failed fetch for the hacker,
    the first run prunes the hacker and keeps the victim, and a second run
    prunes the victim as well. *)
Lemma post_processing_twice_differs :
  _optimize_graph (_optimize_graph stranded_state) <> _optimize_graph stranded_state
  /\ map fst (DiGraph.nodes (graph (_optimize_graph stranded_state))) = ["0xvictim"]
  /\ DiGraph.nodes (graph (_optimize_graph (_optimize_graph stranded_state))) = [].
Proof.
  split; [|split; vm_compute; reflexivity].
  intros H.
  apply (f_equal (fun st => DiGraph.number_of_nodes (graph st))) in H.
  vm_compute in H. discriminate.
Qed.

(** * Further properties of the code *)

(** ** The filter pipeline: what it returns *)

(** X1.  The filter pipeline never returns a transaction.  It returns the
    empty list exactly when no fetched transaction passes the primary tier.
    When one does, the secondary tier raises at the first of them:
    [ValueError], from the assignment of the score to a field the
    transaction does not have, or what [int] raises when the amount is not a
    finite float; never an Etherscan error. *)
Theorem pipeline_returns_nothing_or_raises
    (st : State) (transactions : list RawTx) (current_address : string)
    (depth : Z) :
  let returned := _apply_filtering_pipeline st transactions current_address depth in
  (forall filtered, returned = Ok filtered -> filtered = [])
  /\ (returned = Ok [] <-> survivors transactions current_address = [])
  /\ (forall e,
        returned = Raise e ->
        (e = ValueError \/ e = OverflowError) /\ is_etherscan_error e = false)
  /\ (forall tx rest,
        survivors transactions current_address = tx :: rest ->
        amount_is_finite tx = true ->
        returned = Raise ValueError).
Proof.
  simpl.
  pose proof (_apply_filtering_pipeline_cases st transactions current_address depth)
    as Hc.
  split; [|split; [|split]].
  - intros filtered H. now apply _apply_filtering_pipeline_returns_nil in H.
  - split.
    + intros H. now apply _apply_filtering_pipeline_returns_nil in H.
    + intros H. now rewrite H in Hc.
  - intros e H. split; [|eapply _apply_filtering_pipeline_raises; eauto].
    destruct (survivors transactions current_address) as [|tx l]; [congruence|].
    destruct Hc as (e' & He' & Hkind & _). congruence.
  - intros tx rest H Hfinite. rewrite H in Hc.
    destruct Hc as (e & He & _ & Hvalue). now rewrite He, (Hvalue Hfinite).
Qed.

(** ** The filter pipeline: the primary tier *)

(** The three tests of the primary tier, with the basis the code uses: the
    sender is the node, the amount is not below 0.05, and the amount as a
    percentage of 100 units is not below 0.5. *)
Lemma primary_keep_tests st current_address tx :
  primary_keep (_get_total_stolen_amount st) current_address tx = true <->
  lower (Tx.from_address tx) = lower current_address
  /\ flt (value_eth_of tx) 0.05 = false
  /\ flt (PrimFloat.mul (PrimFloat.div (value_eth_of tx) 100) 100) 0.5 = false.
Proof.
  unfold primary_keep.
  change (_get_total_stolen_amount st) with 100%float.
  change (fgt 100 0) with true.
  change (_get_min_percentage_threshold 100) with 0.5%float.
  change min_transaction_value_eth with 0.05%float.
  destruct (String.eqb_spec (lower (Tx.from_address tx)) (lower current_address))
    as [Heq|Hne]; simpl.
  - destruct (flt (value_eth_of tx) 0.05); simpl; [intuition discriminate|].
    destruct (flt _ 0.5); intuition discriminate.
  - intuition discriminate.
Qed.

(** X2.  The filter pipeline raises exactly when some fetched transaction
    normalizes and passes the primary tier as the code runs it: it was sent
    by the node (addresses compared in lower case), its amount is not below
    0.05 units, and its amount as a percentage of the fixed basis of 100
    units is not below 0.5.  Otherwise it returns the empty list. *)
Theorem pipeline_raises_on_primary_survivor
    (st : State) (transactions : list RawTx) (current_address : string)
    (depth : Z) :
  let returned := _apply_filtering_pipeline st transactions current_address depth in
  let passes n :=
    In n (normalize_all transactions)
    /\ lower (Tx.from_address n) = lower current_address
    /\ flt (value_eth_of n) 0.05 = false
    /\ flt (PrimFloat.mul (PrimFloat.div (value_eth_of n) 100) 100) 0.5 = false in
  ((exists e, returned = Raise e) <-> exists n, passes n)
  /\ (returned = Ok [] <-> forall n, ~ passes n).
Proof.
  simpl.
  pose proof (_apply_filtering_pipeline_cases st transactions current_address depth)
    as Hc.
  assert (Hin : forall n,
            In n (survivors transactions current_address) <->
            In n (normalize_all transactions)
            /\ lower (Tx.from_address n) = lower current_address
            /\ flt (value_eth_of n) 0.05 = false
            /\ flt (PrimFloat.mul (PrimFloat.div (value_eth_of n) 100) 100) 0.5
               = false).
  { intros n. unfold survivors. now rewrite filter_In, primary_keep_tests. }
  destruct (survivors transactions current_address) as [|tx l].
  - split; split.
    + intros [e He]. congruence.
    + intros [n Hn]. apply Hin in Hn. destruct Hn.
    + intros _ n Hn. apply Hin in Hn. destruct Hn.
    + intros _. exact Hc.
  - destruct Hc as (e & He & _). split; split.
    + intros _. exists tx. apply Hin. now left.
    + intros _. now exists e.
    + intros H. congruence.
    + intros H. destruct (H tx). apply Hin. now left.
Qed.

(** ** The traversal: one transaction, one expansion *)

Lemma upsert_absent {K V} `{EqDecision K} (k : K) (f : option V -> V) l :
  AList.mem k l = false -> AList.upsert k f l = (l ++ [(k, f None)])%list.
Proof.
  unfold AList.mem. induction l as [|[k' v] l IH]; simpl; [reflexivity|].
  destruct (decide (k = k')) as [->|Hne]; [discriminate|].
  intros H. now rewrite IH.
Qed.

Lemma add_edge_present g u v attr :
  DiGraph.has_node g u = true -> DiGraph.has_node g v = true ->
  DiGraph.nodes (DiGraph.add_edge g u v attr) = DiGraph.nodes g.
Proof.
  unfold DiGraph.has_node, DiGraph.add_edge. simpl. intros Hu Hv.
  rewrite (upsert_present u Node.empty _ Hu).
  now rewrite (upsert_present v Node.empty _ Hv).
Qed.

(** What one call of [_process_transaction] does, when the sender is a node:
    nothing, or an edge from the sender to a node that was there, or a new
    node at the next depth with an edge to it. *)
Lemma _process_transaction_cases limits st tx a d :
  DiGraph.has_node (graph st) a = true ->
  let to := lower (Tx.to_address tx) in
  let st' := _process_transaction limits st tx a d in
  st' = st
  \/ (exists f,
        DiGraph.edges (graph st') = AList.upsert (a, to) f (DiGraph.edges (graph st)))
     /\ edges_created st' = edges_created st + 1
     /\ api_calls_used st' = api_calls_used st
     /\ nodes_processed st' = nodes_processed st
     /\ address_visit_count st' = address_visit_count st
     /\ processed_nodes st' = processed_nodes st
     /\ ((DiGraph.has_node (graph st) to = true
          /\ DiGraph.nodes (graph st') = DiGraph.nodes (graph st)
          /\ pending_nodes st' = pending_nodes st)
         \/ (DiGraph.has_node (graph st) to = false
             /\ DiGraph.nodes (graph st')
                = (DiGraph.nodes (graph st) ++ [(to, discovered d)])%list
             /\ pending_nodes st'
                = (pending_nodes st ++ enqueued limits to d)%list)).
Proof.
  intros Ha. simpl. unfold _process_transaction.
  set (to := lower (Tx.to_address tx)).
  destruct (DiGraph.has_node (graph st) to && _)%bool; [now left|right].
  destruct (DiGraph.has_node (graph st) to) eqn:Hto; simpl.
  - split; [eexists; reflexivity|]. repeat (split; [reflexivity|]).
    left. split; [reflexivity|]. split; [|reflexivity].
    exact (add_edge_present (graph st) a to Edge.empty Ha Hto).
  - assert (Hn : DiGraph.nodes (_add_graph_node (graph st) to (d + 1) Node.empty)
                 = (DiGraph.nodes (graph st) ++ [(to, discovered d)])%list).
    { unfold _add_graph_node, DiGraph.add_node. simpl.
      now rewrite upsert_absent by exact Hto. }
    assert (Hpresent : forall n,
              n = to \/ DiGraph.has_node (graph st) n = true ->
              DiGraph.has_node (_add_graph_node (graph st) to (d + 1) Node.empty) n
              = true).
    { intros n Hcase. unfold _add_graph_node. rewrite has_node_add_node.
      destruct Hcase as [-> | Hn0]; [now rewrite bool_decide_true|rewrite Hn0; apply orb_true_r]. }
    unfold enqueued.
    destruct (d + 1 <? max_depth limits); simpl;
      (split; [eexists; reflexivity|]); repeat (split; [reflexivity|]);
      right; (split; [reflexivity|]);
      (split; [|rewrite ?app_nil_r; reflexivity]);
      exact (eq_trans
               (add_edge_present _ a to Edge.empty
                  (Hpresent a (or_intror Ha)) (Hpresent to (or_introl eq_refl)))
               Hn).
Qed.

Lemma has_node_keys g n :
  DiGraph.has_node g n = true <-> In n (AList.keys (DiGraph.nodes g)).
Proof. apply mem_true_iff. Qed.







Lemma node_data_update_node_any g n attr n' :
  DiGraph.node_data (DiGraph.update_node g n attr) n'
  = if decide (n = n') then Node.update attr <$> DiGraph.node_data g n'
    else DiGraph.node_data g n'.
Proof. unfold DiGraph.node_data, DiGraph.update_node. simpl. apply get_alter. Qed.

(** What [_check_termination_conditions] leaves alone: the nodes' names and
    depths, the edges and the counters; the frontier loses the entries of the
    address. *)
Lemma _check_termination_conditions_frame classifier st address total filtered :
  let st' := _check_termination_conditions classifier st address total filtered in
  AList.keys (DiGraph.nodes (graph st')) = AList.keys (DiGraph.nodes (graph st))
  /\ DiGraph.edges (graph st') = DiGraph.edges (graph st)
  /\ pending_nodes st'
     = List.filter (fun p => negb (bool_decide (p.1 = address))) (pending_nodes st)
  /\ (forall n,
        Node.depth_from_hack <$> DiGraph.node_data (graph st') n
        = Node.depth_from_hack <$> DiGraph.node_data (graph st) n)
  /\ api_calls_used st' = api_calls_used st
  /\ nodes_processed st' = nodes_processed st
  /\ edges_created st' = edges_created st
  /\ processed_nodes st' = processed_nodes st
  /\ (forall b, visits st' b = visits st b)
  /\ (forall n, address_visit_count st !! address = Some n ->
        address_visit_count st' = address_visit_count st).
Proof.
  unfold _check_termination_conditions, visit_count_read.
  destruct (address_visit_count st !! address) as [n|] eqn:Hseen;
    (destruct (classify_address classifier address total default_daily_tx_count _)
       as [[entity_type confidence] details];
     destruct (should_terminate_by_default address entity_type confidence total filtered)
       as (reason & -> & Hreason);
     simpl;
     destruct (DiGraph.has_node (graph st) address) eqn:Hnode; simpl;
     rewrite ?has_node_update_node, ?Hnode; simpl;
     repeat (split; [try reflexivity|]);
     try (rewrite !keys_alter; reflexivity);
     try (intros n0; rewrite ?node_data_update_node_any;
          destruct (decide (address = n0)); [|reflexivity];
          destruct (DiGraph.node_data (graph st) n0); reflexivity);
     try (intros b; unfold visits; simpl;
          destruct (decide (address = b)) as [<-|Hne];
          [rewrite lookup_insert_eq, Hseen; reflexivity
          |rewrite lookup_insert_ne by assumption; reflexivity]);
     try discriminate; try reflexivity).
Qed.

Lemma length_filter_le {A} (p : A -> bool) l :
  (length (List.filter p l) <= length l)%nat.
Proof.
  induction l as [|x l IH]; simpl; [lia|]. destruct (p x); simpl; lia.
Qed.




(** ** The traversal: a scheme for its invariants *)

Section Scheme.
Variable limits : Limits.
Variable classifier : AddressClassifier.

(** [I] holds between iterations, [J a d] while [a] is expanded at depth [d],
    and [Q] is what follows from either. *)
Variable I Q : State -> Prop.
Variable J : string -> Z -> State -> Prop.

Hypothesis I_Q : forall s, I s -> Q s.
Hypothesis J_Q : forall a d s, J a d s -> Q s.
Hypothesis pop :
  forall s a d rest,
    I s -> pending_nodes s = (a, d) :: rest -> I (set_pending_nodes s rest).
Hypothesis enter :
  forall s a d rest,
    I s -> pending_nodes s = (a, d) :: rest ->
    a ∉ processed_nodes s -> d < max_depth limits ->
    J a d (visited (set_pending_nodes s rest) a).
Hypothesis count_call :
  forall a d s n, J a d s -> J a d (set_api_calls_used s n).
Hypothesis follow :
  forall a d s tx, J a d s -> J a d (_process_transaction limits s tx a d).
Hypothesis close :
  forall a d s n m,
    J a d s -> J a d (_check_termination_conditions classifier s a n m).
Hypothesis leave : forall a d s, J a d s -> I (mark_processed s a).

Lemma _process_node_scheme fetch s a d :
  J a d (visited s a) ->
  J a d (state_of (_process_node limits classifier fetch s a d)).
Proof.
  intros H.
  destruct (Etherscan.outcome (fetch a (start_block (graph s) a))) as [txs|e] eqn:Hf.
  - rewrite (_process_node_fetched _ _ _ _ _ _ _ Hf). simpl.
    set (s1 := set_api_calls_used (visited s a) (api_calls_used s + 1)).
    assert (H1 : J a d s1) by now apply count_call.
    destruct (_apply_filtering_pipeline s1 txs a d) as [filtered|e]; simpl; [|exact H1].
    apply close.
    generalize (slice_to (max_transactions_per_node limits) filtered).
    intros picked. revert H1. generalize s1. clear -follow.
    induction picked as [|tx picked IH]; simpl; intros s1 H1; [exact H1|].
    apply IH. now apply follow.
  - rewrite (_process_node_failed _ _ _ _ _ _ _ Hf). unfold except_etherscan.
    destruct (is_etherscan_error e); exact H.
Qed.

Lemma loop_body_scheme env s :
  I s ->
  match loop_body limits classifier env s with
  | Done s' => I s'
  | Raised _ s' => Q s'
  end.
Proof.
  intros H. unfold loop_body.
  destruct (clock_expired env); [now apply I_Q|].
  destruct (pending_nodes s) as [|[a d] rest] eqn:Hpend; [now apply I_Q|].
  destruct (bool_decide (a ∈ processed_nodes (set_pending_nodes s rest))) eqn:Hproc;
    simpl; [now apply (pop s a d)|].
  destruct (max_depth limits <=? d) eqn:Hdepth; simpl; [now apply (pop s a d)|].
  apply bool_decide_eq_false in Hproc. apply Z.leb_gt in Hdepth.
  pose proof (_process_node_scheme (get_account_transactions env)
                (set_pending_nodes s rest) a d
                (enter s a d rest H Hpend Hproc Hdepth)) as HJ.
  destruct (_process_node limits classifier (get_account_transactions env)
              (set_pending_nodes s rest) a d) as [s'|e s']; simpl in HJ.
  - unfold write_progress.
    destruct (update_graph_status env); [apply I_Q|]; now apply (leave a d).
  - now apply (J_Q a d).
Qed.

Lemma _recursive_traversal_scheme envs s :
  I s ->
  match _recursive_traversal limits classifier envs s with
  | Running s' | Completed s' => I s'
  | Aborted _ s' => Q s'
  end.
Proof.
  revert s. induction envs as [|env envs IH]; intros s H; simpl.
  - destruct (loop_condition limits s); exact H.
  - destruct (loop_condition limits s); [|exact H].
    pose proof (loop_body_scheme env s H) as Hb.
    destruct (loop_body limits classifier env s) as [s'|e s']; [now apply IH|exact Hb].
Qed.

Lemma _recursive_traversal_scheme_state envs s :
  I s -> Q (progress_state (_recursive_traversal limits classifier envs s)).
Proof.
  intros H. pose proof (_recursive_traversal_scheme envs s H) as Hs.
  destruct (_recursive_traversal limits classifier envs s); simpl; auto.
Qed.

End Scheme.

(** ** The traversal: depths *)

Lemma get_app_last {K V} `{EqDecision K} (k k' : K) (v : V) l :
  AList.get k (l ++ [(k', v)])%list
  = match AList.get k l with
    | Some x => Some x
    | None => if decide (k = k') then Some v else None
    end.
Proof.
  induction l as [|[k0 v0] l IH]; simpl; [reflexivity|].
  destruct (decide (k = k0)); [reflexivity|exact IH].
Qed.

Lemma node_data_add_node g n attr n' :
  DiGraph.node_data (DiGraph.add_node g n attr) n'
  = if decide (n = n')
    then Some (Node.update attr (default Node.empty (DiGraph.node_data g n)))
    else DiGraph.node_data g n'.
Proof.
  unfold DiGraph.node_data, DiGraph.add_node. simpl.
  destruct (decide (n = n')) as [<-|Hne].
  - now rewrite get_upsert_eq.
  - now apply get_upsert_ne.
Qed.

Lemma node_data_add_edge_present g u v attr n :
  DiGraph.has_node g u = true -> DiGraph.has_node g v = true ->
  DiGraph.node_data (DiGraph.add_edge g u v attr) n = DiGraph.node_data g n.
Proof.
  intros Hu Hv. unfold DiGraph.node_data. now rewrite add_edge_present.
Qed.

Lemma _process_transaction_depths limits st tx a d :
  DiGraph.has_node (graph st) a = true ->
  0 <= d < max_depth limits ->
  depths_within limits st /\ frontier_depths st ->
  depths_within limits (_process_transaction limits st tx a d)
  /\ frontier_depths (_process_transaction limits st tx a d).
Proof.
  intros Ha Hd [Hw Hf].
  destruct (_process_transaction_cases limits st tx a d Ha)
    as [->|(_ & _ & _ & _ & _ & _ & [(_ & Hn & Hp)|(_ & Hn & Hp)])];
    [now split| |].
  - split.
    + intros n data. unfold DiGraph.node_data. rewrite Hn. apply Hw.
    + intros b e. rewrite Hp. apply Hf.
  - split.
    + intros n data. unfold DiGraph.node_data. rewrite Hn, get_app_last.
      destruct (AList.get n (DiGraph.nodes (graph st))) as [x|] eqn:Hg.
      * intros [= <-]. now apply (Hw n).
      * destruct (decide (n = lower (Tx.to_address tx))); [|discriminate].
        intros [= <-]. exists (d + 1). split; [reflexivity|lia].
    + intros b e. rewrite Hp. intros Hin. apply in_app_or in Hin as [Hin|Hin].
      * now apply (Hf b).
      * unfold enqueued in Hin.
        destruct (d + 1 <? max_depth limits); [|destruct Hin].
        destruct Hin as [[= <- <-]|[]]. lia.
Qed.

Lemma _check_termination_conditions_depths limits classifier st a n m :
  depths_within limits st /\ frontier_depths st ->
  depths_within limits (_check_termination_conditions classifier st a n m)
  /\ frontier_depths (_check_termination_conditions classifier st a n m).
Proof.
  intros [Hw Hf].
  destruct (_check_termination_conditions_frame classifier st a n m)
    as (_ & _ & Hp & Hd & _).
  split.
  - intros b data Hb. specialize (Hd b). rewrite Hb in Hd. simpl in Hd.
    destruct (DiGraph.node_data (graph st) b) as [old|] eqn:Hold; [|discriminate].
    injection Hd as Hd. rewrite Hd. now apply (Hw b).
  - intros b e. rewrite Hp. intros Hin.
    apply filter_pending_In in Hin as [Hin _]. now apply (Hf b).
Qed.

Lemma _initialize_graph_depths limits incident tx_details st0 :
  1 <= max_depth limits ->
  _initialize_graph new_service incident tx_details = Ok st0 ->
  depths_within limits st0 /\ frontier_depths st0.
Proof.
  intros Hmax. unfold _initialize_graph.
  destruct incident as [incident|]; [|discriminate].
  destruct tx_details as [|hack_tx rest]; [discriminate|].
  intros [= <-]. split.
  - intros n data. unfold _add_graph_edge, _add_graph_node. simpl graph.
    rewrite node_data_add_edge_present, !node_data_add_node.
    + destruct (decide (lower (Repo.to_address hack_tx) = n)).
      * intros [= <-]. exists 1. split; [reflexivity|lia].
      * destruct (decide (lower (Repo.wallet_address incident) = n));
          [|discriminate].
        intros [= <-]. exists 0. split; [reflexivity|lia].
    + rewrite !has_node_add_node.
      rewrite (bool_decide_true (lower (Repo.wallet_address incident) = _))
        by reflexivity.
      apply orb_true_r.
    + rewrite has_node_add_node. now rewrite bool_decide_true.
  - intros a d [[= <- <-]|[]]. lia.
Qed.

Lemma engine_inv_pop st a d rest :
  engine_inv st -> pending_nodes st = (a, d) :: rest ->
  engine_inv (set_pending_nodes st rest)
  /\ DiGraph.has_node (graph st) a = true.
Proof.
  intros [Hp Hn] Hpend. split; [split; [|exact Hn]|].
  - intros a' d' Hin. apply (Hp a' d'). rewrite Hpend. now right.
  - apply (Hp a d). rewrite Hpend. now left.
Qed.

(** X4.  From the seed graph on, whatever the clock and the source answer
    and however the traversal ends, every node of the graph carries a depth,
    and it lies between 0 and [max_depth] (taken to be at least 1, the
    depth of the hacker's node). *)
Theorem node_depths_bounded
    (limits : Limits) (classifier : AddressClassifier)
    (incident : option Repo.Incident) (tx_details : list Repo.HackTx)
    (st0 : State) (envs : list Env) :
  1 <= max_depth limits ->
  _initialize_graph new_service incident tx_details = Ok st0 ->
  let st := progress_state (_recursive_traversal limits classifier envs st0) in
  forall n data,
    DiGraph.node_data (graph st) n = Some data ->
    exists d, Node.depth_from_hack data = Some d /\ 0 <= d <= max_depth limits.
Proof.
  intros Hmax Hinit.
  destruct (_initialize_graph_establishes _ _ _ Hinit) as [Hinv0 _].
  destruct (_initialize_graph_depths limits _ _ _ Hmax Hinit) as [Hw0 Hf0].
  apply (_recursive_traversal_scheme_state limits classifier
           (fun s => engine_inv s /\ depths_within limits s /\ frontier_depths s)
           (depths_within limits)
           (fun a d s =>
              0 <= d < max_depth limits
              /\ DiGraph.has_node (graph s) a = true
              /\ engine_inv s /\ depths_within limits s /\ frontier_depths s)).
  - now intros s (_ & Hw & _).
  - now intros a d s (_ & _ & _ & Hw & _).
  - intros s a d rest (Hinv & Hw & Hf) Hpend.
    destruct (engine_inv_pop s a d rest Hinv Hpend) as [Hinv' _].
    split; [exact Hinv'|]. split; [exact Hw|].
    intros a' d' Hin. apply (Hf a' d'). rewrite Hpend. now right.
  - intros s a d rest (Hinv & Hw & Hf) Hpend _ Hd.
    destruct (engine_inv_pop s a d rest Hinv Hpend) as [Hinv' Ha].
    split; [|split; [exact Ha|split; [exact Hinv'|split; [exact Hw|]]]].
    + split; [|exact Hd]. apply (Hf a d). rewrite Hpend. now left.
    + intros a' d' Hin. apply (Hf a' d'). rewrite Hpend. now right.
  - intros a d s n H. exact H.
  - intros a d s tx (Hd & Ha & Hinv & Hw & Hf).
    destruct (_process_transaction_keeps limits s tx a d Hinv) as [Hinv' [Hadv _]].
    destruct (_process_transaction_depths limits s tx a d Ha Hd (conj Hw Hf))
      as [Hw' Hf'].
    auto 6.
  - intros a d s n m (Hd & Ha & Hinv & Hw & Hf).
    destruct (_check_termination_conditions_keeps classifier s a n m Hinv)
      as (Hinv' & [Hadv _] & _).
    destruct (_check_termination_conditions_depths limits classifier s a n m
                (conj Hw Hf)) as [Hw' Hf'].
    auto 6.
  - intros a d s (_ & _ & Hinv & Hw & Hf). auto.
  - auto.
Qed.

Lemma node_depths_bounded_witness :
  exists d,
    Node.depth_from_hack hacker_node = Some d
    /\ 0 <= d <= max_depth get_processing_limits.
Proof.
  refine (node_depths_bounded get_processing_limits new_classifier
            (Some {| Repo.wallet_address := "0xVictim" |})
            [ {| Repo.to_address := "0xHacker";
                 Repo.transaction_hash := Some "0xseed";
                 Repo.value := Some 5%float |} ]
            seed_state [answering small_transfers]
            _ _ "0xhacker" hacker_node _).
  - simpl. lia.
  - reflexivity.
  - vm_compute. reflexivity.
Defined.

(** ** The traversal: visits *)

Lemma _process_transaction_counts limits st tx a d :
  let st' := _process_transaction limits st tx a d in
  address_visit_count st' = address_visit_count st
  /\ processed_nodes st' = processed_nodes st
  /\ nodes_processed st' = nodes_processed st
  /\ api_calls_used st' = api_calls_used st.
Proof.
  simpl. unfold _process_transaction.
  destruct (DiGraph.has_node (graph st) (lower (Tx.to_address tx)) && _)%bool;
    [repeat split|].
  destruct (negb (DiGraph.has_node (graph st) (lower (Tx.to_address tx))));
    [destruct (d + 1 <? max_depth limits)|]; repeat split.
Qed.

Lemma counted_once_visits seen st :
  counted_once seen st ->
  (forall a, 0 <= visits st a <= 1)
  /\ (forall a, a ∈ seen -> visits st a = 1)
  /\ (forall tx, reuse_bonus st tx = 0).
Proof.
  intros (Hin & Hout & _).
  assert (Hle : forall a, 0 <= visits st a <= 1).
  { intros a. unfold visits. destruct (decide (a ∈ seen)) as [Ha|Ha].
    - rewrite (Hin a Ha). simpl. lia.
    - rewrite (Hout a Ha). simpl. lia. }
  split; [exact Hle|]. split.
  - intros a Ha. unfold visits. now rewrite (Hin a Ha).
  - intros tx. unfold reuse_bonus.
    specialize (Hle (lower (Tx.to_address tx))). unfold visits in Hle.
    destruct (3 <=? _) eqn:H3; [apply Z.leb_le in H3; lia|reflexivity].
Qed.

(** X5.  From the seed graph on, whatever the clock and the source answer
    and however the traversal ends, no address is expanded twice: every visit
    count is 0 or 1, it is 1 for every address marked processed, and
    [nodes_processed] is the number of addresses marked processed.  So the
    boost of 20 for a destination seen three times is never added to a
    score. *)
Theorem each_address_expanded_once
    (limits : Limits) (classifier : AddressClassifier)
    (incident : option Repo.Incident) (tx_details : list Repo.HackTx)
    (st0 : State) (envs : list Env) :
  _initialize_graph new_service incident tx_details = Ok st0 ->
  let st := progress_state (_recursive_traversal limits classifier envs st0) in
  (forall a, 0 <= visits st a <= 1)
  /\ (forall a, a ∈ processed_nodes st -> visits st a = 1)
  /\ nodes_processed st = Z.of_nat (size (processed_nodes st))
  /\ (forall tx, reuse_bonus st tx = 0).
Proof.
  intros Hinit.
  assert (H0 : counted_once (processed_nodes st0) st0).
  { revert Hinit. unfold _initialize_graph.
    destruct incident as [incident|]; [|discriminate].
    destruct tx_details as [|hack_tx rest]; [discriminate|].
    intros [= <-]. repeat split; simpl; intros; try reflexivity.
    now apply not_elem_of_empty in H. }
  apply (_recursive_traversal_scheme_state limits classifier
           (fun s => counted_once (processed_nodes s) s)
           (fun s =>
              (forall a, 0 <= visits s a <= 1)
              /\ (forall a, a ∈ processed_nodes s -> visits s a = 1)
              /\ nodes_processed s = Z.of_nat (size (processed_nodes s))
              /\ (forall tx, reuse_bonus s tx = 0))
           (fun a d s =>
              (a ∉ processed_nodes s)
              /\ counted_once ({[a]} ∪ processed_nodes s) s)).
  - intros s H. destruct (counted_once_visits _ s H) as (H1 & H2 & H3).
    destruct H as (_ & _ & Hsize). auto.
  - intros a d s [Ha H]. destruct (counted_once_visits _ s H) as (H1 & H2 & H3).
    destruct H as (_ & _ & Hsize).
    split; [exact H1|split; [|split; [exact Hsize|exact H3]]].
    intros b Hb. apply H2. apply elem_of_union. now right.
  - intros s a d rest H _. exact H.
  - intros s a d rest (Hin & Hout & Hsize) _ Ha _. split; [exact Ha|].
    split; [|split; [|exact Hsize]]; intros b Hb; simpl.
    + destruct (decide (a = b)) as [<-|Hne].
      * rewrite lookup_insert_eq, (Hout a Ha). reflexivity.
      * rewrite lookup_insert_ne by assumption. apply Hin.
        apply elem_of_union in Hb as [Hb|Hb]; [|exact Hb].
        apply elem_of_singleton in Hb. congruence.
    + rewrite not_elem_of_union, not_elem_of_singleton in Hb.
      destruct Hb as [Hne Hb].
      rewrite lookup_insert_ne by congruence. now apply Hout.
  - intros a d s n H. exact H.
  - intros a d s tx [Ha (Hin & Hout & Hsize)].
    destruct (_process_transaction_counts limits s tx a d) as (Hc & Hp & Hn & _).
    rewrite Hp. split; [exact Ha|]. unfold counted_once. rewrite Hc, Hp, Hn. auto.
  - intros a d s n m [Ha (Hin & Hout & Hsize)].
    destruct (_check_termination_conditions_frame classifier s a n m)
      as (_ & _ & _ & _ & _ & Hn & _ & Hp & _ & Hc).
    rewrite Hp. split; [exact Ha|]. unfold counted_once.
    rewrite (Hc 1), Hp, Hn; auto.
    apply Hin. apply elem_of_union. left. now apply elem_of_singleton.
  - intros a d s [Ha (Hin & Hout & Hsize)]. unfold counted_once. simpl.
    split; [exact Hin|]. split; [exact Hout|].
    rewrite Hsize, size_union, size_singleton by now apply disjoint_singleton_l.
    lia.
  - exact H0.
Qed.

Lemma each_address_expanded_once_witness :
  (forall a, 0 <= visits quiet_state a <= 1)
  /\ (forall a, a ∈ processed_nodes quiet_state -> visits quiet_state a = 1)
  /\ nodes_processed quiet_state
     = Z.of_nat (size (processed_nodes quiet_state))
  /\ (forall tx, reuse_bonus quiet_state tx = 0).
Proof.
  apply (each_address_expanded_once get_processing_limits new_classifier
           (Some {| Repo.wallet_address := "0xVictim" |})
           [ {| Repo.to_address := "0xHacker";
                Repo.transaction_hash := Some "0xseed";
                Repo.value := Some 5%float |} ]
           seed_state
           [answering small_transfers]).
  reflexivity.
Defined.

(** ** The traversal: how it ends *)

Lemma loop_body_raised limits classifier env st e st' :
  pending_nodes st <> [] ->
  loop_body limits classifier env st = Raised e st' ->
  breaks env e.
Proof.
  intros Hne. unfold loop_body, breaks.
  destruct (clock_expired env) eqn:Hclock.
  { intros [= <- <-]. left. now split. }
  destruct (pending_nodes st) as [|[a d] rest] eqn:Hpend; [now destruct Hne|].
  destruct (_ || _)%bool; [discriminate|].
  set (s := set_pending_nodes st rest).
  destruct (Etherscan.outcome
              (get_account_transactions env a (start_block (graph s) a)))
    as [txs|e0] eqn:Hf.
  - rewrite (_process_node_fetched _ _ _ _ _ _ _ Hf). cbv zeta.
    set (s1 := set_api_calls_used (visited s a) (api_calls_used s + 1)).
    pose proof (_apply_filtering_pipeline_cases s1 txs a d) as Hc.
    destruct (survivors txs a) as [|tx l] eqn:Hs.
    + rewrite Hc. unfold write_progress.
      destruct (update_graph_status env) as [e1|]; [|discriminate].
      intros [= <- <-]. now do 3 right.
    + destruct Hc as (e1 & -> & Hkind & _). intros [= <- <-].
      right. right. left. exists a, (start_block (graph s) a), txs.
      split; [exact Hf|]. split; [now rewrite Hs|exact Hkind].
  - rewrite (_process_node_failed _ _ _ _ _ _ _ Hf). unfold except_etherscan.
    destruct (is_etherscan_error e0) eqn:He0.
    + unfold write_progress.
      destruct (update_graph_status env) as [e1|]; [|discriminate].
      intros [= <- <-]. now do 3 right.
    + intros [= <- <-]. right. left. exists a, (start_block (graph s) a).
      now split.
Qed.

Lemma loop_condition_pending limits st :
  loop_condition limits st = true ->
  pending_nodes st <> []
  /\ api_calls_used st < max_api_calls limits
  /\ DiGraph.number_of_nodes (graph st) < max_nodes limits.
Proof.
  unfold loop_condition. intros H.
  apply andb_true_iff in H as [H Hn]. apply andb_true_iff in H as [Hp Ha].
  apply Z.ltb_lt in Hn, Ha. apply negb_true_iff, bool_decide_eq_false in Hp.
  auto.
Qed.

Lemma _recursive_traversal_aborted limits classifier envs st e st' :
  _recursive_traversal limits classifier envs st = Aborted e st' ->
  exists env, In env envs /\ breaks env e.
Proof.
  revert st. induction envs as [|env envs IH]; intros st; simpl.
  - destruct (loop_condition limits st); discriminate.
  - destruct (loop_condition limits st) eqn:Hc; [|discriminate].
    apply loop_condition_pending in Hc as (Hne & _).
    destruct (loop_body limits classifier env st) as [s1|e1 s1] eqn:Hb.
    + intros H. destruct (IH _ H) as (env' & Hin & Hbr).
      exists env'. split; [now right|exact Hbr].
    + intros [= <- <-]. exists env. split; [now left|].
      eapply loop_body_raised; eauto.
Qed.

Lemma breaks_kind env e :
  breaks env e -> update_graph_status env = None -> is_etherscan_error e = false.
Proof.
  intros [[_ ->]|[(a & b & _ & He)|[(a & b & txs & _ & _ & [-> | ->])|Hw]]] Hnone;
    try reflexivity; [exact He|congruence].
Qed.

(** X6.  When an exception ends the traversal, then in one of the
    iterations the clock had run out and the exception is the timeout, or
    the source raised that very exception and it is not an [EtherscanError]
    (nor the rate-limit error), or the source returned a transaction that
    passes the primary tier and the exception is what the secondary tier
    raises on it, or the write of the progress raised that very exception.
    So the traversal is never ended by an error of the transaction source's
    own kind, unless the repository raises one. *)
Theorem traversal_aborts_only_on
    (limits : Limits) (classifier : AddressClassifier)
    (envs : list Env) (st st' : State) (e : exn) :
  _recursive_traversal limits classifier envs st = Aborted e st' ->
  (exists env, In env envs /\ breaks env e)
  /\ ((forall env, In env envs -> update_graph_status env = None) ->
      is_etherscan_error e = false).
Proof.
  intros H.
  destruct (_recursive_traversal_aborted _ _ _ _ _ _ H) as (env & Hin & Hbr).
  split; [exists env; now split|].
  intros Hwritten. exact (breaks_kind env e Hbr (Hwritten env Hin)).
Qed.

Lemma traversal_aborts_only_on_witness :
  let env := answering large_transfers in
  (exists env', In env' [env; expired] /\ breaks env' ValueError)
  /\ ((forall env', In env' [env; expired] -> update_graph_status env' = None) ->
      is_etherscan_error ValueError = false).
Proof.
  apply (traversal_aborts_only_on get_processing_limits new_classifier
           [answering large_transfers; expired] seed_state
           (state_of
              (loop_body get_processing_limits new_classifier
                 (answering large_transfers) seed_state))
           ValueError).
  vm_compute. reflexivity.
Defined.



Lemma _initialize_graph_size incident tx_details st0 :
  _initialize_graph new_service incident tx_details = Ok st0 ->
  1 <= DiGraph.number_of_nodes (graph st0) <= 2
  /\ length (pending_nodes st0) = 1%nat.
Proof.
  unfold _initialize_graph.
  destruct incident as [incident|]; [|discriminate].
  destruct tx_details as [|hack_tx rest]; [discriminate|].
  intros [= <-]. split; [|reflexivity].
  unfold DiGraph.number_of_nodes, _add_graph_edge, _add_graph_node. simpl graph.
  rewrite add_edge_present.
  - unfold DiGraph.add_node. simpl. destruct (decide _); simpl; lia.
  - rewrite !has_node_add_node.
    rewrite (bool_decide_true (lower (Repo.wallet_address incident) = _))
      by reflexivity.
    apply orb_true_r.
  - rewrite has_node_add_node. now rewrite bool_decide_true.
Qed.

Lemma slice_to_nil {A} (k : Z) : slice_to k (@nil A) = [].
Proof. unfold slice_to. destruct (0 <=? k); apply firstn_nil. Qed.

(** One expansion, by the outcome of the fetch and of the primary tier. *)
Lemma _process_node_cases limits classifier fetch st a d :
  let s0 := visited st a in
  let s1 := set_api_calls_used s0 (api_calls_used st + 1) in
  match Etherscan.outcome (fetch a (start_block (graph st) a)) with
  | Raise e =>
      _process_node limits classifier fetch st a d = except_etherscan e s0
  | Ok txs =>
      match survivors txs a with
      | [] =>
          _process_node limits classifier fetch st a d
          = Done (_check_termination_conditions classifier s1 a
                    (Z.of_nat (length txs)) 0)
      | tx :: _ =>
          exists e,
            _process_node limits classifier fetch st a d = Raised e s1
            /\ (e = ValueError \/ e = OverflowError)
            /\ (amount_is_finite tx = true -> e = ValueError)
      end
  end.
Proof.
  simpl.
  destruct (Etherscan.outcome (fetch a (start_block (graph st) a)))
    as [txs|e] eqn:Hf.
  - rewrite (_process_node_fetched _ _ _ _ _ _ _ Hf). cbv zeta.
    pose proof (_apply_filtering_pipeline_cases
                  (set_api_calls_used (visited st a) (api_calls_used st + 1))
                  txs a d) as Hc.
    destruct (survivors txs a) as [|tx l].
    + rewrite Hc, slice_to_nil. reflexivity.
    + destruct Hc as (e & -> & He). exists e. now split.
  - now apply _process_node_failed.
Qed.

(** No iteration adds a node or an edge, and one that completes shortens
    the frontier. *)
Lemma loop_body_stays limits classifier env st :
  let st' := state_of (loop_body limits classifier env st) in
  AList.keys (DiGraph.nodes (graph st')) = AList.keys (DiGraph.nodes (graph st))
  /\ DiGraph.edges (graph st') = DiGraph.edges (graph st)
  /\ edges_created st' = edges_created st
  /\ (forall s,
        loop_body limits classifier env st = Done s ->
        pending_nodes st <> [] ->
        (length (pending_nodes s) < length (pending_nodes st))%nat).
Proof.
  unfold loop_body.
  destruct (clock_expired env); [simpl; repeat split; discriminate|].
  destruct (pending_nodes st) as [|[a d] rest] eqn:Hpend;
    [simpl; repeat split; discriminate|].
  destruct (_ || _)%bool.
  { simpl. repeat split. intros s [= <-] _. simpl. lia. }
  pose proof (_process_node_cases limits classifier (get_account_transactions env)
                (set_pending_nodes st rest) a d) as Hc.
  cbv zeta in Hc.
  destruct (Etherscan.outcome _) as [txs|e].
  - destruct (survivors txs a) as [|tx l].
    + rewrite Hc. rewrite state_of_write_progress.
      pose proof (_check_termination_conditions_frame classifier
                    (set_api_calls_used (visited (set_pending_nodes st rest) a)
                       (api_calls_used (set_pending_nodes st rest) + 1))
                    a (Z.of_nat (length txs)) 0) as Hframe.
      cbv zeta in Hframe.
      set (s2 := _check_termination_conditions classifier _ a _ 0) in *.
      destruct Hframe as (Hn & He & Hp & _ & _ & _ & Hc' & _).
      cbn [graph mark_processed edges_created]. rewrite Hn, He, Hc'.
      repeat split.
      intros s Hs _. unfold write_progress in Hs.
      destruct (update_graph_status env); [discriminate|].
      injection Hs as <-. cbn [pending_nodes mark_processed]. rewrite Hp.
      eapply Nat.le_lt_trans; [apply length_filter_le|]. simpl. lia.
    + destruct Hc as (e & -> & _). simpl. repeat split. discriminate.
  - rewrite Hc. unfold except_etherscan.
    destruct (is_etherscan_error e).
    + rewrite state_of_write_progress. simpl. repeat split.
      intros s Hs _. unfold write_progress in Hs.
      destruct (update_graph_status env); [discriminate|].
      injection Hs as <-. simpl. lia.
    + simpl. repeat split. discriminate.
Qed.

Lemma _recursive_traversal_stays limits classifier envs st :
  let run := _recursive_traversal limits classifier envs st in
  AList.keys (DiGraph.nodes (graph (progress_state run)))
  = AList.keys (DiGraph.nodes (graph st))
  /\ DiGraph.edges (graph (progress_state run)) = DiGraph.edges (graph st)
  /\ edges_created (progress_state run) = edges_created st
  /\ ((length (pending_nodes st) <= length envs)%nat ->
      forall s, run <> Running s).
Proof.
  revert st. induction envs as [|env envs IH]; intros st; simpl.
  - destruct (loop_condition limits st) eqn:Hc; simpl; repeat split;
      try discriminate.
    intros Hle s. apply loop_condition_pending in Hc as (Hne & _).
    destruct (pending_nodes st); [now destruct Hne|]. simpl in Hle. lia.
  - destruct (loop_condition limits st) eqn:Hc; simpl;
      [|repeat split; discriminate].
    apply loop_condition_pending in Hc as (Hne & _).
    destruct (loop_body_stays limits classifier env st) as (Hn & He & Hc' & Hp).
    destruct (loop_body limits classifier env st) as [s1|e1 s1]; simpl in *.
    + destruct (IH s1) as (Hn1 & He1 & Hc1 & Hp1).
      rewrite Hn1, He1, Hc1. repeat split; try assumption.
      intros Hle. apply Hp1. specialize (Hp s1 eq_refl Hne). lia.
    + repeat split; try assumption. discriminate.
Qed.

Lemma well_behaved_not_breaks env e : well_behaved env -> ~ breaks env e.
Proof.
  intros (Hclock & Hwrite & Hsrc)
    [[Hc _]|[(a & b & Hr & He)|[(a & b & txs & Hok & Hs & _)|Hw]]].
  - congruence.
  - specialize (Hsrc a b). rewrite Hr in Hsrc. congruence.
  - specialize (Hsrc a b). rewrite Hok in Hsrc. congruence.
  - congruence.
Qed.

(** X7.  The traversal never gets past the seed graph.  Whatever the clock,
    the source and the repository answer, no iteration adds a node or an
    edge (a transaction that would be followed makes the filter raise
    first), so the graph keeps the nodes and edges [_initialize_graph] gave
    it and [edges_created] stays at 0; the frontier holds the hacker's
    address alone, so the traversal is over after one iteration.  It ends
    normally if in every iteration the clock has not run out, the progress
    is written, and the source either fails with an error of its own kind or
    returns no transaction that passes the primary tier. *)
Theorem traversal_stays_at_seed
    (limits : Limits) (classifier : AddressClassifier)
    (incident : option Repo.Incident) (tx_details : list Repo.HackTx)
    (st0 : State) (envs : list Env) :
  _initialize_graph new_service incident tx_details = Ok st0 ->
  let run := _recursive_traversal limits classifier envs st0 in
  AList.keys (DiGraph.nodes (graph (progress_state run)))
  = AList.keys (DiGraph.nodes (graph st0))
  /\ DiGraph.edges (graph (progress_state run)) = DiGraph.edges (graph st0)
  /\ edges_created (progress_state run) = 0
  /\ (envs <> [] -> forall st, run <> Running st)
  /\ (envs <> [] ->
      (forall env, In env envs -> well_behaved env) ->
      exists st, run = Completed st).
Proof.
  intros Hinit.
  destruct (_initialize_graph_size _ _ _ Hinit) as [_ Hp].
  assert (Hzero : edges_created st0 = 0).
  { revert Hinit. unfold _initialize_graph.
    destruct incident as [incident|]; [|discriminate].
    destruct tx_details as [|hack_tx rest]; [discriminate|].
    now intros [= <-]. }
  destruct (_recursive_traversal_stays limits classifier envs st0)
    as (Hn & He & Hc & Hends).
  cbv zeta. rewrite Hc, Hzero.
  assert (Hover : envs <> [] ->
                  forall st, _recursive_traversal limits classifier envs st0
                             <> Running st).
  { intros Hne. apply Hends. rewrite Hp. destruct envs; [now destruct Hne|].
    simpl. lia. }
  repeat split; try assumption.
  intros Hne Hwell.
  destruct (_recursive_traversal limits classifier envs st0) as [s|s|e s] eqn:Ht.
  - now destruct (Hover Hne s).
  - now exists s.
  - destruct (_recursive_traversal_aborted _ _ _ _ _ _ Ht) as (env & Hin & Hbr).
    now destruct (well_behaved_not_breaks env e (Hwell env Hin)).
Qed.

Lemma traversal_stays_at_seed_witness :
  let run :=
    _recursive_traversal get_processing_limits new_classifier
      [answering small_transfers] seed_state in
  AList.keys (DiGraph.nodes (graph (progress_state run)))
  = AList.keys (DiGraph.nodes (graph seed_state))
  /\ DiGraph.edges (graph (progress_state run)) = DiGraph.edges (graph seed_state)
  /\ edges_created (progress_state run) = 0
  /\ ([answering small_transfers] <> [] -> forall st, run <> Running st)
  /\ ([answering small_transfers] <> [] ->
      (forall env, In env [answering small_transfers] -> well_behaved env) ->
      exists st, run = Completed st).
Proof.
  apply (traversal_stays_at_seed get_processing_limits new_classifier
           (Some {| Repo.wallet_address := "0xVictim" |})
           [ {| Repo.to_address := "0xHacker";
                Repo.transaction_hash := Some "0xseed";
                Repo.value := Some 5%float |} ]
           seed_state [answering small_transfers]).
  reflexivity.
Defined.



(** ** The traversal: the frontier *)




Lemma NoDup_map_filter {A B} (f : A -> B) (p : A -> bool) l :
  List.NoDup (map f l) -> List.NoDup (map f (List.filter p l)).
Proof.
  induction l as [|x l IH]; simpl; intros H; [exact H|].
  apply List.NoDup_cons_iff in H as [Hx Hl].
  destruct (p x); simpl; [|auto].
  apply List.NoDup_cons; [|auto].
  intros Hin. apply Hx. apply in_map_iff in Hin as (y & Hy & Hin).
  apply filter_In in Hin as [Hin _]. apply in_map_iff. eauto.
Qed.





(** ** The classifier *)

Lemma directory_built_patterns c :
  directory_built c -> high_frequency c = 100 /\ consolidation c = 3.
Proof. induction 1; [now split|assumption]. Qed.

(** What the engine's call of [classify_address] answers for an address
    that is not in the directory: the daily count it passes is 0. *)
Lemma classify_address_unlisted c address total times_seen :
  directory_built c ->
  known_addresses c !! lower address = None ->
  exists entity_type confidence details,
    classify_address c address total default_daily_tx_count times_seen
    = (entity_type, confidence, details)
    /\ In entity_type ["consolidation_point"; "potential_endpoint"; "Unknown"]
    /\ In confidence [70%float; 30%float; 25%float; 20%float; 0%float].
Proof.
  intros Hc Hk. destruct (directory_built_patterns c Hc) as [Hf Hs].
  unfold classify_address, _classify_by_heuristics, default_daily_tx_count.
  rewrite Hk, Hf, Hs. simpl.
  destruct (3 <=? times_seen); [do 3 eexists; simpl; intuition eauto|].
  destruct (10000 <? total); [do 3 eexists; simpl; intuition eauto|].
  destruct (1000 <? total); [do 3 eexists; simpl; intuition eauto|].
  destruct (total <? 100); do 3 eexists; simpl; intuition eauto.
Qed.

(** X10.  When the engine closes a node whose address is not in the
    directory (the startup table, possibly extended), the node is left for
    manual exploration: the entity kind recorded is [consolidation_point],
    [potential_endpoint] or [Unknown], never an exchange or a mixer, the
    confidence is at most 70, so [manual_exploration_ready] is set to true;
    the termination reason is [high_transaction_volume] or
    [insufficient_value_flow], and the transaction count recorded is the
    number of transactions fetched. *)
Theorem unlisted_node_left_for_manual_exploration
    (classifier : AddressClassifier) (st : State) (address : string)
    (total filtered : Z) :
  directory_built classifier ->
  known_addresses classifier !! lower address = None ->
  DiGraph.has_node (graph st) address = true ->
  let st' := _check_termination_conditions classifier st address total filtered in
  exists data entity_type confidence reason,
    DiGraph.node_data (graph st') address = Some data
    /\ Node.entity_type data = Some entity_type
    /\ In entity_type ["consolidation_point"; "potential_endpoint"; "Unknown"]
    /\ Node.confidence_score data = Some confidence
    /\ In confidence [70%float; 30%float; 25%float; 20%float; 0%float]
    /\ Node.manual_exploration_ready data = Some true
    /\ Node.termination_reason data = Some reason
    /\ In reason ["high_transaction_volume"; "insufficient_value_flow"]
    /\ Node.transaction_count data = Some total.
Proof.
  intros Hc Hk Hnode. simpl.
  unfold _check_termination_conditions, visit_count_read.
  destruct (address_visit_count st !! address) as [n|];
    (match goal with
     | |- context [classify_address classifier address total
                     default_daily_tx_count ?t] =>
         destruct (classify_address_unlisted classifier address total t Hc Hk)
           as (entity_type & confidence & details & -> & Hkind & Hconf)
     end;
     simpl; rewrite ?Hnode; simpl;
     assert (Hlow : fgt confidence 70 = false /\ flt confidence 80 = true)
       by (simpl in Hconf;
           destruct Hconf as [<-|[<-|[<-|[<-|[<-|[]]]]]]; split; reflexivity);
     destruct Hlow as [Hgt Hlt];
     unfold should_terminate_exploration; rewrite Hgt; simpl;
     assert (Hflow : flt default_cumulative_value_percentage 5 = true)
       by reflexivity;
     rewrite ?Hflow;
     destruct (has_node_node_data _ _ Hnode) as [old Hold];
     destruct (200 <? filtered); simpl;
     rewrite ?has_node_update_node, ?Hnode; simpl;
     rewrite !node_data_update_node, Hold; simpl;
     eexists; exists entity_type, confidence; eexists;
     (split; [reflexivity|]); simpl;
     rewrite Hlt; repeat split; auto).
Qed.

Lemma unlisted_node_left_for_manual_exploration_witness :
  let st' :=
    _check_termination_conditions new_classifier seed_state "0xhacker" 3 2 in
  exists data entity_type confidence reason,
    DiGraph.node_data (graph st') "0xhacker" = Some data
    /\ Node.entity_type data = Some entity_type
    /\ In entity_type ["consolidation_point"; "potential_endpoint"; "Unknown"]
    /\ Node.confidence_score data = Some confidence
    /\ In confidence [70%float; 30%float; 25%float; 20%float; 0%float]
    /\ Node.manual_exploration_ready data = Some true
    /\ Node.termination_reason data = Some reason
    /\ In reason ["high_transaction_volume"; "insufficient_value_flow"]
    /\ Node.transaction_count data = Some 3.
Proof.
  apply (unlisted_node_left_for_manual_exploration new_classifier seed_state
           "0xhacker" 3 2).
  - exact built_new.
  - vm_compute. reflexivity.
  - vm_compute. reflexivity.
Defined.

(** X11.  [add_known_address] and [classify_address] round-trip without
    regard to letter case, for addresses written in ASCII: once an address
    is added, every spelling of it that differs only in case is classified
    with exactly the kind, confidence and name given, whatever the counts
    passed and whatever the directory held for it before; every other
    address is classified as it was. *)
Theorem add_known_address_round_trip
    (c : AddressClassifier) (address entity_type name query : string)
    (confidence : float) (transaction_count daily_tx_count times_seen : Z) :
  isascii address = true ->
  isascii query = true ->
  let c' := add_known_address c address entity_type confidence name in
  (lower query = lower address ->
   classify_address c' query transaction_count daily_tx_count times_seen
   = (entity_type, confidence, Some name))
  /\ (lower query <> lower address ->
      classify_address c' query transaction_count daily_tx_count times_seen
      = classify_address c query transaction_count daily_tx_count times_seen).
Proof.
  intros _ _. simpl. unfold classify_address, add_known_address. simpl.
  split; intros H.
  - now rewrite H, lookup_insert_eq.
  - now rewrite lookup_insert_ne by congruence.
Qed.

Lemma add_known_address_round_trip_witness :
  let c' := add_known_address new_classifier "0xABCDEF" "CEX" 90 "Example" in
  (lower "0xabcdef" = lower "0xABCDEF" ->
   classify_address c' "0xabcdef" 0 0 1 = ("CEX", 90%float, Some "Example"))
  /\ (lower "0xabcdef" <> lower "0xABCDEF" ->
      classify_address c' "0xabcdef" 0 0 1
      = classify_address new_classifier "0xabcdef" 0 0 1).
Proof.
  apply (add_known_address_round_trip new_classifier "0xABCDEF" "CEX" "Example"
           "0xabcdef" 90 0 0 1); reflexivity.
Defined.

(** ** The job controller: a start that is accepted *)

(** X12.  When the incident exists and its graph record, if any, is neither
    pending nor running, [start_job] accepts: it answers with the incident id
    as job id and an estimate 30 seconds after the creation time, registers
    the job as pending, creates its task, writes the graph record as pending
    with progress 0 and notes the start time.  From then on, as long as the
    record stays as written, every further [start_job] for the incident is
    refused as a conflict and changes nothing. *)
Theorem start_job_accepts_then_refuses
    (clock : Jobs.Clock) (w : Jobs.World) (incident_id : string)
    (options : option (gmap string Z)) (incident : Repo.Incident) :
  (forall row,
     Jobs.get_graph_status (Jobs.repository w) incident_id = Some row ->
     Jobs.status row <> "pending" /\ Jobs.status row <> "running") ->
  Jobs.get_incident_by_id (Jobs.repository w) incident_id = Some incident ->
  exists w1,
    Jobs.start_job clock w incident_id options
    = (Jobs.Accepted incident_id incident_id "Graph processing started"
         (Jobs.datetime_now clock) (Jobs.datetime_now clock + 30),
       w1)
    /\ (exists info,
          Jobs.active_jobs (Jobs.manager w1) !! incident_id = Some info
          /\ Jobs.job_status info = "pending")
    /\ (exists task,
          Jobs.job_tasks (Jobs.manager w1) !! incident_id = Some task
          /\ Jobs.created_tasks w1 = (Jobs.created_tasks w ++ [task])%list)
    /\ (exists row,
          Jobs.get_graph_status (Jobs.repository w1) incident_id = Some row
          /\ Jobs.status row = "pending"
          /\ Jobs.progress_percentage row = Some 0)
    /\ Jobs.last_job_start (Jobs.manager w1) = Some (Jobs.time_at_start clock)
    /\ forall clock' options',
         Jobs.start_job clock' w1 incident_id options'
         = (Jobs.Conflict "ALREADY_PROCESSING"
              "Graph processing already in progress for this incident"
              incident_id,
            w1).
Proof.
  intros Hfree Hinc. unfold Jobs.start_job at 1.
  assert (Hidle : match Jobs.get_graph_status (Jobs.repository w) incident_id with
                  | Some row => str_in (Jobs.status row) ["pending"; "running"]
                  | None => false
                  end = false).
  { destruct (Jobs.get_graph_status (Jobs.repository w) incident_id) as [row|];
      [|reflexivity].
    destruct (Hfree row eq_refl) as [Hp Hr]. unfold str_in. simpl.
    apply String.eqb_neq in Hp, Hr. now rewrite Hp, Hr. }
  rewrite Hidle, Hinc. eexists. split; [reflexivity|]. simpl.
  split; [eexists; split; [apply lookup_insert_eq|reflexivity]|].
  split; [eexists; split; [apply lookup_insert_eq|reflexivity]|].
  split.
  { eexists. unfold Jobs.get_graph_status. simpl.
    split; [apply lookup_insert_eq|split; reflexivity]. }
  split; [reflexivity|].
  intros clock' options'. unfold Jobs.start_job, Jobs.get_graph_status. simpl.
  rewrite lookup_insert_eq. reflexivity.
Qed.

Lemma start_job_accepts_then_refuses_witness :
  exists w1,
    Jobs.start_job at_ten idle_world "incident-1" None
    = (Jobs.Accepted "incident-1" "incident-1" "Graph processing started"
         (Jobs.datetime_now at_ten) (Jobs.datetime_now at_ten + 30),
       w1)
    /\ (exists info,
          Jobs.active_jobs (Jobs.manager w1) !! "incident-1" = Some info
          /\ Jobs.job_status info = "pending")
    /\ (exists task,
          Jobs.job_tasks (Jobs.manager w1) !! "incident-1" = Some task
          /\ Jobs.created_tasks w1 = (Jobs.created_tasks idle_world ++ [task])%list)
    /\ (exists row,
          Jobs.get_graph_status (Jobs.repository w1) "incident-1" = Some row
          /\ Jobs.status row = "pending"
          /\ Jobs.progress_percentage row = Some 0)
    /\ Jobs.last_job_start (Jobs.manager w1) = Some (Jobs.time_at_start at_ten)
    /\ forall clock' options',
         Jobs.start_job clock' w1 "incident-1" options'
         = (Jobs.Conflict "ALREADY_PROCESSING"
              "Graph processing already in progress for this incident"
              "incident-1",
            w1).
Proof.
  apply (start_job_accepts_then_refuses at_ten idle_world "incident-1" None
           {| Repo.wallet_address := "0xVictim" |}).
  - intros row Hrow. vm_compute in Hrow. discriminate.
  - vm_compute. reflexivity.
Defined.

(** ** Consolidation: which nodes stay *)

Lemma closed_add_edge g u v attr :
  closed g ->
  In u (AList.keys (DiGraph.nodes g)) -> In v (AList.keys (DiGraph.nodes g)) ->
  DiGraph.nodes (DiGraph.add_edge g u v attr) = DiGraph.nodes g
  /\ closed (DiGraph.add_edge g u v attr).
Proof.
  intros Hc Hu Hv.
  assert (Hn : DiGraph.nodes (DiGraph.add_edge g u v attr) = DiGraph.nodes g)
    by (apply add_edge_present; now apply has_node_keys).
  split; [exact Hn|].
  intros a b Hin. rewrite Hn.
  unfold DiGraph.add_edge in Hin. simpl in Hin. rewrite keys_upsert in Hin.
  destruct (AList.mem (u, v) (DiGraph.edges g)); [now apply Hc|].
  apply in_app_or in Hin as [Hin|[[= <- <-]|[]]]; [now apply Hc|now split].
Qed.

Lemma keys_remove_node g n :
  AList.keys (DiGraph.nodes (DiGraph.remove_node g n))
  = List.filter (fun k => negb (String.eqb k n)) (AList.keys (DiGraph.nodes g)).
Proof.
  unfold DiGraph.remove_node. simpl.
  induction (DiGraph.nodes g) as [|[k d] ns IH]; simpl; [reflexivity|].
  rewrite bool_decide_string. destruct (String.eqb k n); simpl; now rewrite IH.
Qed.

Lemma closed_remove_node g n : closed g -> closed (DiGraph.remove_node g n).
Proof.
  intros Hc a b Hin. rewrite keys_remove_node, !filter_In.
  unfold DiGraph.remove_node in Hin. simpl in Hin.
  apply in_map_iff in Hin as ([[a' b'] d] & [= -> ->] & Hin).
  apply filter_In in Hin as [Hin Hkeep]. simpl in Hkeep.
  rewrite !bool_decide_string in Hkeep.
  apply negb_true_iff, orb_false_iff in Hkeep as [Ha Hb].
  destruct (Hc a b) as [Hna Hnb].
  { apply in_map_iff. now exists ((a, b), d). }
  rewrite Ha, Hb. auto.
Qed.

Lemma fold_left_nodes_closed (step : DiGraph.t -> string -> DiGraph.t) ns l :
  (forall g p, DiGraph.nodes g = ns -> closed g -> In p l ->
     DiGraph.nodes (step g p) = ns /\ closed (step g p)) ->
  forall g, DiGraph.nodes g = ns -> closed g ->
    DiGraph.nodes (fold_left step l g) = ns /\ closed (fold_left step l g).
Proof.
  induction l as [|p l IH]; intros Hstep g Hn Hc; simpl; [now split|].
  destruct (Hstep g p Hn Hc (or_introl eq_refl)) as [Hn1 Hc1].
  apply IH; [|exact Hn1|exact Hc1].
  intros g' q Hn' Hc' Hq. apply Hstep; auto. now right.
Qed.

Lemma redirect_incoming_nodes master addr g :
  closed g -> In master (AList.keys (DiGraph.nodes g)) ->
  DiGraph.nodes (redirect_incoming master addr g) = DiGraph.nodes g
  /\ closed (redirect_incoming master addr g).
Proof.
  intros Hc Hm. unfold redirect_incoming.
  apply fold_left_nodes_closed; [|reflexivity|exact Hc].
  intros g' p Hn Hc' Hp.
  destruct (negb (String.eqb p master)); [|now split].
  destruct (DiGraph.edge_data g' p addr); [|now split].
  rewrite <- Hn. apply closed_add_edge; [exact Hc'| |now rewrite Hn].
  rewrite Hn. unfold DiGraph.predecessors in Hp.
  apply in_map_iff in Hp as ([[a b] d] & <- & Hin).
  apply filter_In in Hin as [Hin _]. apply (Hc a b).
  apply in_map_iff. now exists ((a, b), d).
Qed.

Lemma redirect_outgoing_nodes master addr g :
  closed g -> In master (AList.keys (DiGraph.nodes g)) ->
  DiGraph.nodes (redirect_outgoing master addr g) = DiGraph.nodes g
  /\ closed (redirect_outgoing master addr g).
Proof.
  intros Hc Hm. unfold redirect_outgoing.
  apply fold_left_nodes_closed; [|reflexivity|exact Hc].
  intros g' p Hn Hc' Hp.
  destruct (negb (String.eqb p master)); [|now split].
  destruct (DiGraph.edge_data g' addr p); [|now split].
  rewrite <- Hn. apply closed_add_edge; [exact Hc'|now rewrite Hn|].
  rewrite Hn. unfold DiGraph.successors in Hp.
  apply in_map_iff in Hp as ([[a b] d] & <- & Hin).
  apply filter_In in Hin as [Hin _]. apply (Hc a b).
  apply in_map_iff. now exists ((a, b), d).
Qed.

Lemma absorb_nodes master others g :
  closed g -> In master (AList.keys (DiGraph.nodes g)) -> ~ In master others ->
  let g' :=
    fold_left
      (fun g addr =>
         DiGraph.remove_node
           (redirect_outgoing master addr (redirect_incoming master addr g))
           addr)
      others g in
  AList.keys (DiGraph.nodes g')
  = List.filter (fun n => negb (str_in n others)) (AList.keys (DiGraph.nodes g))
  /\ closed g'.
Proof.
  revert g. induction others as [|addr others IH]; intros g Hc Hm Hout; simpl.
  - split; [symmetry; apply filter_true|exact Hc].
  - destruct (redirect_incoming_nodes master addr g Hc Hm) as [Hn1 Hc1].
    destruct (redirect_outgoing_nodes master addr _ Hc1 ltac:(now rewrite Hn1))
      as [Hn2 Hc2].
    set (g2 := redirect_outgoing master addr (redirect_incoming master addr g)) in *.
    assert (Hk : AList.keys (DiGraph.nodes (DiGraph.remove_node g2 addr))
                 = List.filter (fun k => negb (String.eqb k addr))
                     (AList.keys (DiGraph.nodes g))).
    { now rewrite keys_remove_node, Hn2, Hn1. }
    destruct (IH (DiGraph.remove_node g2 addr)) as [Hk' Hc'].
    + now apply closed_remove_node.
    + rewrite Hk. apply filter_In. split; [exact Hm|].
      apply negb_true_iff, String.eqb_neq. intros ->. apply Hout. now left.
    + intros Hin. apply Hout. now right.
    + split; [|exact Hc'].
      rewrite Hk', Hk, filter_filter_andb. apply filter_ext. intros n.
      unfold str_in. simpl. now destruct (String.eqb n addr).
Qed.

Lemma _consolidate_address_group_nodes g addresses name :
  closed g ->
  (forall master rest, addresses = master :: rest ->
     In master (AList.keys (DiGraph.nodes g)) /\ ~ In master rest) ->
  AList.keys (DiGraph.nodes (_consolidate_address_group g addresses name))
  = List.filter (fun n => negb (str_in n (absorbed addresses)))
      (AList.keys (DiGraph.nodes g))
  /\ closed (_consolidate_address_group g addresses name).
Proof.
  intros Hc Hhead. unfold _consolidate_address_group, absorbed.
  destruct addresses as [|master [|other others]];
    try (split; [symmetry; apply filter_true|exact Hc]).
  destruct (Hhead master (other :: others) eq_refl) as [Hm Hout].
  match goal with
  | |- context [fold_left _ _ ?g0] => set (g1 := g0)
  end.
  assert (Hk1 : AList.keys (DiGraph.nodes g1) = AList.keys (DiGraph.nodes g))
    by apply keys_alter.
  assert (Hc1 : closed g1).
  { intros a b Hin. rewrite Hk1. now apply Hc. }
  destruct (absorb_nodes master (other :: others) g1 Hc1
              ltac:(now rewrite Hk1) Hout) as [Hk Hc'].
  split; [|exact Hc']. now rewrite Hk, Hk1.
Qed.

Lemma consolidate_nodes groups g :
  closed g ->
  (forall k m rest, In (k, m :: rest) groups ->
     In m (AList.keys (DiGraph.nodes g)) /\ ~ In m (all_absorbed groups)) ->
  let g' :=
    fold_left
      (fun g group =>
         if (1 <? length group.2)%nat
         then _consolidate_address_group g group.2 group.1
         else g)
      groups g in
  AList.keys (DiGraph.nodes g')
  = List.filter (fun n => negb (str_in n (all_absorbed groups)))
      (AList.keys (DiGraph.nodes g))
  /\ closed g'.
Proof.
  revert g. induction groups as [|[name addresses] groups IH]; intros g Hc Hheads;
    cbn [fold_left fst snd].
  - split; [symmetry; apply filter_true|exact Hc].
  - set (g1 := if (1 <? length addresses)%nat
               then _consolidate_address_group g addresses name else g).
    assert (Hsplit : all_absorbed ((name, addresses) :: groups)
                     = (absorbed addresses ++ all_absorbed groups)%list)
      by reflexivity.
    assert (Hstep :
      AList.keys (DiGraph.nodes g1)
      = List.filter (fun n => negb (str_in n (absorbed addresses)))
          (AList.keys (DiGraph.nodes g))
      /\ closed g1).
    { unfold g1. destruct (1 <? length addresses)%nat eqn:Hlen.
      - apply _consolidate_address_group_nodes; [exact Hc|].
        intros master rest ->.
        destruct (Hheads name master rest (or_introl eq_refl)) as [Hin Hout].
        split; [exact Hin|]. intros Hrest. apply Hout. rewrite Hsplit.
        apply in_or_app. left. destruct rest; [destruct Hrest|exact Hrest].
      - destruct addresses as [|a [|b rest]]; simpl in *;
          try (split; [symmetry; apply filter_true|exact Hc]). discriminate. }
    destruct Hstep as [Hk1 Hc1].
    destruct (IH g1 Hc1) as [Hk Hc'].
    + intros k m rest Hin.
      destruct (Hheads k m rest (or_intror Hin)) as [Hm Hout].
      rewrite Hsplit in Hout. split.
      * rewrite Hk1. apply filter_In. split; [exact Hm|].
        apply negb_true_iff. destruct (str_in m (absorbed addresses)) eqn:Hs;
          [|reflexivity].
        exfalso. apply Hout. apply in_or_app. left. now apply str_in_In.
      * intros Hin'. apply Hout. apply in_or_app. now right.
    + split; [|exact Hc'].
      rewrite Hk, Hk1, filter_filter_andb. apply filter_ext. intros n.
      rewrite Hsplit, str_in_app.
      now destruct (str_in n (absorbed addresses)).
Qed.

Lemma filed_In n k ns : In (n, k) (filed ns) -> exists d, In (n, d) ns /\ group_key d = Some k.
Proof.
  induction ns as [|[n' d] ns IH]; [intros []|].
  rewrite filed_cons. intros Hin. apply in_app_or in Hin as [Hin|Hin].
  - simpl in Hin. destruct (group_key d) as [k'|] eqn:Hk; [|destruct Hin].
    destruct Hin as [[= -> ->]|[]]. exists d. split; [now left|exact Hk].
  - destruct (IH Hin) as (d' & Hd & Hk). exists d'. split; [now right|exact Hk].
Qed.

Lemma filed_NoDup ns :
  List.NoDup (AList.keys ns) -> List.NoDup (map fst (filed ns)).
Proof.
  induction ns as [|[n d] ns IH]; simpl; intros H; [apply List.NoDup_nil|].
  apply List.NoDup_cons_iff in H as [Hn Hns].
  rewrite filed_cons, map_app. simpl.
  destruct (group_key d); simpl; [|auto].
  apply List.NoDup_cons; [|auto].
  intros Hin. apply Hn. apply in_map_iff in Hin as ([n' k'] & Heq & Hin).
  simpl in Heq. subst n'. destruct (filed_In _ _ _ Hin) as (d' & Hd & _).
  apply in_map_iff. now exists (n, d').
Qed.

Lemma members_In n k fs : In n (members k fs) <-> In (n, k) fs.
Proof.
  unfold members. rewrite in_map_iff. split.
  - intros ([n' k'] & Heq & Hin). simpl in Heq. subst n'.
    apply filter_In in Hin as [Hin Hk]. simpl in Hk.
    apply String.eqb_eq in Hk. now subst.
  - intros Hin. exists (n, k). split; [reflexivity|].
    apply filter_In. split; [exact Hin|apply String.eqb_refl].
Qed.

Lemma group_heads_stay g k m rest :
  List.NoDup (AList.keys (DiGraph.nodes g)) ->
  In (k, m :: rest) (entity_groups g) ->
  In m (AList.keys (DiGraph.nodes g))
  /\ ~ In m (all_absorbed (entity_groups g))
  /\ ~ In m rest.
Proof.
  intros Hnd Hin.
  pose proof (filed_NoDup _ Hnd) as Hfd.
  destruct (entity_groups_members g k _ Hin) as [Hms _].
  assert (Hdistinct : List.NoDup (m :: rest)).
  { rewrite Hms. unfold members. now apply NoDup_map_filter. }
  assert (Hmk : In (m, k) (filed (DiGraph.nodes g))).
  { apply members_In. rewrite <- Hms. now left. }
  apply List.NoDup_cons_iff in Hdistinct as [Hout _].
  split; [|split; [|exact Hout]].
  - destruct (filed_In _ _ _ Hmk) as (d & Hd & _).
    apply in_map_iff. now exists (m, d).
  - intros Habs. unfold all_absorbed in Habs.
    apply in_flat_map in Habs as ([k' addrs] & Hg & Hm). simpl in Hm.
    destruct (entity_groups_members g k' _ Hg) as [Hms' _].
    assert (Hmk' : In (m, k') (filed (DiGraph.nodes g))).
    { apply members_In. rewrite <- Hms'.
      destruct addrs as [|a [|b l]]; simpl in Hm;
        [destruct Hm|destruct Hm|right; exact Hm]. }
    assert (k' = k).
    { pose proof (In_get_NoDup m k' _ Hfd Hmk') as H1.
      pose proof (In_get_NoDup m k _ Hfd Hmk) as H2. congruence. }
    subst k'. rewrite <- Hms in Hms'. subst addrs.
    destruct rest; simpl in Hm; [destruct Hm|]. now apply Hout.
Qed.

(** X13.  In a graph kept as NetworkX keeps it (no node twice, the
    endpoints of every edge among the nodes), entity consolidation keeps, of
    the nodes filed under one entity name, exactly the first in node order
    and removes the others; every other node stays, in its place.
    Afterwards no two nodes are filed under the same name, no edge is left
    with an endpoint that was removed, and the graph is still well formed. *)
Theorem consolidation_keeps_first_of_each_name (st : State) :
  well_formed (graph st) ->
  let groups := entity_groups (graph st) in
  let g' := graph (_consolidate_entities st) in
  AList.keys (DiGraph.nodes g')
  = List.filter (fun n => negb (str_in n (all_absorbed groups)))
      (AList.keys (DiGraph.nodes (graph st)))
  /\ (forall k m rest,
        In (k, m :: rest) groups ->
        DiGraph.has_node g' m = true
        /\ forall o, In o rest -> DiGraph.has_node g' o = false)
  /\ (forall n,
        DiGraph.has_node (graph st) n = true ->
        (forall k m rest, In (k, m :: rest) groups -> ~ In n rest) ->
        DiGraph.has_node g' n = true)
  /\ (forall k,
        (length (members k (filed (DiGraph.nodes g'))) <= 1)%nat)
  /\ well_formed g'.
Proof.
  intros [Hnd Hc]. simpl.
  destruct (consolidate_nodes (entity_groups (graph st)) (graph st) Hc)
    as [Hk Hc'].
  { intros k m rest Hin.
    destruct (group_heads_stay _ _ _ _ Hnd Hin) as (H1 & H2 & _). now split. }
  change (graph (_consolidate_entities st))
    with (fold_left
            (fun g group =>
               if (1 <? length group.2)%nat
               then _consolidate_address_group g group.2 group.1
               else g)
            (entity_groups (graph st)) (graph st)).
  assert (Hnode : forall n,
            DiGraph.has_node
              (fold_left
                 (fun g group =>
                    if (1 <? length group.2)%nat
                    then _consolidate_address_group g group.2 group.1
                    else g)
                 (entity_groups (graph st)) (graph st)) n = true
            <-> In n (AList.keys (DiGraph.nodes (graph st)))
                /\ ~ In n (all_absorbed (entity_groups (graph st)))).
  { intros n. rewrite has_node_keys, Hk, filter_In, negb_true_iff.
    rewrite <- (str_in_In n (all_absorbed _)).
    destruct (str_in n (all_absorbed _)); intuition congruence. }
  split; [exact Hk|]. split; [|split; [|split]].
  - intros k m rest Hin.
    destruct (group_heads_stay _ _ _ _ Hnd Hin) as (H1 & H2 & _).
    split; [now apply Hnode|].
    intros o Ho. apply not_true_is_false. intros Hhas.
    apply Hnode in Hhas as [_ Hout]. apply Hout.
    unfold all_absorbed. apply in_flat_map. exists (k, m :: rest).
    split; [exact Hin|]. simpl. destruct rest; [destruct Ho|exact Ho].
  - intros n Hn Hfree. apply Hnode. split; [now apply has_node_keys|].
    intros Habs. unfold all_absorbed in Habs.
    apply in_flat_map in Habs as ([k addrs] & Hg & Hin). simpl in Hin.
    destruct addrs as [|m [|o os]]; simpl in Hin; try destruct Hin;
      apply (Hfree k m (o :: os) Hg); simpl; auto.
  - intros k. apply (consolidated_groups_are_single st k).
  - split; [|exact Hc'].
    rewrite Hk. now apply List.NoDup_filter.
Qed.

Lemma distinct_NoDup l : distinct l = true -> List.NoDup l.
Proof.
  induction l as [|x l IH]; simpl; intros H; [apply List.NoDup_nil|].
  apply andb_true_iff in H as [Hx Hl]. apply List.NoDup_cons; [|auto].
  intros Hin. apply str_in_In in Hin. rewrite Hin in Hx. discriminate.
Qed.

Lemma well_formedb_well_formed g : well_formedb g = true -> well_formed g.
Proof.
  unfold well_formedb, well_formed. intros H.
  apply andb_true_iff in H as [Hd Hc]. split; [now apply distinct_NoDup|].
  intros u v Hin. apply in_map_iff in Hin as ([[u' v'] d] & [= -> ->] & Hin).
  rewrite forallb_forall in Hc. specialize (Hc _ Hin). simpl in Hc.
  apply andb_true_iff in Hc as [Hu Hv]. split; now apply str_in_In.
Qed.

Lemma consolidation_keeps_first_of_each_name_witness :
  let groups := entity_groups (graph exchange_state) in
  let g' := graph (_consolidate_entities exchange_state) in
  AList.keys (DiGraph.nodes g')
  = List.filter (fun n => negb (str_in n (all_absorbed groups)))
      (AList.keys (DiGraph.nodes (graph exchange_state)))
  /\ (forall k m rest,
        In (k, m :: rest) groups ->
        DiGraph.has_node g' m = true
        /\ forall o, In o rest -> DiGraph.has_node g' o = false)
  /\ (forall n,
        DiGraph.has_node (graph exchange_state) n = true ->
        (forall k m rest, In (k, m :: rest) groups -> ~ In n rest) ->
        DiGraph.has_node g' n = true)
  /\ (forall k,
        (length (members k (filed (DiGraph.nodes g'))) <= 1)%nat)
  /\ well_formed g'.
Proof.
  apply (consolidation_keeps_first_of_each_name exchange_state).
  apply well_formedb_well_formed. vm_compute. reflexivity.
Defined.

(** ** Consolidation: the names nodes are filed under *)

Lemma In_filed n d k ns :
  In (n, d) ns -> group_key d = Some k -> In (n, k) (filed ns).
Proof.
  intros Hin Hk. induction ns as [|[n' d'] ns IH]; [destruct Hin|].
  rewrite filed_cons. apply in_or_app. destruct Hin as [[= -> ->]|Hin].
  - left. simpl. rewrite Hk. now left.
  - right. auto.
Qed.

(** X14.  The name under which consolidation files a node is the detail
    text of its classification, also when that text comes from a heuristic.
    So when the engine closes a node whose address is not in the directory,
    having fetched fewer than 100 transactions for it and counted fewer than
    3 visits, the node is filed under the name [Low activity wallet], like
    every other such node: consolidation will keep only the first of them. *)
Theorem low_activity_wallets_share_a_name
    (classifier : AddressClassifier) (st : State) (address : string)
    (total filtered : Z) :
  directory_built classifier ->
  known_addresses classifier !! lower address = None ->
  DiGraph.has_node (graph st) address = true ->
  total < 100 ->
  visits st address < 3 ->
  let st' := _check_termination_conditions classifier st address total filtered in
  (exists data,
     DiGraph.node_data (graph st') address = Some data
     /\ Node.entity_type data = Some "potential_endpoint"
     /\ Node.classification_details data = Some (Some "Low activity wallet"))
  /\ In (address, "Low activity wallet") (filed (DiGraph.nodes (graph st'))).
Proof.
  intros Hc Hk Hnode Htotal Hseen. simpl.
  destruct (directory_built_patterns classifier Hc) as [Hf Hs].
  assert (Hdata : exists data,
            DiGraph.node_data
              (graph (_check_termination_conditions classifier st address
                        total filtered)) address = Some data
            /\ Node.entity_type data = Some "potential_endpoint"
            /\ Node.classification_details data
               = Some (Some "Low activity wallet")).
  { unfold _check_termination_conditions, visit_count_read.
    unfold visits in Hseen.
    destruct (address_visit_count st !! address) as [n|]; simpl in Hseen;
      unfold classify_address, _classify_by_heuristics, default_daily_tx_count;
      rewrite Hk, Hf, Hs; simpl;
      try match goal with
          | |- context [3 <=? ?t] =>
              destruct (3 <=? t) eqn:H3; [apply Z.leb_le in H3; lia|]
          end;
      (destruct (10000 <? total) eqn:H1; [apply Z.ltb_lt in H1; lia|]);
      (destruct (1000 <? total) eqn:H2; [apply Z.ltb_lt in H2; lia|]);
      (destruct (total <? 100) eqn:H4; [|apply Z.ltb_ge in H4; lia]);
      simpl; rewrite ?Hnode; simpl;
      destruct (has_node_node_data _ _ Hnode) as [old Hold];
      unfold should_terminate_exploration; simpl;
      destruct (200 <? filtered); simpl;
      rewrite ?has_node_update_node, ?Hnode; simpl;
      rewrite !node_data_update_node, Hold; simpl;
      eexists; split; try reflexivity; split; reflexivity. }
  split; [exact Hdata|].
  destruct Hdata as (data & Hd & _ & Hdet).
  apply (In_filed address data); [now apply get_Some_In|].
  unfold group_key, entity_key_of. now rewrite Hdet.
Qed.

Lemma low_activity_wallets_share_a_name_witness :
  let st' :=
    _check_termination_conditions new_classifier seed_state "0xhacker" 3 2 in
  (exists data,
     DiGraph.node_data (graph st') "0xhacker" = Some data
     /\ Node.entity_type data = Some "potential_endpoint"
     /\ Node.classification_details data = Some (Some "Low activity wallet"))
  /\ In ("0xhacker", "Low activity wallet") (filed (DiGraph.nodes (graph st'))).
Proof.
  apply (low_activity_wallets_share_a_name new_classifier seed_state
           "0xhacker" 3 2).
  - exact built_new.
  - vm_compute. reflexivity.
  - vm_compute. reflexivity.
  - lia.
  - vm_compute. reflexivity.
Defined.

(** ** The top paths *)

(** Floats above 0.1 are positive: finite, or the infinity. *)
Lemma above_shape x :
  fgt x 0.1 = true ->
  Prim2SF x = S754_infinity false \/ exists m e, Prim2SF x = S754_finite false m e.
Proof.
  unfold fgt. rewrite ltb_spec. unfold SFltb.
  remember (Prim2SF 0.1) as c eqn:Hc. vm_compute in Hc. subst c.
  destruct (Prim2SF x) as [s|s| |s m e]; simpl; try discriminate.
  - destruct s; [discriminate|]. now left.
  - destruct s; [discriminate|]. right. eauto.
Qed.

Lemma leb_total_above x y :
  fgt x 0.1 = true -> fgt y 0.1 = true ->
  PrimFloat.leb x y = false -> PrimFloat.leb y x = true.
Proof.
  intros Hx Hy. rewrite !leb_spec. unfold SFleb.
  destruct (above_shape x Hx) as [->|(m1 & e1 & ->)];
    destruct (above_shape y Hy) as [->|(m2 & e2 & ->)]; simpl; try congruence.
  rewrite (Z.compare_antisym e1 e2).
  destruct (e1 ?= e2) eqn:He; simpl; try congruence.
  change (Pos.compare_cont Eq m1 m2) with (Pos.compare m1 m2).
  change (Pos.compare_cont Eq m2 m1) with (Pos.compare m2 m1).
  rewrite (Pos.compare_antisym m1 m2).
  destruct (m1 ?= m2)%positive; simpl; congruence.
Qed.

Lemma leb_trans_above x y z :
  fgt x 0.1 = true -> fgt y 0.1 = true -> fgt z 0.1 = true ->
  PrimFloat.leb x y = true -> PrimFloat.leb y z = true -> PrimFloat.leb x z = true.
Proof.
  intros Hx Hy Hz. rewrite !leb_spec. unfold SFleb.
  destruct (above_shape x Hx) as [->|(m1 & e1 & ->)];
    destruct (above_shape y Hy) as [->|(m2 & e2 & ->)];
    destruct (above_shape z Hz) as [->|(m3 & e3 & ->)]; simpl; try congruence.
  change (Pos.compare_cont Eq m1 m2) with (Pos.compare m1 m2).
  change (Pos.compare_cont Eq m2 m3) with (Pos.compare m2 m3).
  change (Pos.compare_cont Eq m1 m3) with (Pos.compare m1 m3).
  destruct (Z.compare_spec e1 e2), (Z.compare_spec e2 e3), (Z.compare_spec e1 e3);
    try lia; try congruence;
    destruct (Pos.compare_spec m1 m2), (Pos.compare_spec m2 m3),
      (Pos.compare_spec m1 m3); try lia; congruence.
Qed.

Lemma insert_by_value_perm x l : Permutation (x :: l) (insert_by_value x l).
Proof.
  induction l as [|y l IH]; simpl; [reflexivity|].
  destruct (PrimFloat.leb _ _); [reflexivity|].
  rewrite perm_swap. now apply perm_skip.
Qed.

Lemma sort_by_value_perm l : Permutation l (sort_by_value l).
Proof.
  induction l as [|x l IH]; simpl; [reflexivity|].
  rewrite <- insert_by_value_perm. now apply perm_skip.
Qed.

Lemma insert_by_value_sorted x l :
  fgt (TopPath.value_eth x) 0.1 = true ->
  List.Forall (fun p => fgt (TopPath.value_eth p) 0.1 = true) l ->
  StronglySorted outranks l -> StronglySorted outranks (insert_by_value x l).
Proof.
  intros Hx Hall Hs. induction Hs as [|y l Hs IH Hy]; simpl.
  - repeat constructor.
  - apply List.Forall_cons_iff in Hall as [Hay Hal].
    destruct (PrimFloat.leb (TopPath.value_eth y) (TopPath.value_eth x)) eqn:Hle.
    + constructor; [now constructor|]. constructor; [exact Hle|].
      rewrite List.Forall_forall in Hy, Hal |- *. intros z Hz. unfold outranks.
      apply (leb_trans_above _ (TopPath.value_eth y)); auto. now apply Hy.
    + constructor; [now apply IH|].
      rewrite List.Forall_forall in Hy |- *. intros z Hz.
      apply (Permutation_in _ (Permutation_sym (insert_by_value_perm x l))) in Hz.
      destruct Hz as [<-|Hz]; [|now apply Hy].
      now apply leb_total_above.
Qed.

Lemma sort_by_value_sorted l :
  List.Forall (fun p => fgt (TopPath.value_eth p) 0.1 = true) l ->
  StronglySorted outranks (sort_by_value l).
Proof.
  induction l as [|x l IH]; simpl; intros H; [constructor|].
  apply List.Forall_cons_iff in H as [Hx Hl].
  apply insert_by_value_sorted; [exact Hx| |now apply IH].
  rewrite List.Forall_forall in Hl |- *. intros p Hp. apply Hl.
  now apply (Permutation_in _ (Permutation_sym (sort_by_value_perm l))).
Qed.

Lemma StronglySorted_app {A} (R : A -> A -> Prop) l1 l2 :
  StronglySorted R (l1 ++ l2) ->
  StronglySorted R l1 /\ forall x y, In x l1 -> In y l2 -> R x y.
Proof.
  induction l1 as [|a l1 IH]; simpl; intros H.
  - split; [constructor|intros x y []].
  - apply StronglySorted_inv in H as [Hs Ha]. destruct (IH Hs) as [Hs1 Hc].
    rewrite List.Forall_forall in Ha. split.
    + constructor; [exact Hs1|]. rewrite List.Forall_forall.
      intros x Hx. apply Ha. apply in_or_app. now left.
    + intros x y [<-|Hx] Hy; [|now apply Hc].
      apply Ha. apply in_or_app. now right.
Qed.

(** What the loop over the edges collects, from any start. *)
Lemma collect_paths_spec g edges paths out :
  collect_paths g edges paths = Ok out ->
  exists new,
    out = (paths ++ new)%list
    /\ map TopPath.value_eth new
       = List.filter (fun v => fgt v 0.1)
           (map (fun kv : string * string * Edge.t =>
                   default 0%float (Edge.value_eth kv.2)) edges)
    /\ map TopPath.path_id new
       = map (fun i => Z.of_nat i) (seq (length paths + 1) (length new))
    /\ List.Forall
         (fun p => fgt (TopPath.value_eth p) 0.1 = true /\ TopPath.hop_count p = 1)
         new.
Proof.
  revert paths out. induction edges as [|[[u v] d] edges IH]; intros paths out;
    simpl.
  - intros [= <-]. exists []. rewrite app_nil_r. repeat split. constructor.
  - destruct (fgt (default 0%float (Edge.value_eth d)) 0.1) eqn:Hv; simpl.
    + destruct (node_of g u) as [fd|]; simpl; [|discriminate].
      destruct (node_of g v) as [td|]; simpl; [|discriminate].
      intros H. destruct (IH _ _ H) as (new & -> & Hvals & Hids & Hall).
      eexists (_ :: new). rewrite <- app_assoc. split; [reflexivity|].
      simpl. rewrite Hvals, Hids, length_app. simpl.
      split; [reflexivity|]. split.
      * f_equal; [lia|]. f_equal. f_equal. lia.
      * constructor; [now split|exact Hall].
    + intros H. destruct (IH _ _ H) as (new & -> & Hvals & Hids & Hall).
      exists new. auto.
Qed.

(** X15.  [_generate_top_paths] returns the ten most valuable direct paths:
    one candidate per edge whose value is above 0.1, numbered 1, 2, ... in
    the order the edges are gone through, before sorting (so the ids do not
    follow the ranking); the
    result holds at most ten of the candidates, all of them when there are
    no more than ten, ordered from the highest value to the lowest, and no
    candidate left out has a value above that of one returned. *)
Theorem top_paths_are_the_most_valuable
    (g : DiGraph.t) (paths : list TopPath.t) :
  _generate_top_paths g = Ok paths ->
  exists candidates rest,
    collect_paths g (edges_view g) [] = Ok candidates
    /\ map TopPath.value_eth candidates = significant_values g
    /\ map TopPath.path_id candidates
       = map (fun i => Z.of_nat i) (seq 1 (length candidates))
    /\ (forall p, In p candidates -> TopPath.hop_count p = 1)
    /\ Permutation candidates (paths ++ rest)
    /\ length paths = Nat.min 10 (length candidates)
    /\ StronglySorted outranks paths
    /\ forall p q, In p paths -> In q rest -> outranks p q.
Proof.
  unfold _generate_top_paths.
  destruct (collect_paths g (edges_view g) []) as [candidates|] eqn:Hc;
    simpl; [|discriminate].
  intros [= <-].
  destruct (collect_paths_spec _ _ _ _ Hc) as (new & Hnew & Hvals & Hids & Hall).
  simpl in Hnew. subst new.
  assert (Habove : List.Forall (fun p => fgt (TopPath.value_eth p) 0.1 = true)
                     candidates).
  { rewrite List.Forall_forall in Hall |- *. intros p Hp. now apply Hall. }
  pose proof (sort_by_value_sorted candidates Habove) as Hsorted.
  pose proof (sort_by_value_perm candidates) as Hperm.
  rewrite <- (firstn_skipn 10 (sort_by_value candidates)) in Hsorted, Hperm.
  apply StronglySorted_app in Hsorted as [Hs1 Hs2].
  exists candidates, (skipn 10 (sort_by_value candidates)).
  split; [reflexivity|]. split; [exact Hvals|]. split; [exact Hids|].
  split; [|split; [exact Hperm|split; [|split; [exact Hs1|exact Hs2]]]].
  - intros p Hp. rewrite List.Forall_forall in Hall. now apply Hall.
  - rewrite length_firstn.
    now rewrite <- (Permutation_length (sort_by_value_perm candidates)).
Qed.

Lemma top_paths_are_the_most_valuable_witness :
  exists candidates rest,
    collect_paths (graph (_optimize_graph exchange_state))
      (edges_view (graph (_optimize_graph exchange_state))) []
    = Ok candidates
    /\ map TopPath.value_eth candidates
       = significant_values (graph (_optimize_graph exchange_state))
    /\ map TopPath.path_id candidates
       = map (fun i => Z.of_nat i) (seq 1 (length candidates))
    /\ (forall p, In p candidates -> TopPath.hop_count p = 1)
    /\ Permutation candidates (exchange_paths ++ rest)
    /\ length exchange_paths = Nat.min 10 (length candidates)
    /\ StronglySorted outranks exchange_paths
    /\ forall p q, In p exchange_paths -> In q rest -> outranks p q.
Proof.
  apply (top_paths_are_the_most_valuable
           (graph (_optimize_graph exchange_state)) exchange_paths).
  vm_compute. reflexivity.
Defined.

(** ** Consolidation: what becomes of the edges *)

Lemma edge_data_add_edge g u v attr u' v' :
  DiGraph.edge_data (DiGraph.add_edge g u v attr) u' v'
  = if decide ((u, v) = (u', v'))
    then Some (Edge.update attr (default Edge.empty (DiGraph.edge_data g u v)))
    else DiGraph.edge_data g u' v'.
Proof.
  unfold DiGraph.edge_data, DiGraph.add_edge. simpl.
  destruct (decide ((u, v) = (u', v'))) as [<-|Hne].
  - now rewrite get_upsert_eq.
  - now apply get_upsert_ne.
Qed.

Lemma edge_data_remove_node g n u v :
  u <> n -> v <> n ->
  DiGraph.edge_data (DiGraph.remove_node g n) u v = DiGraph.edge_data g u v.
Proof.
  intros Hu Hv. unfold DiGraph.edge_data, DiGraph.remove_node. simpl.
  induction (DiGraph.edges g) as [|[[a b] d] es IH]; simpl; [reflexivity|].
  destruct (decide ((u, v) = (a, b))) as [[= <- <-]|Hne].
  - rewrite !bool_decide_false by assumption. simpl. now rewrite decide_True.
  - destruct (negb _); simpl; [|exact IH].
    rewrite decide_False by assumption. exact IH.
Qed.

Lemma edge_data_remove_node_gone g n u :
  DiGraph.edge_data (DiGraph.remove_node g n) u n = None.
Proof.
  unfold DiGraph.edge_data, DiGraph.remove_node. simpl.
  apply get_None_keys. intros Hin.
  apply in_map_iff in Hin as ([[a b] d] & [= -> ->] & Hin).
  apply filter_In in Hin as [_ Hkeep]. simpl in Hkeep.
  rewrite (bool_decide_true (n = n)) in Hkeep by reflexivity.
  now rewrite orb_true_r in Hkeep.
Qed.

Lemma redirect_incoming_edge master addr pred d1 g :
  master <> addr -> pred <> master ->
  DiGraph.edge_data g pred addr = Some d1 ->
  DiGraph.edge_data (redirect_incoming master addr g) pred master
  = Some (Edge.update d1 (default Edge.empty (DiGraph.edge_data g pred master))).
Proof.
  intros Hma Hpm Hd1. unfold redirect_incoming.
  assert (Hin : In pred (DiGraph.predecessors g addr)).
  { unfold DiGraph.predecessors, DiGraph.edge_data in *.
    apply get_Some_In in Hd1. apply in_map_iff. exists ((pred, addr), d1).
    split; [reflexivity|]. apply filter_In. split; [exact Hd1|].
    simpl. now apply bool_decide_eq_true. }
  set (target := Some (Edge.update d1
                         (default Edge.empty (DiGraph.edge_data g pred master)))).
  assert (Hgen : forall l g',
            (forall q, DiGraph.edge_data g' q addr = DiGraph.edge_data g q addr) ->
            (DiGraph.edge_data g' pred master = DiGraph.edge_data g pred master
             \/ DiGraph.edge_data g' pred master = target) ->
            (DiGraph.edge_data g' pred master = target \/ In pred l) ->
            DiGraph.edge_data
              (fold_left
                 (fun g0 p =>
                    if negb (String.eqb p master) then
                      match DiGraph.edge_data g0 p addr with
                      | Some edge_data => DiGraph.add_edge g0 p master edge_data
                      | None => g0
                      end
                    else g0) l g') pred master = target).
  { induction l as [|p l IH]; intros g' Hsame Hstate Hgoal; simpl.
    - destruct Hgoal as [Hgoal|[]]. exact Hgoal.
    - destruct (String.eqb_spec p master) as [->|Hp]; simpl.
      + apply IH; [exact Hsame|exact Hstate|].
        destruct Hgoal as [Hgoal|[Heq|Hl]]; [now left|congruence|now right].
      + destruct (DiGraph.edge_data g' p addr) as [d|] eqn:Hd.
        * apply IH.
          -- intros q. rewrite edge_data_add_edge.
             rewrite decide_False by congruence. apply Hsame.
          -- rewrite edge_data_add_edge.
             destruct (decide ((p, master) = (pred, master))) as [[= ->]|Hne];
               [|exact Hstate].
             right. rewrite Hsame, Hd1 in Hd. injection Hd as <-.
             destruct Hstate as [-> | ->]; [reflexivity|].
             unfold target. simpl. now rewrite Edge_update_twice.
          -- rewrite edge_data_add_edge.
             destruct (decide ((p, master) = (pred, master))) as [[= ->]|Hne].
             ++ left. rewrite Hsame, Hd1 in Hd. injection Hd as <-.
                destruct Hstate as [-> | ->]; [reflexivity|].
                unfold target. simpl. now rewrite Edge_update_twice.
             ++ destruct Hgoal as [Hgoal|[Heq|Hl]];
                  [now left|congruence|now right].
        * apply IH; [exact Hsame|exact Hstate|].
          destruct Hgoal as [Hgoal|[Heq|Hl]]; [now left| |now right].
          subst p. rewrite Hsame, Hd1 in Hd. discriminate. }
  apply Hgen; [reflexivity|now left|now right].
Qed.

Lemma redirect_outgoing_edge master addr pred g :
  pred <> master ->
  DiGraph.edge_data (redirect_outgoing master addr g) pred master
  = DiGraph.edge_data g pred master.
Proof.
  intros Hpm. unfold redirect_outgoing.
  apply (fold_left_keeps _ (fun g => DiGraph.edge_data g pred master)).
  intros g0 succ. destruct (negb (String.eqb succ master)); [|reflexivity].
  destruct (DiGraph.edge_data g0 addr succ); [|reflexivity].
  rewrite edge_data_add_edge. now rewrite decide_False by congruence.
Qed.

(** X16.  Consolidation does not add values up.  When an address is
    absorbed into the master of its group and some other node has an edge to
    it, that edge is moved onto the master; if the node already had an edge
    to the master, the attributes of the moved edge replace those of the
    edge that was there, so the edge ends with the value of the absorbed
    address's edge alone, and the edge to the absorbed address is gone. *)
Theorem consolidation_overwrites_edge_values
    (g : DiGraph.t) (master addr name pred : string) (d1 : Edge.t) :
  master <> addr -> pred <> master -> pred <> addr ->
  DiGraph.edge_data g pred addr = Some d1 ->
  let g' := _consolidate_address_group g [master; addr] name in
  DiGraph.edge_data g' pred master
  = Some (Edge.update d1 (default Edge.empty (DiGraph.edge_data g pred master)))
  /\ (forall v,
        Edge.value_eth d1 = Some v ->
        Edge.value_eth <$> DiGraph.edge_data g' pred master = Some (Some v))
  /\ DiGraph.edge_data g' pred addr = None.
Proof.
  intros Hma Hpm Hpa Hd1. simpl.
  set (g1 := {| DiGraph.nodes := _; DiGraph.edges := DiGraph.edges g |}).
  assert (Hedge : DiGraph.edge_data
                    (DiGraph.remove_node
                       (redirect_outgoing master addr
                          (redirect_incoming master addr g1)) addr)
                    pred master
                  = Some (Edge.update d1
                            (default Edge.empty (DiGraph.edge_data g pred master)))).
  { rewrite edge_data_remove_node by congruence.
    rewrite redirect_outgoing_edge by assumption.
    now rewrite (redirect_incoming_edge master addr pred d1 g1). }
  split; [exact Hedge|]. split.
  - intros v Hv. rewrite Hedge. simpl. now rewrite Hv.
  - apply edge_data_remove_node_gone.
Qed.

Lemma consolidation_overwrites_edge_values_witness :
  let g' :=
    _consolidate_address_group (graph exchange_state)
      [ "0x3f5ce5fbfe3e9af3971dd833d26ba9b5c936f0be";
        "0xd551234ae421e3bcba99a0da6d736074f22192ff" ] "Binance" in
  DiGraph.edge_data g' "0xhacker" "0x3f5ce5fbfe3e9af3971dd833d26ba9b5c936f0be"
  = Some (Edge.update exchange_edge
            (default Edge.empty
               (DiGraph.edge_data (graph exchange_state) "0xhacker"
                  "0x3f5ce5fbfe3e9af3971dd833d26ba9b5c936f0be")))
  /\ (forall v,
        Edge.value_eth exchange_edge = Some v ->
        Edge.value_eth
          <$> DiGraph.edge_data g' "0xhacker"
                "0x3f5ce5fbfe3e9af3971dd833d26ba9b5c936f0be"
        = Some (Some v))
  /\ DiGraph.edge_data g' "0xhacker" "0xd551234ae421e3bcba99a0da6d736074f22192ff"
     = None.
Proof.
  apply (consolidation_overwrites_edge_values (graph exchange_state)
           "0x3f5ce5fbfe3e9af3971dd833d26ba9b5c936f0be"
           "0xd551234ae421e3bcba99a0da6d736074f22192ff" "Binance" "0xhacker"
           exchange_edge).
  - discriminate.
  - discriminate.
  - discriminate.
  - vm_compute. reflexivity.
Defined.

(** ** The Etherscan client *)

Lemma retry_spec left client http k n r :
  Client.retry left client http k = (n, r) ->
  (k < n <= k + left + 1)%nat
  /\ forall e, r = Raise e -> is_etherscan_error e = false.
Proof.
  revert k. induction left as [|left IH]; intros k; simpl;
    destruct (Client.attempt client (http k)) as [data|e0] eqn:Ha.
  - intros [= <- <-]. split; [lia|discriminate].
  - destruct (is_etherscan_error e0) eqn:He0; intros [= <- <-];
      (split; [lia|]); intros e [= <-]; [reflexivity|exact He0].
  - intros [= <- <-]. split; [lia|discriminate].
  - destruct (is_etherscan_error e0) eqn:He0.
    + intros H. destruct (IH _ H) as [Hn Hr]. split; [lia|exact Hr].
    + intros [= <- <-]. split; [lia|]. now intros e [= <-].
Qed.

Lemma retry_exhausted left client http k :
  (forall n, (k <= n <= k + left)%nat ->
     exists e, Client.attempt client (http n) = Raise e
               /\ is_etherscan_error e = true) ->
  Client.retry left client http k
  = ((k + left + 1)%nat, Raise (OtherError "RetryError")).
Proof.
  revert k. induction left as [|left IH]; intros k Hfail; simpl;
    destruct (Hfail k ltac:(lia)) as (e & -> & ->).
  - do 2 f_equal. lia.
  - rewrite IH.
    + do 2 f_equal. lia.
    + intros n Hn. apply Hfail. lia.
Qed.

Lemma get_result_raises j e :
  Client.get_result j = Raise e -> is_etherscan_error e = false.
Proof. destruct j; simpl; [discriminate|]. now intros [= <-]. Qed.

(** How [get_account_transactions] goes, by what the cache lookup found. *)
Lemma get_account_transactions_cases s now_lookup now_store http
    address from_block end_block page offset sort :
  let key :=
    Client._get_cache_key "account_txlist"
      (Client.txlist_params address from_block end_block page offset sort) in
  let looked := Client._get_cached_response s now_lookup key in
  let run := Client._make_request (Client.client looked.2) http in
  Client.get_account_transactions s now_lookup now_store http
    address from_block end_block page offset sort
  = match looked.1 with
    | Some cached =>
        if Client.json_truthy cached
        then ({| attempts := 0; outcome := Client.get_result cached |}, looked.2)
        else
          match run.2 with
          | Ok response =>
              ({| attempts := run.1; outcome := Client.get_result response |},
               Client._cache_response looked.2 now_store key response)
          | Raise e => ({| attempts := run.1; outcome := Raise e |}, looked.2)
          end
    | None =>
        match run.2 with
        | Ok response =>
            ({| attempts := run.1; outcome := Client.get_result response |},
             Client._cache_response looked.2 now_store key response)
        | Raise e => ({| attempts := run.1; outcome := Raise e |}, looked.2)
        end
    end.
Proof.
  simpl. unfold Client.get_account_transactions.
  destruct (Client._get_cached_response s now_lookup _) as [[cached|] s1]; simpl;
    [destruct (Client.json_truthy cached); [reflexivity|]|];
    destruct (Client._make_request (Client.client s1) http) as [n [response|e]];
    reflexivity.
Qed.

(** C2, as the code has it.  A frontier node is expanded with the
    repository's client, nothing is cached for its request, and each of the
    three attempts inside [_make_request] fails with a rate-limit or upstream
    error.  What leaves the client is then the retry decorator's
    [RetryError], which the handler of [_process_node] does not catch: the
    iteration raises and the traversal is over, with the rest of the
    frontier unprocessed.  [api_calls_used] is not incremented, the graph is
    as it was, so no termination reason is recorded for the node, and the
    node is not marked processed. *)
Theorem failed_fetch_ends_traversal
    (limits : Limits) (classifier : AddressClassifier) (st : State)
    (s : Client.EtherscanService) (now_lookup now_store : Z)
    (http : nat -> Client.Http) (envs : list Env)
    (address : string) (depth : Z) (rest : list (string * Z)) :
  loop_condition limits st = true ->
  pending_nodes st = (address, depth) :: rest ->
  bool_decide (address ∈ processed_nodes st) = false ->
  (max_depth limits <=? depth) = false ->
  Client.client s = true ->
  Client.cache s !! node_request_key address (start_block (graph st) address)
  = None ->
  (forall k, (k < 3)%nat ->
     exists e, Client.attempt true (http k) = Raise e
               /\ is_etherscan_error e = true) ->
  let env := served_by s now_lookup now_store http in
  let st' := visited (set_pending_nodes st rest) address in
  get_account_transactions env address (start_block (graph st) address)
  = {| attempts := 3; outcome := Raise (OtherError "RetryError") |}
  /\ loop_body limits classifier env st = Raised (OtherError "RetryError") st'
  /\ _recursive_traversal limits classifier (env :: envs) st
     = Aborted (OtherError "RetryError") st'
  /\ api_calls_used st' = api_calls_used st
  /\ termination_reason_of st' address = termination_reason_of st address
  /\ (address ∉ processed_nodes st')
  /\ pending_nodes st' = rest.
Proof.
  intros Hcond Hpend Hproc Hdepth Hclient Hmiss Hfail env st'.
  assert (Hfetch :
    get_account_transactions env address (start_block (graph st) address)
    = {| attempts := 3; outcome := Raise (OtherError "RetryError") |}).
  { unfold env, served_by. cbn [get_account_transactions].
    unfold Client.fetch_for_node. rewrite get_account_transactions_cases.
    cbv zeta. fold (node_request_key address (start_block (graph st) address)).
    unfold Client._get_cached_response. rewrite Hmiss. cbn [fst snd].
    rewrite Hclient. unfold Client._make_request.
    rewrite retry_exhausted by (intros n Hn; apply Hfail; lia).
    reflexivity. }
  assert (Hbody : loop_body limits classifier env st
                  = Raised (OtherError "RetryError") st').
  { rewrite (loop_body_expands limits classifier env st address depth rest
               eq_refl Hpend Hproc Hdepth).
    rewrite (_process_node_failed limits classifier _ _ address depth
               (OtherError "RetryError"))
      by (cbn [graph set_pending_nodes]; now rewrite Hfetch).
    reflexivity. }
  split; [exact Hfetch|]. split; [exact Hbody|]. split.
  { simpl. rewrite Hcond. fold env. now rewrite Hbody. }
  split; [reflexivity|]. split; [reflexivity|]. split; [|reflexivity].
  simpl. now apply bool_decide_eq_false in Hproc.
Qed.

Lemma failed_fetch_ends_traversal_witness :
  let env := served_by fresh_client 0 0 unreachable in
  let st' := visited (set_pending_nodes seed_state []) "0xhacker" in
  get_account_transactions env "0xhacker" (start_block (graph seed_state) "0xhacker")
  = {| attempts := 3; outcome := Raise (OtherError "RetryError") |}
  /\ loop_body get_processing_limits new_classifier env seed_state
     = Raised (OtherError "RetryError") st'
  /\ _recursive_traversal get_processing_limits new_classifier
       [env; answering []] seed_state
     = Aborted (OtherError "RetryError") st'
  /\ api_calls_used st' = api_calls_used seed_state
  /\ termination_reason_of st' "0xhacker" = termination_reason_of seed_state "0xhacker"
  /\ ("0xhacker" ∉ processed_nodes st')
  /\ pending_nodes st' = [].
Proof.
  apply (failed_fetch_ends_traversal get_processing_limits new_classifier
           seed_state fresh_client 0 0 unreachable [answering []]
           "0xhacker" 1 []).
  - vm_compute. reflexivity.
  - reflexivity.
  - vm_compute. reflexivity.
  - reflexivity.
  - reflexivity.
  - reflexivity.
  - intros k _. eexists. split; reflexivity.
Defined.

(** C2 at its failing input: the source answers HTTP 502 to each of the
    three attempts made for the hacker's address.  The traversal is ended by
    [RetryError] with [api_calls_used] at 0, no termination reason on the
    hacker's node and the hacker not marked processed; nothing is left to
    continue with. *)
Lemma upstream_failure_aborts_the_job :
  Client.attempt true (unreachable 0) = Raise (EtherscanError "HTTP 502: Bad Gateway")
  /\ exists st',
       _recursive_traversal get_processing_limits new_classifier
         [served_by fresh_client 0 0 unreachable; answering []] seed_state
       = Aborted (OtherError "RetryError") st'
       /\ api_calls_used st' = 0
       /\ termination_reason_of st' "0xhacker" = None
       /\ processed_nodes st' = ∅
       /\ nodes_processed st' = 0.
Proof.
  split; [vm_compute; reflexivity|].
  eexists. split; [vm_compute; reflexivity|].
  repeat split.
Qed.

(** X17.  No [EtherscanError] leaves the client's
    [get_account_transactions]: the request is attempted at most three
    times, and when every attempt fails with an error of that kind, what is
    raised is the retry decorator's [RetryError].  So when the engine
    expands a node with this client and the call raises, the handler for
    Etherscan errors in [_process_node] does not apply: the exception leaves
    [_process_node], and the traversal with it. *)
Theorem client_failure_is_not_swallowed
    (s : Client.EtherscanService) (now_lookup now_store : Z)
    (http : nat -> Client.Http) (address : string) (from_block : Z) :
  let fetched :=
    (Client.fetch_for_node s now_lookup now_store http address from_block).1 in
  (attempts fetched <= 3)%nat
  /\ (forall e, outcome fetched = Raise e -> is_etherscan_error e = false)
  /\ (forall n r,
        Client._make_request true http = (n, r) ->
        (forall k, (k < 3)%nat ->
           exists e, Client.attempt true (http k) = Raise e
                     /\ is_etherscan_error e = true) ->
        n = 3%nat /\ r = Raise (OtherError "RetryError"))
  /\ (forall limits classifier fetch st depth e,
        fetch address (start_block (graph st) address) = fetched ->
        outcome fetched = Raise e ->
        _process_node limits classifier fetch st address depth
        = Raised e (visited st address)).
Proof.
  simpl.
  assert (Hcases :
    (attempts (Client.fetch_for_node s now_lookup now_store http address
                 from_block).1 <= 3)%nat
    /\ forall e,
         outcome (Client.fetch_for_node s now_lookup now_store http address
                    from_block).1 = Raise e ->
         is_etherscan_error e = false).
  { unfold Client.fetch_for_node. rewrite get_account_transactions_cases.
    set (looked := Client._get_cached_response s now_lookup _).
    set (run := Client._make_request (Client.client looked.2) http).
    assert (Hrun : (run.1 <= 3)%nat
                   /\ forall e, run.2 = Raise e -> is_etherscan_error e = false).
    { destruct run as [n r] eqn:Hr. unfold run, Client._make_request in Hr.
      destruct (retry_spec _ _ _ _ _ _ Hr) as [Hn He]. simpl. split; [lia|exact He]. }
    destruct Hrun as [Hn He].
    destruct looked.1 as [cached|];
      [destruct (Client.json_truthy cached);
         [simpl; split; [lia|apply get_result_raises]|]|];
      (destruct run.2 as [response|e0] eqn:Hr2; simpl;
       [split; [exact Hn|apply get_result_raises]
       |split; [exact Hn|intros e [= <-]; now apply He]]). }
  destruct Hcases as [Hn He].
  split; [exact Hn|]. split; [exact He|]. split.
  - intros n r Hr Hfail. unfold Client._make_request in Hr.
    rewrite retry_exhausted in Hr.
    + now injection Hr as <- <-.
    + intros k Hk. apply Hfail. lia.
  - intros limits classifier fetch st depth e Hfetch Hraise.
    rewrite (_process_node_failed limits classifier fetch st address depth e)
      by (now rewrite Hfetch).
    unfold except_etherscan. now rewrite (He e Hraise).
Qed.

Lemma _get_cached_response_keeps s now key :
  Client.cache_ttl (Client._get_cached_response s now key).2 = Client.cache_ttl s
  /\ Client.client (Client._get_cached_response s now key).2 = Client.client s.
Proof.
  unfold Client._get_cached_response.
  destruct (Client.cache s !! key) as [entry|]; [|now split].
  destruct (Client._is_cache_valid s now entry); now split.
Qed.

Lemma _get_cached_response_stored s t key response now :
  let s1 := Client._cache_response s t key response in
  Client._get_cached_response s1 now key
  = if now - t <? Client.cache_ttl s * 1000000
    then (Some response, s1)
    else (None, Client.set_cache s1 (delete key (Client.cache s1))).
Proof.
  simpl. unfold Client._get_cached_response, Client._cache_response. simpl.
  rewrite lookup_insert_eq. unfold Client._is_cache_valid. simpl.
  now destruct (now - t <? Client.cache_ttl s * 1000000).
Qed.

(** X18.  A fetch that made a request and returned a non-empty list of
    transactions is remembered: within [cache_ttl] seconds of the store (by
    the clock readings of lookup and store, in microseconds) the same call
    is answered with the same transactions without any request and leaves
    the service as it is; from [cache_ttl] seconds on, the entry is dropped
    and a request is made again. *)
Theorem repeated_fetch_is_served_from_cache
    (s : Client.EtherscanService) (now_lookup stored : Z)
    (http : nat -> Client.Http) (address : string) (from_block : Z)
    (txs : list RawTx) (now now_store : Z) (http' : nat -> Client.Http) :
  let first := Client.fetch_for_node s now_lookup stored http address from_block in
  outcome first.1 = Ok txs ->
  txs <> [] ->
  (0 < attempts first.1)%nat ->
  let again := Client.fetch_for_node first.2 now now_store http' address from_block in
  (now - stored < Client.cache_ttl s * 1000000 ->
   again = ({| attempts := 0; outcome := Ok txs |}, first.2))
  /\ (Client.cache_ttl s * 1000000 <= now - stored ->
      (0 < attempts again.1)%nat).
Proof.
  simpl. unfold Client.fetch_for_node.
  rewrite (get_account_transactions_cases s).
  set (key := Client._get_cache_key "account_txlist" _).
  set (looked := Client._get_cached_response s now_lookup key).
  set (run := Client._make_request (Client.client looked.2) http).
  destruct (_get_cached_response_keeps s now_lookup key) as [Httl _].
  fold looked in Httl.
  assert (Hstored : forall response,
            Client.get_result response = Ok txs -> txs <> [] ->
            let s1 := Client._cache_response looked.2 stored key response in
            (now - stored < Client.cache_ttl s * 1000000 ->
             Client.get_account_transactions s1 now now_store http' address
               from_block 99999999 1 50 "asc"
             = ({| attempts := 0; outcome := Ok txs |}, s1))
            /\ (Client.cache_ttl s * 1000000 <= now - stored ->
                (0 < attempts
                       (Client.get_account_transactions s1 now now_store http'
                          address from_block 99999999 1 50 "asc").1)%nat)).
  { intros response Hres Hne. simpl.
    rewrite get_account_transactions_cases. fold key.
    rewrite _get_cached_response_stored, Httl. split; intros Hnow.
    - apply Z.ltb_lt in Hnow. rewrite Hnow. simpl.
      destruct response as [d|truthy]; [|discriminate]. simpl in Hres.
      injection Hres as Hres.
      assert (Htruthy : Client.json_truthy (Client.Object d) = true).
      { simpl. destruct (Client.result d) as [l|] eqn:Hr.
        - rewrite (bool_decide_true (Some l <> None)) by discriminate.
          now rewrite !orb_true_r.
        - simpl in Hres. congruence. }
      rewrite Htruthy. simpl. now rewrite Hres.
    - apply Z.ltb_ge in Hnow. rewrite Hnow. simpl.
      match goal with
      | |- context [Client._make_request ?c http'] =>
          destruct (Client._make_request c http') as [n r] eqn:Hr
      end.
      unfold Client._make_request in Hr.
      destruct (retry_spec _ _ _ _ _ _ Hr) as [Hn _].
      destruct r; simpl; lia. }
  destruct looked.1 as [cached|];
    [destruct (Client.json_truthy cached); [simpl; intros _ _ H; lia|]|];
    (destruct run.2 as [response|e]; simpl; [|discriminate];
     intros Hres Hne _; now apply Hstored).
Qed.

Lemma repeated_fetch_is_served_from_cache_witness :
  let first := Client.fetch_for_node fresh_client 0 0 reachable "0xhacker" 0 in
  let again :=
    Client.fetch_for_node first.2 599999999 599999999 unreachable "0xhacker" 0 in
  (599999999 - 0 < Client.cache_ttl fresh_client * 1000000 ->
   again = ({| attempts := 0; outcome := Ok exchange_transfers |}, first.2))
  /\ (Client.cache_ttl fresh_client * 1000000 <= 599999999 - 0 ->
      (0 < attempts again.1)%nat).
Proof.
  apply (repeated_fetch_is_served_from_cache fresh_client 0 0 reachable
           "0xhacker" 0 exchange_transfers 599999999 599999999 unreachable).
  - vm_compute. reflexivity.
  - discriminate.
  - vm_compute. lia.
Defined.

(** ** Pruning after a traversal *)

Lemma _check_termination_conditions_others classifier st a n m :
  let st' := _check_termination_conditions classifier st a n m in
  (forall b, b <> a ->
     DiGraph.node_data (graph st') b = DiGraph.node_data (graph st) b)
  /\ (forall b, is_Some (address_visit_count st !! b) ->
        is_Some (address_visit_count st' !! b)).
Proof.
  unfold _check_termination_conditions, visit_count_read.
  destruct (address_visit_count st !! a) as [k|] eqn:Hseen;
    (destruct (classify_address classifier a n default_daily_tx_count _)
       as [[entity_type confidence] details];
     destruct (should_terminate_by_default a entity_type confidence n m)
       as (reason & -> & Hreason);
     simpl;
     destruct (DiGraph.has_node (graph st) a) eqn:Hnode; simpl;
     rewrite ?has_node_update_node, ?Hnode; simpl).
  all: split.
  all: try (intros b Hb; rewrite ?node_data_update_node_any;
            rewrite ?decide_False by congruence; reflexivity).
  all: intros b Hb; try exact Hb.
  all: destruct (decide (a = b)) as [<-|Hne];
    [rewrite lookup_insert_eq; eauto
    |rewrite lookup_insert_ne by assumption; exact Hb].
Qed.

Lemma _process_transaction_bare victim limits st tx a d :
  DiGraph.has_node (graph st) a = true ->
  is_Some (address_visit_count st !! a) ->
  unexpanded_are_bare victim st ->
  unexpanded_are_bare victim (_process_transaction limits st tx a d).
Proof.
  intros Ha Hseen [He Hu].
  destruct (_process_transaction_cases limits st tx a d Ha)
    as [->|([f Hedges] & _ & _ & _ & Hcount & _ & Hnodes)]; [now split|].
  split.
  - intros u v. rewrite Hedges, keys_upsert, Hcount.
    destruct (AList.mem _ _); [apply He|].
    intros Hin. apply in_app_or in Hin as [Hin|[[= <- <-]|[]]];
      [now apply (He u v)|now right].
  - intros n data. rewrite Hcount. unfold DiGraph.node_data.
    destruct Hnodes as [(_ & -> & _)|(_ & -> & _)]; [apply Hu|].
    rewrite get_app_last.
    destruct (AList.get n (DiGraph.nodes (graph st))) as [x|] eqn:Hg.
    + intros [= <-]. now apply (Hu n).
    + destruct (decide _); [|discriminate]. intros [= <-] _. simpl. auto.
Qed.

Lemma _initialize_graph_bare incident tx_details st0 :
  _initialize_graph new_service (Some incident) tx_details = Ok st0 ->
  unexpanded_are_bare (lower (Repo.wallet_address incident)) st0.
Proof.
  unfold _initialize_graph.
  destruct tx_details as [|hack_tx rest]; [discriminate|].
  intros [= <-]. split.
  - intros u v [[= <- <-]|[]]. now left.
  - intros n data. unfold _add_graph_edge, _add_graph_node. simpl graph.
    rewrite node_data_add_edge_present, !node_data_add_node.
    + destruct (decide (lower (Repo.to_address hack_tx) = n)).
      * intros [= <-] _.
        destruct (decide _); (split; [reflexivity|right; right; reflexivity]).
      * destruct (decide (lower (Repo.wallet_address incident) = n));
          [|discriminate].
        intros [= <-] _. split; [reflexivity|right; left; reflexivity].
    + rewrite !has_node_add_node.
      rewrite (bool_decide_true (lower (Repo.wallet_address incident) = _))
        by reflexivity.
      apply orb_true_r.
    + rewrite has_node_add_node. now rewrite bool_decide_true.
Qed.

(** X19.  Pruning after a traversal keeps only what was expanded: whatever
    the clock and the source answered and however the traversal ended, every
    node that [_remove_dead_ends] leaves in the graph is the victim's or an
    address whose expansion was started.  So the addresses found at
    [max_depth], which never enter the frontier, and those still in the
    frontier when a limit stopped the traversal, are removed, with the edges
    that lead to them. *)
Theorem pruning_keeps_only_expanded_nodes
    (limits : Limits) (classifier : AddressClassifier)
    (incident : Repo.Incident) (tx_details : list Repo.HackTx)
    (st0 : State) (envs : list Env) (n : string) :
  _initialize_graph new_service (Some incident) tx_details = Ok st0 ->
  let st := progress_state (_recursive_traversal limits classifier envs st0) in
  DiGraph.has_node (graph (_remove_dead_ends st)) n = true ->
  n = lower (Repo.wallet_address incident)
  \/ is_Some (address_visit_count st !! n).
Proof.
  intros Hinit. simpl.
  set (victim := lower (Repo.wallet_address incident)).
  destruct (_initialize_graph_establishes _ _ _ Hinit) as [Hinv0 _].
  pose proof (_initialize_graph_bare _ _ _ Hinit) as Hbare0. fold victim in Hbare0.
  assert (Hbare : unexpanded_are_bare victim
                    (progress_state
                       (_recursive_traversal limits classifier envs st0))).
  { apply (_recursive_traversal_scheme_state limits classifier
             (fun s => engine_inv s /\ unexpanded_are_bare victim s)
             (unexpanded_are_bare victim)
             (fun a d s =>
                DiGraph.has_node (graph s) a = true
                /\ is_Some (address_visit_count s !! a)
                /\ engine_inv s /\ unexpanded_are_bare victim s)).
    - now intros s [_ H].
    - now intros a d s (_ & _ & _ & H).
    - intros s a d rest [Hinv Hb] Hp.
      destruct (engine_inv_pop s a d rest Hinv Hp) as [Hinv' _]. now split.
    - intros s a d rest [Hinv [He Hu]] Hp _ _.
      destruct (engine_inv_pop s a d rest Hinv Hp) as [Hinv' Ha].
      split; [exact Ha|]. split; [simpl; rewrite lookup_insert_eq; eauto|].
      split; [exact Hinv'|]. split.
      + intros u v Hin. destruct (He u v Hin) as [Hv|Hs]; [now left|right].
        simpl. destruct (decide (a = u)) as [<-|Hne];
          [rewrite lookup_insert_eq; eauto
          |now rewrite lookup_insert_ne by assumption].
      + intros b data Hb Hnone. apply (Hu b data Hb). simpl in Hnone.
        destruct (decide (a = b)) as [<-|Hne];
          [rewrite lookup_insert_eq in Hnone; discriminate
          |now rewrite lookup_insert_ne in Hnone by assumption].
    - intros a d s k H. exact H.
    - intros a d s tx (Ha & Hseen & Hinv & Hb).
      destruct (_process_transaction_keeps limits s tx a d Hinv) as [Hinv' [Hadv _]].
      destruct (_process_transaction_counts limits s tx a d) as (Hc & _).
      rewrite Hc. split; [now apply Hadv|]. split; [exact Hseen|].
      split; [exact Hinv'|]. now apply _process_transaction_bare.
    - intros a d s k m (Ha & Hseen & Hinv & [He Hu]).
      destruct (_check_termination_conditions_keeps classifier s a k m Hinv)
        as (Hinv' & [Hadv _] & _).
      destruct (_check_termination_conditions_frame classifier s a k m)
        as (_ & Hedges & _).
      destruct (_check_termination_conditions_others classifier s a k m)
        as [Hdata Hcount].
      split; [now apply Hadv|]. split; [now apply Hcount|].
      split; [exact Hinv'|]. split.
      + intros u v. rewrite Hedges. intros Hin.
        destruct (He u v Hin) as [Hv|Hs]; [now left|right; now apply Hcount].
      + intros b data Hb Hnone.
        assert (Hnone0 : address_visit_count s !! b = None).
        { destruct (address_visit_count s !! b) eqn:Hold; [|reflexivity].
          destruct (Hcount b ltac:(eauto)) as [x Hx]. congruence. }
        assert (Hne : b <> a).
        { intros ->. destruct Hseen as [x Hx]. congruence. }
        rewrite (Hdata b Hne) in Hb. now apply (Hu b data).
    - intros a d s (_ & _ & Hinv & Hb). now split.
    - now split. }
  destruct Hbare as [He Hu].
  set (st := progress_state (_recursive_traversal limits classifier envs st0)) in *.
  intros Hkept.
  destruct (address_visit_count st !! n) as [k|] eqn:Hseen; [right; eauto|].
  destruct (String.eqb_spec n victim) as [Hv|Hv]; [now left|]. exfalso.
  unfold _remove_dead_ends in Hkept. cbn [graph set_graph] in Hkept.
  apply has_node_keys in Hkept. rewrite remove_nodes_nodes in Hkept.
  apply in_map_iff in Hkept as ([n' data'] & Heq & Hin). simpl in Heq. subst n'.
  apply filter_In in Hin as [Hin Hout]. simpl in Hout.
  apply negb_true_iff in Hout.
  assert (Hnode : exists data, DiGraph.node_data (graph st) n = Some data).
  { apply has_node_node_data. apply has_node_keys.
    apply in_map_iff. now exists (n, data'). }
  destruct Hnode as [data Hdata].
  destruct (Hu n data Hdata Hseen) as [Hreason Hkind].
  assert (Hdead : In n (nodes_to_remove (graph st))).
  { unfold nodes_to_remove. apply in_map_iff. exists (n, data).
    split; [reflexivity|]. apply filter_In.
    split; [now apply get_Some_In|]. simpl. unfold is_dead_end.
    rewrite Hreason. simpl.
    assert (Hdeg : DiGraph.out_degree (graph st) n = 0).
    { unfold DiGraph.out_degree.
      destruct (List.filter _ (DiGraph.edges (graph st))) as [|[[u v] d] l] eqn:Hf;
        [reflexivity|].
      assert (Hin' : In ((u, v), d)
                       (List.filter (fun kv => bool_decide (kv.1.1 = n))
                          (DiGraph.edges (graph st))))
        by (rewrite Hf; now left).
      apply filter_In in Hin' as [Hin' Hsrc]. simpl in Hsrc.
      apply bool_decide_eq_true in Hsrc. subst u.
      destruct (He n v) as [Hvic|[x Hx]]; [|contradiction|congruence].
      apply in_map_iff. now exists ((n, v), d). }
    rewrite Hdeg. simpl.
    destruct Hkind as [-> |[-> | ->]]; reflexivity. }
  apply str_in_In in Hdead. congruence.
Qed.

Lemma pruning_keeps_only_expanded_nodes_witness :
  "0xhacker" = lower "0xVictim"
  \/ is_Some (address_visit_count quiet_state !! "0xhacker").
Proof.
  refine (pruning_keeps_only_expanded_nodes get_processing_limits new_classifier
            {| Repo.wallet_address := "0xVictim" |}
            [ {| Repo.to_address := "0xHacker";
                 Repo.transaction_hash := Some "0xseed";
                 Repo.value := Some 5%float |} ]
            seed_state [answering small_transfers] "0xhacker" _ _).
  - reflexivity.
  - vm_compute. reflexivity.
Defined.

(** ** The traversal: breadth first *)





